(** * Workflow engine of the qalam command-line assistant

    A shallow embedding of

    - [WorkflowManager] ([src/workflows/manager.js]): [save], [get],
      [execute], [executeCommand], [replaceVariables], [list], [remove],
      [duplicate];
    - [Database] ([src/core/database.js]): the workflow and command tables;
    - [Config.compareVersions] and the variables of the command line;
    - the debug-shell skill: [parseOptions], [addAnnotations], the session
      store, [scheduleCleanup], [parseDuration], [getAge];

    together with the properties of the workflow specification that concern
    them. *)

From Stdlib Require Import Bool Arith NArith ZArith List Permutation Ascii String DecimalString Lia.
Import ListNotations.

Open Scope string_scope.

(* ================================================================== *)
(** * JavaScript strings *)
(* ================================================================== *)

(** Strings are sequences of characters; [+] and template literals are
    [append]. *)

Module JsString.

(** [s.startsWith(p)] *)
Fixpoint starts_with (p s : string) : bool :=
  match p, s with
  | EmptyString, _ => true
  | String a p', String b s' => if Ascii.eqb a b then starts_with p' s' else false
  | String _ _, EmptyString => false
  end.

(** [s.slice(n)] *)
Fixpoint drop (n : nat) (s : string) : string :=
  match n, s with
  | O, _ => s
  | S n', String _ s' => drop n' s'
  | S _, EmptyString => EmptyString
  end.

(** [s.includes(p)] *)
Fixpoint includes (p s : string) : bool :=
  starts_with p s ||
  match s with
  | EmptyString => false
  | String _ s' => includes p s'
  end.

(** [p] occurs in [s] as a contiguous substring. *)
Definition occurs (p s : string) : Prop :=
  exists a b, s = a ++ p ++ b.

(** The character [c] appears in [s]. *)
Fixpoint mem (c : ascii) (s : string) : bool :=
  match s with
  | EmptyString => false
  | String a s' => Ascii.eqb a c || mem c s'
  end.

(** [c] is one of [0] ... [9], what [\d] matches. *)
Definition is_digit (c : ascii) : bool :=
  let n := nat_of_ascii c in (Nat.leb 48 n && Nat.leb n 57)%bool.

Fixpoint all_digits (s : string) : bool :=
  match s with
  | EmptyString => true
  | String c s' => is_digit c && all_digits s'
  end.

(** The value of a decimal numeral, most significant digit first. *)
Fixpoint decimal_from (acc : N) (s : string) : N :=
  match s with
  | EmptyString => acc
  | String c s' => decimal_from (10 * acc + (N.of_nat (nat_of_ascii c) - 48)) s'
  end.

Definition decimal (s : string) : N := decimal_from 0 s.

(** [String(n)] for a non-negative integer. *)
Definition of_nat (n : nat) : string :=
  NilZero.string_of_uint (Nat.to_uint n).

(** ** [GetSubstitution] (ECMA-262, 22.1.3.19.1)

    The replacement text of [String.prototype.replace] is a template:
    [$$] stands for a dollar sign, [$&] for the matched text, [$`] for the
    text before the match and [$'] for the text after it.  The regular
    expressions built by [replaceVariables] have no capture group, so
    [$1] ... [$99] and [$<] stand for themselves, as does a dollar sign
    followed by any other character or by nothing. *)
Fixpoint get_substitution (before matched after template : string) : string :=
  match template with
  | EmptyString => EmptyString
  | String a t1 =>
      if Ascii.eqb a "$" then
        match t1 with
        | String b t2 =>
            if Ascii.eqb b "$" then String "$" (get_substitution before matched after t2)
            else if Ascii.eqb b "&" then matched ++ get_substitution before matched after t2
            else if Ascii.eqb b "`" then before ++ get_substitution before matched after t2
            else if Ascii.eqb b "'" then after ++ get_substitution before matched after t2
            else String "$" (get_substitution before matched after t1)
        | EmptyString => String "$" EmptyString
        end
      else String a (get_substitution before matched after t1)
  end.

(** ** [s.replaceAll(pat, template)] for a text [pat] that is not empty

    The matches are the occurrences of [pat] found from left to right,
    each search resuming after the previous match; the text between the
    matches is kept and each match is replaced by the expansion of the
    template.  [before] is the part of the subject already passed, and
    [skip] counts the characters of the current match that are still to be
    passed over. *)
Fixpoint replace_from (pat template before : string) (skip : nat) (s : string) : string :=
  match s with
  | EmptyString => EmptyString
  | String c s' =>
      match skip with
      | S k => replace_from pat template (before ++ String c EmptyString) k s'
      | O =>
          if starts_with pat s then
            get_substitution before pat (drop (length pat) s) template
            ++ replace_from pat template (before ++ String c EmptyString) (length pat - 1) s'
          else
            String c (replace_from pat template (before ++ String c EmptyString) 0 s')
      end
  end.

Definition replace_all (pat template s : string) : string :=
  replace_from pat template EmptyString 0 s.

End JsString.

(* ================================================================== *)
(** * JavaScript objects used as string maps *)
(* ================================================================== *)

(** An object is represented by the list [Object.entries] returns for it:
    its own properties in property order, each key once. *)

Module JsObject.

Definition t : Type := list (string * string).

Definition keys (o : t) : list string := map fst o.

Fixpoint get (o : t) (k : string) : option string :=
  match o with
  | [] => None
  | (k', v) :: o' => if String.eqb k' k then Some v else get o' k
  end.

Definition has (o : t) (k : string) : bool :=
  match get o k with Some _ => true | None => false end.

(** Assigning to an existing property keeps its place. *)
Fixpoint update (o : t) (k v : string) : t :=
  match o with
  | [] => []
  | (k', v') :: o' => if String.eqb k' k then (k', v) :: o' else (k', v') :: update o' k v
  end.

(** An array index is the canonical numeral of an integer below
    [2^32 - 1]; an object enumerates the properties so named first, in
    ascending order, and the others after them in the order they were
    created. *)
Definition array_index (k : string) : option N :=
  let canonical :=
    match k with
    | EmptyString => false
    | String c k' =>
        JsString.all_digits k && (negb (Ascii.eqb c "0") || String.eqb k' "")
    end in
  if canonical && (JsString.decimal k <=? 4294967294)%N
  then Some (JsString.decimal k) else None.

(** The place of a new array index [n]: after the smaller indices. *)
Fixpoint insert_index (n : N) (k v : string) (o : t) : t :=
  match o with
  | [] => [(k, v)]
  | (k', v') :: o' =>
      match array_index k' with
      | Some n' => if (n' <? n)%N then (k', v') :: insert_index n k v o' else (k, v) :: o
      | None => (k, v) :: o
      end
  end.

(** The own property [k] of [o] is given the value [v]: an existing
    property keeps its place, a new one takes the place of its kind. *)
Definition set (o : t) (k v : string) : t :=
  if has o k then update o k v
  else
    match array_index k with
    | Some n => insert_index n k v o
    | None => (o ++ [(k, v)])%list
    end.

(** [o[k] = v] for an object made by [{}] that has no own property
    [__proto__]: the assignment to [__proto__] goes to the setter of
    [Object.prototype], which does nothing with a string; any other key
    becomes an own property. *)
Definition assign (o : t) (k v : string) : t :=
  if String.eqb k "__proto__" then o else set o k v.

(** [{ ...a, ...b }]: a new object that receives the properties of [a],
    then those of [b]. *)
Definition spread (a b : t) : t :=
  fold_left (fun o kv => set o (fst kv) (snd kv)) (a ++ b)%list [].

End JsObject.

(* ================================================================== *)
(** * Results and exceptions *)
(* ================================================================== *)

(** What a [try] block ends with. *)
Inductive completion (A : Type) : Type :=
| Normal (a : A)
| Throw (message : string).
Arguments Normal {A} a.
Arguments Throw {A} message.

(** The [{ success, message }] objects the manager returns. *)
Record Result : Type := mkResult {
  success : bool;
  message : string
}.

(* ================================================================== *)
(** * Regular expressions *)
(* ================================================================== *)

(** [replaceVariables] builds its regular expressions from the keys of
    the variable map.  The embedding interprets the patterns made of
    ordinary characters and of dots; what the engine does with any other
    pattern is a parameter. *)

Module RegExp.

(** An element of a pattern: a character that stands for itself, or
    [.], which matches any character but a line terminator; among the
    characters of [ascii] these are the line feed and the carriage
    return. *)
Inductive Atom : Type :=
| Char (c : ascii)
| AnyChar.

Definition line_terminator (c : ascii) : bool :=
  Ascii.eqb c (ascii_of_nat 10) || Ascii.eqb c (ascii_of_nat 13).

Definition atom_matches (a : Atom) (c : ascii) : bool :=
  match a with
  | Char x => Ascii.eqb x c
  | AnyChar => negb (line_terminator c)
  end.

(** The pattern matches at the start of [s]. *)
Fixpoint matches (atoms : list Atom) (s : string) : bool :=
  match atoms, s with
  | [], _ => true
  | a :: atoms', String c s' => atom_matches a c && matches atoms' s'
  | _ :: _, EmptyString => false
  end.

(** The pattern that matches the text [s] and nothing else. *)
Fixpoint text (s : string) : list Atom :=
  match s with
  | EmptyString => []
  | String c s' => Char c :: text s'
  end.

(** [s.slice(0, n)] *)
Fixpoint take (n : nat) (s : string) : string :=
  match n, s with
  | S n', String c s' => String c (take n' s')
  | _, _ => EmptyString
  end.

(** [s.replace(regexp, template)] for a global [regexp] with the pattern
    [atoms], which is never empty here.  The matches are found from left
    to right, each search resuming after the previous match; the text
    between the matches is kept and each match is replaced by the
    expansion of the template.  [before] is the part of the subject
    already passed, and [skip] counts the characters of the current match
    that are still to be passed over. *)
Fixpoint replace_from (atoms : list Atom) (template before : string) (skip : nat)
    (s : string) : string :=
  match s with
  | EmptyString => EmptyString
  | String c s' =>
      match skip with
      | S k => replace_from atoms template (before ++ String c EmptyString) k s'
      | O =>
          if matches atoms s then
            JsString.get_substitution before (take (List.length atoms) s)
              (JsString.drop (List.length atoms) s) template
            ++ replace_from atoms template (before ++ String c EmptyString)
                 (List.length atoms - 1) s'
          else
            String c (replace_from atoms template (before ++ String c EmptyString) 0 s')
      end
  end.

Definition replace_all (atoms : list Atom) (template s : string) : string :=
  replace_from atoms template EmptyString 0 s.

(** The engine on the sources the embedding does not interpret: whether
    [new RegExp(source, "g")] accepts [source]; the message of the
    [SyntaxError] it throws when it does not; and
    [subject.replace(new RegExp(source, "g"), template)] when it does. *)
Record Engine : Type := mkEngine {
  valid : string -> bool;
  syntax_error : string -> string;
  replace : string -> string -> string -> string
}.

End RegExp.

(* ================================================================== *)
(** * [WorkflowManager.replaceVariables] *)
(* ================================================================== *)

(** The key is pasted into the source of a regular expression as it is.
    A key without any syntax character of regular expressions is a name:
    [\$\{key\}] then matches the text [${key}] and [\$key] the text
    [$key]. *)

Definition syntax_character (c : ascii) : bool :=
  JsString.mem c "^$\.*+?()[]{}|".

Fixpoint literal_key (k : string) : bool :=
  match k with
  | EmptyString => true
  | String c k' => negb (syntax_character c) && literal_key k'
  end.

Definition literal_keys (variables : JsObject.t) : Prop :=
  Forall (fun k => literal_key k = true) (JsObject.keys variables).

Definition braced (key : string) : string := "${" ++ key ++ "}".
Definition bare (key : string) : string := "$" ++ key.

(** A key made of ordinary characters and dots gives a pattern the
    embedding interprets. *)
Fixpoint pattern_key (k : string) : bool :=
  match k with
  | EmptyString => true
  | String c k' => (negb (syntax_character c) || Ascii.eqb c ".") && pattern_key k'
  end.

Fixpoint atoms_of (k : string) : list RegExp.Atom :=
  match k with
  | EmptyString => []
  | String c k' =>
      (if Ascii.eqb c "." then RegExp.AnyChar else RegExp.Char c) :: atoms_of k'
  end.

(** A key with an opening parenthesis and no closing one, no bracket and
    no backslash opens a group that nothing closes: the engine refuses
    the source with a [SyntaxError]. *)
Definition unterminated_group (k : string) : bool :=
  JsString.mem "(" k && negb (JsString.mem ")" k)
  && negb (JsString.mem "[" k) && negb (JsString.mem "\" k).

(** The two forms of a placeholder. *)
Inductive Placeholder : Type :=
| Braced
| Bare.

(** [`\\$\\{${key}\\}`] and [`\\$${key}`] *)
Definition source (p : Placeholder) (key : string) : string :=
  match p with
  | Braced => "\$\{" ++ key ++ "\}"
  | Bare => "\$" ++ key
  end.

Definition atoms (p : Placeholder) (key : string) : list RegExp.Atom :=
  match p with
  | Braced =>
      RegExp.Char "$" :: RegExp.Char "{" :: (atoms_of key ++ [RegExp.Char "}"])%list
  | Bare => RegExp.Char "$" :: atoms_of key
  end.

(** [result.replace(new RegExp(source, "g"), value)] *)
Definition replace (E : RegExp.Engine) (p : Placeholder) (key value result : string)
  : completion string :=
  if pattern_key key then Normal (RegExp.replace_all (atoms p key) value result)
  else if unterminated_group key then Throw (RegExp.syntax_error E (source p key))
  else if RegExp.valid E (source p key)
       then Normal (RegExp.replace E (source p key) result value)
       else Throw (RegExp.syntax_error E (source p key)).

(** One turn of the loop body:
[[
      result = result.replace(new RegExp(`\\$\\{${key}\\}`, "g"), value);
      result = result.replace(new RegExp(`\\$${key}`, "g"), value);
]] *)
Definition replaceVariable (E : RegExp.Engine) (result : string) (entry : string * string)
  : completion string :=
  let (key, value) := entry in
  match replace E Braced key value result with
  | Normal result => replace E Bare key value result
  | Throw error => Throw error
  end.

(** [[
  replaceVariables(command, variables) {
    let result = command;
    for (const [key, value] of Object.entries(variables)) { ... }
    return result;
  }
]] *)
Fixpoint replaceVariables (E : RegExp.Engine) (command : string) (variables : JsObject.t)
  : completion string :=
  match variables with
  | [] => Normal command
  | entry :: rest =>
      match replaceVariable E command entry with
      | Normal result => replaceVariables E result rest
      | Throw error => Throw error
      end
  end.

(* ================================================================== *)
(** * [Database]: the [workflows] and [workflow_commands] tables *)
(* ================================================================== *)

Module Database.

(** [CURRENT_TIMESTAMP], in seconds. *)
Definition Time : Type := nat.

(** A row of [workflows].  The [variables] column holds
    [JSON.stringify] of a string map and is read back with [JSON.parse];
    the row keeps the map itself. *)
Record WorkflowRow : Type := mkWorkflowRow {
  id : nat;
  name : string;
  description : string;
  parallel : bool;
  continue_on_error : bool;
  variables : JsObject.t;
  execution_count : nat;
  created_at : Time;
  updated_at : Time;
  last_executed : option Time
}.

(** A row of [workflow_commands]. *)
Record CommandRow : Type := mkCommandRow {
  command_id : nat;
  workflow_id : nat;
  command : string;
  order_index : nat
}.

(** The two tables and their [AUTOINCREMENT] counters (the largest row id
    ever handed out, as [sqlite_sequence] keeps it). *)
Record t : Type := mkDb {
  workflows : list WorkflowRow;
  workflow_commands : list CommandRow;
  workflows_seq : nat;
  workflow_commands_seq : nat
}.

Definition empty : t := mkDb [] [] 0 0.

(** The [options] argument of [saveWorkflow]; an absent field is its
    falsy default. *)
Record Options : Type := mkOptions {
  opt_description : string;
  opt_parallel : bool;
  opt_continueOnError : bool;
  opt_variables : JsObject.t
}.

Definition no_options : Options := mkOptions "" false false [].

(** [SELECT ... FROM workflows WHERE name = ?] *)
Definition select_workflow (nm : string) (db : t) : option WorkflowRow :=
  find (fun w => String.eqb (name w) nm) (workflows db).

(** [DELETE FROM workflow_commands WHERE workflow_id = ?] *)
Definition delete_commands (wid : nat) (cs : list CommandRow) : list CommandRow :=
  filter (fun c => negb (Nat.eqb (workflow_id c) wid)) cs.

(** [INSERT OR REPLACE INTO workflows (name, description, parallel,
    continue_on_error, variables, updated_at) VALUES (...)].  A row with
    the same [name] is deleted first and, the foreign key being
    [ON DELETE CASCADE] with [PRAGMA foreign_keys = ON], so are its
    commands.  The new row takes the next row id and the column defaults.
    Returns [lastID]. *)
Definition insert_or_replace_workflow
    (nm : string) (options : Options) (now : Time) (db : t) : nat * t :=
  let replaced := filter (fun w => String.eqb (name w) nm) (workflows db) in
  let kept := filter (fun w => negb (String.eqb (name w) nm)) (workflows db) in
  let cs := fold_left (fun cs w => delete_commands (id w) cs) replaced (workflow_commands db) in
  let new_id := S (workflows_seq db) in
  let row := mkWorkflowRow new_id nm (opt_description options) (opt_parallel options)
               (opt_continueOnError options) (opt_variables options) 0 now now None in
  (new_id, mkDb (kept ++ [row]) cs new_id (workflow_commands_seq db)).

(** [INSERT INTO workflow_commands (workflow_id, command, order_index)
    VALUES (?, ?, ?)] *)
Definition insert_command (wid : nat) (cmd : string) (i : nat) (db : t) : t :=
  let new_id := S (workflow_commands_seq db) in
  mkDb (workflows db)
       (workflow_commands db ++ [mkCommandRow new_id wid cmd i])
       (workflows_seq db) new_id.

(** [for (let i = 0; i < commands.length; i++) await this.db.run(INSERT ...)] *)
Fixpoint insert_commands (wid : nat) (commands : list string) (i : nat) (db : t) : t :=
  match commands with
  | [] => db
  | cmd :: rest => insert_commands wid rest (S i) (insert_command wid cmd i db)
  end.

(** [[
async saveWorkflow(name, commands, options = {}) {
  const tx = await this.db.run('BEGIN TRANSACTION');
  try {
    const result = await this.db.run(`INSERT OR REPLACE INTO workflows ...`);
    const workflowId = result.lastID;
    if (!workflowId) {
      const existing = await this.db.get('SELECT id FROM workflows WHERE name = ?', [name]);
      if (existing) {
        await this.db.run('DELETE FROM workflow_commands WHERE workflow_id = ?', [existing.id]);
        workflowId = existing.id;
      }
    }
    for (let i = 0; i < commands.length; i++) { ... }
    await this.db.run('COMMIT');
    return workflowId;
  } catch (error) {
    await this.db.run('ROLLBACK');
    throw error;
  }
}
]]
    [workflowId] is a [const]: the assignment in the inner branch throws
    a [TypeError], which rolls the transaction back. *)
Definition saveWorkflow
    (nm : string) (commands : list string) (options : Options) (now : Time) (db : t)
  : completion nat * t :=
  let (workflowId, db1) := insert_or_replace_workflow nm options now db in
  let reassigned :=
    if Nat.eqb workflowId 0 then
      match select_workflow nm db1 with
      | Some _ => true
      | None => false
      end
    else false in
  if reassigned then (Throw "Assignment to constant variable.", db)
  else (Normal workflowId, insert_commands workflowId commands 0 db1).

(** The values bound to the [command] parameter of the [INSERT]: the
    strings, unless one of the values is [null]. *)
Fixpoint texts (values : list (option string)) : option (list string) :=
  match values with
  | [] => Some []
  | Some c :: rest =>
      match texts rest with
      | Some cs => Some (c :: cs)
      | None => None
      end
  | None :: _ => None
  end.

(** The message of the error [sqlite3] raises for a [null] command
    ([command TEXT NOT NULL]). *)
Definition not_null_failed : string :=
  "SQLITE_CONSTRAINT: NOT NULL constraint failed: workflow_commands.command".

(** [saveWorkflow] on an array that may hold [null]: what precedes the
    loop goes as it does for any array; in the loop the [INSERT] of a
    [null] command fails, the [catch] rolls the transaction back, which
    leaves the store as it was, and throws the error again. *)
Definition saveWorkflow_values
    (nm : string) (values : list (option string)) (options : Options) (now : Time) (db : t)
  : completion nat * t :=
  match texts values with
  | Some commands => saveWorkflow nm commands options now db
  | None =>
      match saveWorkflow nm [] options now db with
      | (Normal _, _) => (Throw not_null_failed, db)
      | (Throw error, _) => (Throw error, db)
      end
  end.

(** [ORDER BY order_index]: a stable insertion sort. *)
Fixpoint insert_by_order (c : CommandRow) (sorted : list CommandRow) : list CommandRow :=
  match sorted with
  | [] => [c]
  | d :: rest =>
      if Nat.ltb (order_index c) (order_index d) then c :: d :: rest
      else d :: insert_by_order c rest
  end.

Definition order_by_index (cs : list CommandRow) : list CommandRow :=
  fold_right insert_by_order [] cs.

(** [SELECT command FROM workflow_commands WHERE workflow_id = ?
    ORDER BY order_index] *)
Definition select_commands (wid : nat) (db : t) : list string :=
  map command
    (order_by_index (filter (fun c => Nat.eqb (workflow_id c) wid) (workflow_commands db))).

(** [UPDATE workflows SET execution_count = execution_count + 1,
    last_executed = CURRENT_TIMESTAMP WHERE id = ?] *)
Definition update_execution_stats (wid : nat) (now : Time) (db : t) : t :=
  mkDb (map (fun w =>
               if Nat.eqb (id w) wid then
                 mkWorkflowRow (id w) (name w) (description w) (parallel w)
                   (continue_on_error w) (variables w) (S (execution_count w))
                   (created_at w) (updated_at w) (Some now)
               else w)
            (workflows db))
       (workflow_commands db) (workflows_seq db) (workflow_commands_seq db).

(** The object [getWorkflow] returns: the selected row with its
    [commands] attached. *)
Record Workflow : Type := mkWorkflow {
  row : WorkflowRow;
  commands : list string
}.

(** [[
async getWorkflow(name) {
  const workflow = await this.db.get('SELECT * FROM workflows WHERE name = ?', [name]);
  if (workflow) {
    const commands = await this.db.all(`SELECT command FROM workflow_commands ...`);
    workflow.commands = commands.map(c => c.command);
    workflow.variables = JSON.parse(workflow.variables || '{}');
    // Update execution stats
    await this.db.run(`UPDATE workflows SET execution_count = execution_count + 1,
                       last_executed = CURRENT_TIMESTAMP WHERE id = ?`, [workflow.id]);
  }
  return workflow;
}
]] *)
Definition getWorkflow (nm : string) (now : Time) (db : t) : option Workflow * t :=
  match select_workflow nm db with
  | Some w =>
      (Some (mkWorkflow w (select_commands (id w) db)),
       update_execution_stats (id w) now db)
  | None => (None, db)
  end.

(** [[
  async deleteWorkflow(name) {
    const result = await this.db.run('DELETE FROM workflows WHERE name = ?', [name]);
    return result.changes > 0;
  }
]]
    The commands of a deleted workflow go with it ([ON DELETE CASCADE]);
    [changes] counts the workflow rows only. *)
Definition deleteWorkflow (nm : string) (db : t) : bool * t :=
  let deleted := filter (fun w => String.eqb (name w) nm) (workflows db) in
  let kept := filter (fun w => negb (String.eqb (name w) nm)) (workflows db) in
  let cs := fold_left (fun cs w => delete_commands (id w) cs) deleted (workflow_commands db) in
  (Nat.ltb 0 (List.length deleted),
   mkDb kept cs (workflows_seq db) (workflow_commands_seq db)).

(** A row of [listWorkflows]: a row of [workflows] with the number of its
    commands. *)
Record ListedRow : Type := mkListedRow {
  listed : WorkflowRow;
  commandCount : nat
}.

(** [SELECT COUNT(...) as count FROM workflow_commands WHERE workflow_id = ?] *)
Definition count_commands (wid : nat) (db : t) : nat :=
  List.length (filter (fun c => Nat.eqb (workflow_id c) wid) (workflow_commands db)).

(** [[
  async listWorkflows() {
    const workflows = await this.db.all('SELECT * FROM workflows ORDER BY updated_at DESC');
    for (const workflow of workflows) {
      const count = await this.db.get('SELECT COUNT(...) as count FROM workflow_commands
                                       WHERE workflow_id = ?', [workflow.id]);
      workflow.commandCount = count.count;
      workflow.variables = JSON.parse(workflow.variables || '{}');
    }
    return workflows;
  }
]]
    [updated_at] has a resolution of one second and SQLite does not say
    in which order rows of the same second come, so the ordering of the
    rows is an argument. *)
Definition listWorkflows (order_by_updated_at : list WorkflowRow -> list WorkflowRow)
    (db : t) : list ListedRow :=
  map (fun workflow => mkListedRow workflow (count_commands (id workflow) db))
      (order_by_updated_at (workflows db)).

End Database.

(* ================================================================== *)
(** * [WorkflowManager] *)
(* ================================================================== *)

(** The [commands] argument of [save]: absent, one string, or an array,
    whose elements are strings or, in an array read from a file by
    [import], [null] ([None]). *)
Inductive CommandsArg : Type :=
| NoCommands
| OneCommand (c : string)
| CommandArray (cs : list (option string)).

(** [!commands]: [undefined] and the empty string are falsy, every array
    is truthy. *)
Definition falsy_commands (commands : CommandsArg) : bool :=
  match commands with
  | NoCommands => true
  | OneCommand c => String.eqb c ""
  | CommandArray _ => false
  end.

(** [Array.isArray(commands) ? commands : [commands]] *)
Definition commandArray (commands : CommandsArg) : list (option string) :=
  match commands with
  | NoCommands => []
  | OneCommand c => [Some c]
  | CommandArray cs => cs
  end.

(** [[
  async save(name, commands, options = {}) {
    await this.init();
    if (!name || !commands) {
      return { success: false, message: "Name and commands are required" };
    }
    const commandArray = Array.isArray(commands) ? commands : [commands];
    try {
      await this.db.saveWorkflow(name, commandArray, options);
      return { success: true,
               message: `Workflow '${name}' saved with ${commandArray.length} commands` };
    } catch (error) {
      return { success: false, message: `Failed to save workflow: ${error.message}` };
    }
  }
]] *)
Definition save (name : string) (commands : CommandsArg) (options : Database.Options)
    (now : Database.Time) (db : Database.t) : Result * Database.t :=
  if String.eqb name "" || falsy_commands commands then
    (mkResult false "Name and commands are required", db)
  else
    let commandArray := commandArray commands in
    match Database.saveWorkflow_values name commandArray options now db with
    | (Normal _, db') =>
        (mkResult true
           ("Workflow '" ++ name ++ "' saved with "
              ++ JsString.of_nat (List.length commandArray) ++ " commands"),
         db')
    | (Throw error, db') =>
        (mkResult false ("Failed to save workflow: " ++ error), db')
    end.

(** What [execa(command, { shell: true })] settles with: the captured
    standard output of a process that exits with status 0, or the error of
    one that does not (or cannot be started), with its [stderr] (empty when
    there is none) and its [message]. *)
Inductive ExecaResult : Type :=
| Exited (stdout : string)
| Rejected (stderr error_message : string).

(** What a run does that can be seen from outside, in order: the shell
    commands it starts, and what it writes to the terminal through
    [console.log] and the [ora] spinner ([chalk] colours left out). *)
Inductive Event : Type :=
| Exec (command : string)
| Log (line : string)
| SpinnerStart (text : string)
| SpinnerSucceed (text : string)
| SpinnerFail (text : string)
| SpinnerStop.

(** The commands started, in order. *)
Fixpoint dispatched (tr : list Event) : list string :=
  match tr with
  | [] => []
  | Exec c :: tr' => c :: dispatched tr'
  | _ :: tr' => dispatched tr'
  end.

(** The outcomes the sequential loop records, in order: [spinner.succeed]
    ([true]) or [spinner.fail] ([false]) with the line it marks. *)
Fixpoint outcomes (tr : list Event) : list (bool * string) :=
  match tr with
  | [] => []
  | SpinnerSucceed t :: tr' => (true, t) :: outcomes tr'
  | SpinnerFail t :: tr' => (false, t) :: outcomes tr'
  | _ :: tr' => outcomes tr'
  end.

(** What [Promise.allSettled] reports for one promise. *)
Inductive Settled : Type :=
| Fulfilled (stdout : string)
| RejectedWith (reason : string).

Definition is_rejected (r : Settled) : bool :=
  match r with
  | RejectedWith _ => true
  | Fulfilled _ => false
  end.

Definition newline : string := String (ascii_of_nat 10) EmptyString.

(** Processes that are started together run side by side.  For the
    commands started from a system: [outcome], how the process at an
    index ends; [finishing], the indices in the order in which the
    processes end; [leaves], the system once all of them have ended. *)
Record Together (World : Type) : Type := mkTogether {
  outcome : list string -> nat -> World -> ExecaResult;
  finishing : list string -> World -> list nat;
  leaves : list string -> World -> World
}.
Arguments outcome {World} t commands i w.
Arguments finishing {World} t commands w.
Arguments leaves {World} t commands w.

Section Executor.

(** The operating system the commands run in; the process layer, for a
    process that runs alone and for processes that run side by side; and
    the regular-expression engine. *)
Variable World : Type.
Variable execa : string -> World -> ExecaResult * World.
Variable together : Together World.
Variable regexp : RegExp.Engine.

(** The state of a run: the system, and what has been observed so far. *)
Record Run : Type := mkRun {
  world : World;
  trace : list Event
}.

Definition emit (e : Event) (r : Run) : Run :=
  mkRun (world r) (trace r ++ [e]).

(** [[
async executeCommand(command) {
  try {
    const result = await execa(command, { shell: true });
    if (result.stdout) { console.log(chalk.gray(result.stdout)); }
    return result;
  } catch (error) {
    throw new Error(error.stderr || error.message);
  }
}
]]
    The call of [execa] starts the process; what follows the [await] runs
    when the process has ended: [settle] is what the promise of
    [executeCommand] settles with, and [report] what is logged then. *)
Definition settle (result : ExecaResult) : completion string :=
  match result with
  | Exited stdout => Normal stdout
  | Rejected stderr error_message =>
      Throw (if String.eqb stderr "" then error_message else stderr)
  end.

Definition report (result : ExecaResult) (r : Run) : Run :=
  match result with
  | Exited stdout => if String.eqb stdout "" then r else emit (Log stdout) r
  | Rejected _ _ => r
  end.

(** [await this.executeCommand(command)]: the process runs alone. *)
Definition executeCommand (command : string) (r : Run) : completion string * Run :=
  let r := emit (Exec command) r in
  let (result, w) := execa command (world r) in
  (settle result, report result (mkRun w (trace r))).

(** [`[${i + 1}/${workflow.commands.length}] ${command}`] *)
Definition progress (i n : nat) (command : string) : string :=
  "[" ++ JsString.of_nat (i + 1) ++ "/" ++ JsString.of_nat n ++ "] " ++ command.

(** The sequential loop, from index [i] on, [commands] being the
    commands not yet reached and [n] the length of the whole list.  It
    ends with [Normal (Some result)] when the body returns from
    [execute], with [Normal None] and the [failed] flag when the loop runs
    to its end, and with [Throw] when [replaceVariables], which is called
    outside the [try], throws. *)
Fixpoint sequential_loop (continue_on_error : bool) (variables : JsObject.t)
    (n : nat) (commands : list string) (i : nat) (failed : bool) (r : Run)
  : completion (option Result) * bool * Run :=
  match commands with
  | [] => (Normal None, failed, r)
  | template :: rest =>
      match replaceVariables regexp template variables with
      | Throw error => (Throw error, failed, r)
      | Normal command =>
          let r := emit (SpinnerStart (progress i n command)) r in
          match executeCommand command r with
          | (Normal _, r) =>
              let r := emit (SpinnerSucceed (progress i n command)) r in
              sequential_loop continue_on_error variables n rest (S i) failed r
          | (Throw error, r) =>
              let r := emit (SpinnerFail (progress i n command)) r in
              let r := emit (Log ("  Error: " ++ error)) r in
              if negb continue_on_error then
                (Normal
                   (Some (mkResult false
                            ("Workflow failed at command " ++ JsString.of_nat (i + 1)))),
                 failed, r)
              else
                let r := emit (Log "  Continuing despite error...") r in
                sequential_loop continue_on_error variables n rest (S i) true r
          end
      end
  end.

(** The [else] branch of [execute]. *)
Definition execute_sequential (workflow : Database.Workflow) (variables : JsObject.t)
    (r : Run) : completion Result * Run :=
  let continue_on_error := Database.continue_on_error (Database.row workflow) in
  let commands := Database.commands workflow in
  match sequential_loop continue_on_error variables (List.length commands) commands 0 false r with
  | (Throw error, _, r) => (Throw error, r)
  | (Normal (Some result), _, r) => (Normal result, r)
  | (Normal None, failed, r) =>
      if failed && continue_on_error then
        (Normal (mkResult true "Workflow completed with errors"),
         emit (Log "⚠ Workflow completed with errors") r)
      else
        (Normal (mkResult true "Workflow completed successfully"),
         emit (Log "✓ Workflow completed successfully") r)
  end.

(** [workflow.commands.map((cmd) =>
      this.executeCommand(this.replaceVariables(cmd, variables)))]:
    each turn resolves its command and calls [executeCommand], which
    starts the process and hands back a promise; no process has ended
    when the [map] is over.  A [replaceVariables] that throws ends the
    [map]. *)
Fixpoint start_all (variables : JsObject.t) (commands : list string) (r : Run)
  : completion (list string) * Run :=
  match commands with
  | [] => (Normal [], r)
  | template :: rest =>
      match replaceVariables regexp template variables with
      | Throw error => (Throw error, r)
      | Normal command =>
          match start_all variables rest (emit (Exec command) r) with
          | (Normal started, r) => (Normal (command :: started), r)
          | (Throw error, r) => (Throw error, r)
          end
      end
  end.

(** What [Promise.allSettled] reports for the promise of
    [executeCommand]. *)
Definition settled (result : ExecaResult) : Settled :=
  match settle result with
  | Normal stdout => Fulfilled stdout
  | Throw reason => RejectedWith reason
  end.

(** [await Promise.allSettled(promises)]: the processes end one by one,
    each [executeCommand] reporting as its process ends; the results are
    in the order of the commands.  Without a process the system stays as
    it is. *)
Definition settle_all (started : list string) (r : Run) : list Settled * Run :=
  let w := world r in
  let n := List.length started in
  let ended := filter (fun i => Nat.ltb i n) (finishing together started w) in
  let r := fold_left (fun r i => report (outcome together started i w) r) ended r in
  (map (fun i => settled (outcome together started i w)) (seq 0 n),
   mkRun (match started with
          | [] => w
          | _ :: _ => leaves together started w
          end)
         (trace r)).

(** The [map] followed by the [await]. *)
Definition dispatch_all (variables : JsObject.t) (commands : list string) (r : Run)
  : completion (list Settled) * Run :=
  match start_all variables commands r with
  | (Normal started, r) =>
      let (results, r) := settle_all started r in
      (Normal results, r)
  | (Throw error, r) => (Throw error, r)
  end.

(** [failed.forEach((r, i) =>
      console.log(chalk.red(`  Command ${i + 1}: ${r.reason}`)))] *)
Fixpoint log_failed (failed : list Settled) (i : nat) (r : Run) : Run :=
  match failed with
  | [] => r
  | RejectedWith reason :: rest =>
      log_failed rest (S i)
        (emit (Log ("  Command " ++ JsString.of_nat (i + 1) ++ ": Error: " ++ reason)) r)
  | Fulfilled _ :: rest => log_failed rest (S i) r
  end.

(** The [if (workflow.parallel)] branch of [execute]:
[[
      spinner.start();
      try {
        const promises = workflow.commands.map(...);
        const results = await Promise.allSettled(promises);
        spinner.stop();
        const failed = results.filter(r => r.status === 'rejected');
        if (failed.length > 0) { ... return { success: false, ... }; }
        ...
        return { success: true, message: "Workflow completed successfully" };
      } catch (error) {
        spinner.stop();
        return { success: false, message: `Workflow failed: ${error.message}` };
      }
]] *)
Definition execute_parallel (workflow : Database.Workflow) (variables : JsObject.t)
    (r : Run) : Result * Run :=
  let commands := Database.commands workflow in
  let r := emit (SpinnerStart ("Running " ++ JsString.of_nat (List.length commands)
                                 ++ " commands in parallel...")) r in
  match dispatch_all variables commands r with
  | (Normal results, r) =>
      let r := emit SpinnerStop r in
      let failed := filter is_rejected results in
      if Nat.ltb 0 (List.length failed) then
        let r := emit (Log (JsString.of_nat (List.length failed) ++ " commands failed")) r in
        let r := log_failed failed 0 r in
        (mkResult false
           ("Workflow completed with " ++ JsString.of_nat (List.length failed) ++ " failures"),
         r)
      else
        (mkResult true "Workflow completed successfully",
         emit (Log ("✓ All " ++ JsString.of_nat (List.length commands)
                      ++ " commands completed successfully")) r)
  | (Throw error, r) =>
      (mkResult false ("Workflow failed: " ++ error), emit SpinnerStop r)
  end.

(** The part of [execute] that follows the fetch. *)
Definition execute_workflow (workflow : Database.Workflow) (vars : JsObject.t) (r : Run)
  : completion Result * Run :=
  let variables := JsObject.spread (Database.variables (Database.row workflow)) vars in
  if Database.parallel (Database.row workflow)
  then let (result, r) := execute_parallel workflow variables r in (Normal result, r)
  else execute_sequential workflow variables r.

(** [[
async execute(name, vars = {}) {
  await this.init();
  console.log(chalk.blue(`\nExecuting workflow: ${name}`));
  const workflow = await this.db.getWorkflow(name);
  if (!workflow) {
    return { success: false, message: `Workflow '${name}' not found` };
  }
  const variables = { ...workflow.variables, ...vars };
  ...
  if (workflow.parallel) { ... } else { ... }
}
]]
    [now] is the time of the fetch.  [execute] ends with [Throw] when an
    exception leaves it (its promise is rejected). *)
Definition execute (name : string) (vars : JsObject.t) (now : Database.Time)
    (db : Database.t) (r : Run) : completion Result * Database.t * Run :=
  let r := emit (Log (newline ++ "Executing workflow: " ++ name)) r in
  match Database.getWorkflow name now db with
  | (None, db) => (Normal (mkResult false ("Workflow '" ++ name ++ "' not found")), db, r)
  | (Some workflow, db) =>
      let (result, r) := execute_workflow workflow vars r in
      (result, db, r)
  end.

End Executor.

Arguments world {World} r.
Arguments trace {World} r.
Arguments mkRun {World} world trace.

(* ================================================================== *)
(** * JavaScript numbers that count milliseconds *)
(* ================================================================== *)

(** The numbers [parseDuration] computes are non-negative integers held in
    IEEE 754 doubles: every integer up to [2^53] is held exactly, a larger
    one is rounded to the nearest double (ties to the even significand),
    and what rounds to [2^1024] or more is [Infinity]. *)

Module JsNumber.

Inductive t : Type :=
| Finite (n : N)
| Infinity
| NaN.

Local Open Scope N_scope.

Definition max_exact : N := 2 ^ 53.

(** The double nearest to the integer [n]. *)
Definition of_N (n : N) : t :=
  if n <=? max_exact then Finite n
  else
    let e := N.log2 n - 52 in
    let q := n / 2 ^ e in
    let r := n mod 2 ^ e in
    let half := 2 ^ (e - 1) in
    let q' := if r <? half then q
              else if half <? r then q + 1
              else if N.even q then q else q + 1 in
    let m := q' * 2 ^ e in
    if 2 ^ 1024 <=? m then Infinity else Finite m.

(** [a * b] *)
Definition mul (a b : t) : t :=
  match a, b with
  | Finite x, Finite y => of_N (x * y)
  | Infinity, Finite y | Finite y, Infinity => if y =? 0 then NaN else Infinity
  | Infinity, Infinity => Infinity
  | NaN, _ | _, NaN => NaN
  end.

(** [parseInt(s)] for a string of decimal digits, as [parseDuration]
    calls it: the double nearest to the value of the numeral.  (Past 20
    significant digits the standard lets an engine round less exactly.) *)
Definition parseInt (s : string) : t := of_N (JsString.decimal s).

End JsNumber.

(* ================================================================== *)
(** * The debug-shell skill: [scheduleCleanup] and [parseDuration] *)
(* ================================================================== *)

(** [s] without its last character, and that character. *)
Fixpoint split_last (s : string) : option (string * ascii) :=
  match s with
  | EmptyString => None
  | String c s' =>
      match split_last s' with
      | None => Some (EmptyString, c)
      | Some (init, last) => Some (String c init, last)
      end
  end.

(** [const multipliers = { 's': 1000, 'm': 60000, 'h': 3600000 }] *)
Definition multipliers (unit : ascii) : option N :=
  if Ascii.eqb unit "s" then Some 1000%N
  else if Ascii.eqb unit "m" then Some 60000%N
  else if Ascii.eqb unit "h" then Some 3600000%N
  else None.

(** [duration.match(/^(\d+)([hms])$/)]: the groups [value] and [unit] when
    the whole string is one or more decimal digits followed by one of [h],
    [m], [s]. *)
Definition match_duration (duration : string) : option (string * ascii) :=
  match split_last duration with
  | Some (value, unit) =>
      match multipliers unit with
      | Some _ =>
          if negb (String.eqb value "") && JsString.all_digits value
          then Some (value, unit) else None
      | None => None
      end
  | None => None
  end.

(** [[
  parseDuration(duration) {
    const match = duration.match(/^(\d+)([hms])$/);
    if (!match) return 3600000; // Default 1 hour
    const [, value, unit] = match;
    const multipliers = { 's': 1000, 'm': 60000, 'h': 3600000 };
    return parseInt(value) * multipliers[unit];
  }
]] *)
Definition parseDuration (duration : string) : JsNumber.t :=
  match match_duration duration with
  | None => JsNumber.Finite 3600000
  | Some (value, unit) =>
      match multipliers unit with
      | Some m => JsNumber.mul (JsNumber.parseInt value) (JsNumber.Finite m)
      | None => JsNumber.NaN
      end
  end.

(** A pending timer: the delay in milliseconds after which it fires, the
    duration its callback announces as expired, and the service whose
    shell the callback then deletes. *)
Record Timer : Type := mkTimer {
  delay : N;
  expired : string;
  cleanup_of : string
}.

(** The longest delay of a timer in Node, [2^31 - 1]. *)
Definition TIMEOUT_MAX : N := 2147483647.

(** The delay [setTimeout(callback, ms)] gives its timer in Node: [ms]
    when it lies between 1 and [TIMEOUT_MAX], and 1 otherwise. *)
Definition timeout (ms : JsNumber.t) : N :=
  match ms with
  | JsNumber.Finite n => if ((1 <=? n) && (n <=? TIMEOUT_MAX))%N then n else 1%N
  | JsNumber.Infinity | JsNumber.NaN => 1%N
  end.

(** [[
  scheduleCleanup(service, duration) {
    const ms = this.parseDuration(duration);
    setTimeout(async () => {
      console.log(chalk.yellow(`\nAuto-cleanup: Session duration (${duration}) expired`));
      await this.deleteShell(service);
      console.log(chalk.green('✓ Shell session auto-cleaned'));
    }, ms);
  }
]] *)
Definition scheduleCleanup (service duration : string) (timers : list Timer) : list Timer :=
  let ms := parseDuration duration in
  timers ++ [mkTimer (timeout ms) duration service].

(* ================================================================== *)
(** * [WorkflowManager]: [get], [remove], [duplicate], [list] *)
(* ================================================================== *)

Module WorkflowManager.

(** What [get] returns: [{ success: false, message }] or
    [{ success: true, workflow }]. *)
Inductive GetResult : Type :=
| NotFound (message : string)
| Found (workflow : Database.Workflow).

(** [[
  async get(name) {
    await this.init();
    const workflow = await this.db.getWorkflow(name);
    if (!workflow) {
      return { success: false, message: `Workflow '${name}' not found` };
    }
    return { success: true, workflow: workflow };
  }
]] *)
Definition get (name : string) (now : Database.Time) (db : Database.t)
  : GetResult * Database.t :=
  match Database.getWorkflow name now db with
  | (None, db) => (NotFound ("Workflow '" ++ name ++ "' not found"), db)
  | (Some workflow, db) => (Found workflow, db)
  end.

(** [[
  async remove(name) {
    await this.init();
    try {
      const deleted = await this.db.deleteWorkflow(name);
      if (deleted) {
        return { success: true, message: `Workflow '${name}' removed` };
      } else {
        return { success: false, message: `Workflow '${name}' not found` };
      }
    } catch (error) { ... }
  }
]] *)
Definition remove (name : string) (db : Database.t) : Result * Database.t :=
  let (deleted, db) := Database.deleteWorkflow name db in
  if deleted
  then (mkResult true ("Workflow '" ++ name ++ "' removed"), db)
  else (mkResult false ("Workflow '" ++ name ++ "' not found"), db).

(** The [options] argument of [duplicate]: each field may be absent. *)
Record DuplicateOptions : Type := mkDuplicateOptions {
  dup_description : option string;
  dup_parallel : option bool;
  dup_continueOnError : option bool;
  dup_variables : option JsObject.t
}.

Definition no_duplicate_options : DuplicateOptions :=
  mkDuplicateOptions None None None None.

(** [[
  async duplicate(source, target, options = {}) {
    await this.init();
    const workflow = await this.db.getWorkflow(source);
    if (!workflow) {
      return { success: false, message: `Source workflow '${source}' not found` };
    }
    const newOptions = {
      description: options.description || workflow.description,
      parallel: options.parallel !== undefined ? options.parallel : workflow.parallel,
      continueOnError: options.continueOnError !== undefined
        ? options.continueOnError : workflow.continue_on_error,
      variables: options.variables || workflow.variables,
    };
    return await this.save(target, workflow.commands, newOptions);
  }
]]
    [now] is the time of the fetch, [later] the time of the save. *)
Definition duplicate (source target : string) (options : DuplicateOptions)
    (now later : Database.Time) (db : Database.t) : Result * Database.t :=
  match Database.getWorkflow source now db with
  | (None, db) => (mkResult false ("Source workflow '" ++ source ++ "' not found"), db)
  | (Some workflow, db) =>
      let w := Database.row workflow in
      let newOptions :=
        Database.mkOptions
          (match dup_description options with
           | Some d => if String.eqb d "" then Database.description w else d
           | None => Database.description w
           end)
          (match dup_parallel options with
           | Some p => p
           | None => Database.parallel w
           end)
          (match dup_continueOnError options with
           | Some c => c
           | None => Database.continue_on_error w
           end)
          (match dup_variables options with
           | Some vs => vs
           | None => Database.variables w
           end) in
      save target (CommandArray (map Some (Database.commands workflow))) newOptions later db
  end.

(** An entry of the list [list] returns. *)
Record Entry : Type := mkEntry {
  entry_name : string;
  entry_description : string;
  entry_commands : nat;
  entry_parallel : bool;
  entry_continueOnError : bool;
  entry_executionCount : nat;
  entry_lastExecuted : option Database.Time
}.

(** What [list] returns: [{ success: false, message }] or
    [{ success: true, workflows }]. *)
Inductive ListResult : Type :=
| NotListed (message : string)
| Listed (workflows : list Entry).

(** [[
  async list() {
    await this.init();
    try {
      const workflows = await this.db.listWorkflows();
      if (workflows.length === 0) {
        return { success: false, message: "No workflows found" };
      }
      return {
        success: true,
        workflows: workflows.map(w => ({
          name: w.name,
          description: w.description,
          commands: w.commandCount,
          parallel: w.parallel,
          continueOnError: w.continue_on_error,
          executionCount: w.execution_count,
          lastExecuted: w.last_executed,
        })),
      };
    } catch (error) { ... }
  }
]] *)
Definition list
    (order_by_updated_at : list Database.WorkflowRow -> list Database.WorkflowRow)
    (db : Database.t) : ListResult :=
  let workflows := Database.listWorkflows order_by_updated_at db in
  if Nat.eqb (List.length workflows) 0 then NotListed "No workflows found"
  else
    Listed
      (map (fun w =>
              mkEntry (Database.name (Database.listed w))
                (Database.description (Database.listed w))
                (Database.commandCount w)
                (Database.parallel (Database.listed w))
                (Database.continue_on_error (Database.listed w))
                (Database.execution_count (Database.listed w))
                (Database.last_executed (Database.listed w)))
           workflows).

End WorkflowManager.

(* ================================================================== *)
(** * [Database]: the [commands] table *)
(* ================================================================== *)

(** The saved commands live in a table of their own, which the workflow
    methods never touch; its methods touch no other table. *)

Module CommandTable.

Record CommandRow : Type := mkCommandRow {
  id : nat;
  name : string;
  command : string;
  description : string;
  tags : string;
  usage_count : nat;
  created_at : Database.Time;
  updated_at : Database.Time;
  last_used : option Database.Time
}.

(** The rows and the [AUTOINCREMENT] counter. *)
Record t : Type := mkTable {
  rows : list CommandRow;
  seq : nat
}.

Definition empty : t := mkTable [] 0.

(** [[
  async saveCommand(name, command, description = '', tags = '') {
    const result = await this.db.run(
      `INSERT OR REPLACE INTO commands (name, command, description, tags, updated_at)
       VALUES (?, ?, ?, ?, CURRENT_TIMESTAMP)`, [name, command, description, tags]);
    return result.lastID;
  }
]]
    A row of the same [name] is deleted first; the new row takes the next
    row id and the column defaults. *)
Definition saveCommand (nm cmd descr tgs : string) (now : Database.Time) (tb : t) : nat * t :=
  let kept := filter (fun r => negb (String.eqb (name r) nm)) (rows tb) in
  let new_id := S (seq tb) in
  (new_id,
   mkTable (kept ++ [mkCommandRow new_id nm cmd descr tgs 0 now now None]) new_id).

(** [[
  async getCommand(name) {
    const command = await this.db.get('SELECT * FROM commands WHERE name = ?', [name]);
    if (command) {
      // Update usage stats
      await this.db.run(`UPDATE commands
         SET usage_count = usage_count + 1, last_used = CURRENT_TIMESTAMP
         WHERE name = ?`, [name]);
    }
    return command;
  }
]] *)
Definition getCommand (nm : string) (now : Database.Time) (tb : t) : option CommandRow * t :=
  match find (fun r => String.eqb (name r) nm) (rows tb) with
  | Some r =>
      (Some r,
       mkTable (map (fun r =>
                       if String.eqb (name r) nm then
                         mkCommandRow (id r) (name r) (command r) (description r) (tags r)
                           (S (usage_count r)) (created_at r) (updated_at r) (Some now)
                       else r)
                    (rows tb))
               (seq tb))
  | None => (None, tb)
  end.

(** [[
  async deleteCommand(name) {
    const result = await this.db.run('DELETE FROM commands WHERE name = ?', [name]);
    return result.changes > 0;
  }
]] *)
Definition deleteCommand (nm : string) (tb : t) : bool * t :=
  let deleted := filter (fun r => String.eqb (name r) nm) (rows tb) in
  (Nat.ltb 0 (List.length deleted),
   mkTable (filter (fun r => negb (String.eqb (name r) nm)) (rows tb)) (seq tb)).

End CommandTable.

(* ================================================================== *)
(** * The command line: [--vars key=value] *)
(* ================================================================== *)

(** [s.split(sep)] for a separator of one character. *)
Fixpoint split_at (sep : ascii) (s : string) : list string :=
  match s with
  | EmptyString => [EmptyString]
  | String c s' =>
      if Ascii.eqb c sep then EmptyString :: split_at sep s'
      else
        match split_at sep s' with
        | first :: others => String c first :: others
        | [] => [String c EmptyString]
        end
  end.

(** The body of the [forEach] in [manageWorkflow] ([src/index.js]):
[[
          options.vars.forEach((v) => {
            const [key, value] = v.split("=");
            if (key && value) {
              variables[key] = value;
            }
          });
]] *)
Definition add_var (variables : JsObject.t) (v : string) : JsObject.t :=
  match split_at "=" v with
  | key :: value :: _ =>
      if negb (String.eqb key "") && negb (String.eqb value "")
      then JsObject.assign variables key value
      else variables
  | _ => variables
  end.

(** [const variables = {}; if (options.vars) { options.vars.forEach(...) }] *)
Definition collect_vars (vars : list string) : JsObject.t :=
  fold_left add_var vars [].

(* ================================================================== *)
(** * The debug-shell skill: options, annotations, sessions, ages *)
(* ================================================================== *)

Module KShell.

(** [String(z)] for an integer. *)
Definition of_Z (z : Z) : string := NilZero.string_of_int (Z.to_int z).

(** [[
  getAge(date) {
    const seconds = Math.floor((new Date() - date) / 1000);
    if (seconds < 60) return `${seconds}s`;
    const minutes = Math.floor(seconds / 60);
    if (minutes < 60) return `${minutes}m`;
    const hours = Math.floor(minutes / 60);
    if (hours < 24) return `${hours}h`;
    const days = Math.floor(hours / 24);
    return `${days}d`;
  }
]]
    [now] and [date] are the two times in milliseconds.  A date holds an
    integer of at most 8.64e15 in absolute value; on differences below
    [2^53] the division of doubles followed by [Math.floor] is the
    quotient of integers rounded down, which is [Z.div]. *)
Definition getAge (now date : Z) : string :=
  let seconds := ((now - date) / 1000)%Z in
  if (seconds <? 60)%Z then of_Z seconds ++ "s"
  else
    let minutes := (seconds / 60)%Z in
    if (minutes <? 60)%Z then of_Z minutes ++ "m"
    else
      let hours := (minutes / 60)%Z in
      if (hours <? 24)%Z then of_Z hours ++ "h"
      else
        let days := (hours / 24)%Z in
        of_Z days ++ "d".

(** What [getCurrentEnvironment] returns. *)
Record Environment : Type := mkEnvironment {
  context : string;
  namespace : string;
  isProd : bool;
  isBeta : bool;
  isDev : bool
}.

(** The [opts] object of [parseOptions]; [None] is [null] or
    [undefined]. *)
Record Options : Type := mkOptions {
  debug : bool;
  duration : option string;
  reason : option string;
  autoCleanup : bool;
  container : option string;
  record : bool;
  async : bool;
  verbose : bool;
  env : Environment
}.

(** The [opts] the function starts from. *)
Definition defaults (e : Environment) : Options :=
  mkOptions false None None true (Some "application") false false false e.

(** The loop of [parseOptions], from the current element on:
[[
    for (let i = 0; i < options.length; i++) {
      switch(options[i]) {
        case '--debug': case '-d':      opts.debug = true; break;
        case '--duration':              opts.duration = options[++i]; break;
        case '--reason': case '-r':     opts.reason = options[++i]; break;
        case '--no-cleanup':            opts.autoCleanup = false; break;
        case '--container': case '-c':  opts.container = options[++i]; break;
        case '--record':                opts.record = true; break;
        case '--async': case '-a':      opts.async = true; break;
        case '--verbose': case '-v':    opts.verbose = true; break;
      }
    }
]]
    [options[++i]] past the end is [undefined], and the loop ends. *)
Fixpoint parse_from (opts : Options) (options : list string) : Options :=
  match options with
  | [] => opts
  | o :: rest =>
      if String.eqb o "--debug" || String.eqb o "-d" then
        parse_from (mkOptions true (duration opts) (reason opts) (autoCleanup opts)
                      (container opts) (record opts) (async opts) (verbose opts) (env opts))
          rest
      else if String.eqb o "--duration" then
        match rest with
        | v :: rest' =>
            parse_from (mkOptions (debug opts) (Some v) (reason opts) (autoCleanup opts)
                          (container opts) (record opts) (async opts) (verbose opts)
                          (env opts))
              rest'
        | [] =>
            mkOptions (debug opts) None (reason opts) (autoCleanup opts)
              (container opts) (record opts) (async opts) (verbose opts) (env opts)
        end
      else if String.eqb o "--reason" || String.eqb o "-r" then
        match rest with
        | v :: rest' =>
            parse_from (mkOptions (debug opts) (duration opts) (Some v) (autoCleanup opts)
                          (container opts) (record opts) (async opts) (verbose opts)
                          (env opts))
              rest'
        | [] =>
            mkOptions (debug opts) (duration opts) None (autoCleanup opts)
              (container opts) (record opts) (async opts) (verbose opts) (env opts)
        end
      else if String.eqb o "--no-cleanup" then
        parse_from (mkOptions (debug opts) (duration opts) (reason opts) false
                      (container opts) (record opts) (async opts) (verbose opts) (env opts))
          rest
      else if String.eqb o "--container" || String.eqb o "-c" then
        match rest with
        | v :: rest' =>
            parse_from (mkOptions (debug opts) (duration opts) (reason opts)
                          (autoCleanup opts) (Some v) (record opts) (async opts)
                          (verbose opts) (env opts))
              rest'
        | [] =>
            mkOptions (debug opts) (duration opts) (reason opts) (autoCleanup opts)
              None (record opts) (async opts) (verbose opts) (env opts)
        end
      else if String.eqb o "--record" then
        parse_from (mkOptions (debug opts) (duration opts) (reason opts) (autoCleanup opts)
                      (container opts) true (async opts) (verbose opts) (env opts))
          rest
      else if String.eqb o "--async" || String.eqb o "-a" then
        parse_from (mkOptions (debug opts) (duration opts) (reason opts) (autoCleanup opts)
                      (container opts) (record opts) true (verbose opts) (env opts))
          rest
      else if String.eqb o "--verbose" || String.eqb o "-v" then
        parse_from (mkOptions (debug opts) (duration opts) (reason opts) (autoCleanup opts)
                      (container opts) (record opts) (async opts) true (env opts))
          rest
      else parse_from opts rest
  end.

(** [parseOptions(options)], [e] being what [getCurrentEnvironment]
    returns. *)
Definition parseOptions (e : Environment) (options : list string) : Options :=
  parse_from (defaults e) options.

(** [lines.join(sep)] *)
Fixpoint join (sep : string) (lines : list string) : string :=
  match lines with
  | [] => EmptyString
  | [line] => line
  | line :: rest => line ++ sep ++ join sep rest
  end.

(** [lines.findIndex(p)], [None] standing for -1. *)
Fixpoint findIndex (p : string -> bool) (lines : list string) : option nat :=
  match lines with
  | [] => None
  | line :: rest =>
      if p line then Some 0
      else match findIndex p rest with
           | Some i => Some (S i)
           | None => None
           end
  end.

Definition quote : string := String (ascii_of_nat 34) EmptyString.

(** [[
  addAnnotations(yaml, annotations) {
    const lines = yaml.split('\n');
    const metadataIndex = lines.findIndex(line => line.includes('metadata:'));
    if (metadataIndex !== -1) {
      const indent = '  ';
      const annotationLines = [`${indent}annotations:`];
      for (const [key, value] of Object.entries(annotations)) {
        annotationLines.push(`${indent}  ${key}: "${value}"`);
      }
      lines.splice(metadataIndex + 1, 0, ...annotationLines);
    }
    return lines.join('\n');
  }
]] *)
Definition annotationLines (annotations : JsObject.t) : list string :=
  "  annotations:"
  :: map (fun kv => "    " ++ fst kv ++ ": " ++ quote ++ snd kv ++ quote) annotations.

Definition addAnnotations (yaml : string) (annotations : JsObject.t) : string :=
  let lines := split_at (ascii_of_nat 10) yaml in
  match findIndex (fun line => JsString.includes "metadata:" line) lines with
  | Some metadataIndex =>
      join newline
        (firstn (metadataIndex + 1) lines
           ++ annotationLines annotations
           ++ skipn (metadataIndex + 1) lines)
  | None => join newline lines
  end.

(** The [info] object [createShellWithJustification] hands to
    [startSessionTracking]. *)
Record SessionInfo : Type := mkSessionInfo {
  info_jobName : string;
  info_podName : string;
  info_justification : string;
  info_startTime : Z;
  info_duration : option string;
  info_autoCleanup : bool;
  info_record : bool
}.

(** The [duration] property of a session: the [--duration] asked for,
    until [endSessionTracking] overwrites it with the time the session
    lasted. *)
Inductive SessionDuration : Type :=
| Requested (duration : option string)
| Lasted (milliseconds : Z).

(** A value of [sessionStore]: [{ ...info, commands: [], active: true }],
    to which [endSessionTracking] adds [endTime]. *)
Record Session : Type := mkSession {
  jobName : string;
  podName : string;
  justification : string;
  startTime : Z;
  session_duration : SessionDuration;
  session_autoCleanup : bool;
  session_record : bool;
  commands : list string;
  active : bool;
  endTime : option Z
}.

(** [sessionStore], a [Map]: its entries in insertion order. *)
Definition SessionStore : Type := list (string * Session).

(** [map.set(id, session)]: an existing key keeps its place. *)
Fixpoint store_set (store : SessionStore) (id : string) (s : Session) : SessionStore :=
  match store with
  | [] => [(id, s)]
  | (id', s') :: rest =>
      if String.eqb id' id then (id', s) :: rest else (id', s') :: store_set rest id s
  end.

(** [map.get(id)] *)
Fixpoint store_get (store : SessionStore) (id : string) : option Session :=
  match store with
  | [] => None
  | (id', s) :: rest => if String.eqb id' id then Some s else store_get rest id
  end.

(** [[
  startSessionTracking(service, info) {
    const sessionId = `${service}-${Date.now()}`;
    this.sessionStore.set(sessionId, { ...info, commands: [], active: true });
    return sessionId;
  }
]] *)
Definition startSessionTracking (service : string) (info : SessionInfo) (now : Z)
    (store : SessionStore) : string * SessionStore :=
  let sessionId := service ++ "-" ++ of_Z now in
  (sessionId,
   store_set store sessionId
     (mkSession (info_jobName info) (info_podName info) (info_justification info)
        (info_startTime info) (Requested (info_duration info)) (info_autoCleanup info)
        (info_record info) [] true None)).

(** [[
  endSessionTracking(service) {
    for (const [id, session] of this.sessionStore.entries()) {
      if (id.startsWith(service) && session.active) {
        session.active = false;
        session.endTime = new Date();
        session.duration = session.endTime - session.startTime;
      }
    }
  }
]]
    [clock k] is what the [k]-th reading of the clock gives; [reads]
    counts the readings made so far. *)
Fixpoint end_from (service : string) (clock : nat -> Z) (reads : nat) (store : SessionStore)
  : SessionStore :=
  match store with
  | [] => []
  | (id, session) :: rest =>
      if JsString.starts_with service id && active session then
        (id, mkSession (jobName session) (podName session) (justification session)
               (startTime session) (Lasted (clock reads - startTime session)%Z)
               (session_autoCleanup session) (session_record session)
               (commands session) false (Some (clock reads)))
        :: end_from service clock (S reads) rest
      else (id, session) :: end_from service clock reads rest
  end.

Definition endSessionTracking (service : string) (clock : nat -> Z) (store : SessionStore)
  : SessionStore :=
  end_from service clock 0 store.

End KShell.

(* ================================================================== *)
(** * [Config.compareVersions] *)
(* ================================================================== *)

Section Versions.

(** [Number(part)] is a double or [NaN].  The comparison needs only the
    order of the doubles, so they are kept abstract: [num] with [zero] and
    the order [lt], and [Number] giving [None] for [NaN]. *)
Variable num : Type.
Variable zero : num.
Variable lt : num -> num -> bool.
Variable Number : string -> option num.

(** [parts[i] || 0]: [undefined], [NaN] and 0 give 0. *)
Definition part_or_zero (parts : list (option num)) : num :=
  match parts with
  | Some x :: _ => x
  | _ => zero
  end.

(** The loop of [compareVersions], with as many turns as are left. *)
Fixpoint compare_parts (turns : nat) (parts1 parts2 : list (option num)) : Z :=
  match turns with
  | O => 0%Z
  | S turns' =>
      let part1 := part_or_zero parts1 in
      let part2 := part_or_zero parts2 in
      if lt part1 part2 then (-1)%Z
      else if lt part2 part1 then 1%Z
      else compare_parts turns' (tl parts1) (tl parts2)
  end.

(** [[
  compareVersions(v1, v2) {
    const parts1 = v1.split('.').map(Number);
    const parts2 = v2.split('.').map(Number);
    for (let i = 0; i < Math.max(parts1.length, parts2.length); i++) {
      const part1 = parts1[i] || 0;
      const part2 = parts2[i] || 0;
      if (part1 < part2) return -1;
      if (part1 > part2) return 1;
    }
    return 0;
  }
]] *)
Definition compareVersions (v1 v2 : string) : Z :=
  let parts1 := map Number (split_at "." v1) in
  let parts2 := map Number (split_at "." v2) in
  compare_parts (Nat.max (List.length parts1) (List.length parts2)) parts1 parts2.

End Versions.

(* ================================================================== *)
(** * Vocabulary of the properties *)
(* ================================================================== *)

(** The units of a duration and their lengths in milliseconds. *)
Definition unit_milliseconds (unit : ascii) (m : N) : Prop :=
  (unit = "s"%char /\ m = 1000%N)
  \/ (unit = "m"%char /\ m = 60000%N)
  \/ (unit = "h"%char /\ m = 3600000%N).

(** The claim of C10 as the specification words it, at one duration:
    the result is the value times the unit's length, whatever the value. *)
Definition parseDuration_is_exact (value : string) (unit : ascii) (m : N) : Prop :=
  parseDuration (value ++ String unit EmptyString)
  = JsNumber.Finite (JsString.decimal value * m).

(** Row ids come from the counters: no row carries an id above its
    table's counter, and a command row refers to a workflow id that has
    been handed out. *)
Definition ids_bounded (db : Database.t) : Prop :=
  Forall (fun w => Database.id w <= Database.workflows_seq db) (Database.workflows db)
  /\ Forall (fun c => Database.workflow_id c <= Database.workflows_seq db)
       (Database.workflow_commands db).

(** What a piece of a run adds to the trace it starts from. *)
Definition extends {World : Type} (r r' : Run World) (added : list Event) : Prop :=
  trace r' = (trace r ++ added)%list.

(** The substitution written with texts in place of regular
    expressions: for each entry in turn, every occurrence of [${key}] and
    then every occurrence of [$key] is replaced. *)
Definition substitute_key (result : string) (entry : string * string) : string :=
  let (key, value) := entry in
  let result := JsString.replace_all (braced key) value result in
  JsString.replace_all (bare key) value result.

Definition substitute (command : string) (variables : JsObject.t) : string :=
  fold_left substitute_key variables command.

(** The commands of a run, each resolved with the variables of the run,
    as long as [replaceVariables] does not throw. *)
Fixpoint resolve_all (E : RegExp.Engine) (variables : JsObject.t) (commands : list string)
  : completion (list string) :=
  match commands with
  | [] => Normal []
  | template :: rest =>
      match replaceVariables E template variables with
      | Normal command =>
          match resolve_all E variables rest with
          | Normal resolved => Normal (command :: resolved)
          | Throw error => Throw error
          end
      | Throw error => Throw error
      end
  end.

(** The process exits with status 0. *)
Definition exited (result : ExecaResult) : bool :=
  match result with
  | Exited _ => true
  | Rejected _ _ => false
  end.

(** The results of processes that run one after the other, each in the
    system the one before has left, and the system the last one leaves. *)
Fixpoint in_turn {World : Type} (execa : string -> World -> ExecaResult * World)
    (commands : list string) (w : World) : list ExecaResult * World :=
  match commands with
  | [] => ([], w)
  | command :: rest =>
      (fst (execa command w) :: fst (in_turn execa rest (snd (execa command w))),
       snd (in_turn execa rest (snd (execa command w))))
  end.

(** The results of processes that run side by side, in the order of the
    commands. *)
Definition results_together {World : Type} (together : Together World)
    (commands : list string) (w : World) : list ExecaResult :=
  map (fun i => outcome together commands i w) (seq 0 (List.length commands)).


(** The run reports a success. *)
Definition succeeded (result : completion Result) : bool :=
  match result with
  | Normal result => success result
  | Throw _ => false
  end.

(** The outcomes of the commands from index [i] on, given for each
    whether it succeeded: the spinner line of the command and its mark. *)
Fixpoint marks (n i : nat) (flags : list bool) (resolved : list string)
  : list (bool * string) :=
  match flags, resolved with
  | b :: flags', c :: resolved' => (b, progress i n c) :: marks n (S i) flags' resolved'
  | _, _ => []
  end.

(** A run that has observed nothing yet. *)
Definition fresh {World : Type} (w : World) : Run World := mkRun w [].

(** The run at the point where the parallel branch starts its commands:
    [execute] has announced the workflow and started the spinner. *)
Definition announced {World : Type} (name : string) (n : nat) (w : World) : Run World :=
  mkRun w [Log (newline ++ "Executing workflow: " ++ name);
           SpinnerStart ("Running " ++ JsString.of_nat n ++ " commands in parallel...")].

(** The variables of a run: the stored defaults overridden by the
    run-time variables. *)
Definition merged (workflow : Database.Workflow) (vars : JsObject.t) : JsObject.t :=
  JsObject.spread (Database.variables (Database.row workflow)) vars.

(** A process layer for the examples: the command [false] exits with
    status 1, every other command exits with status 0 and prints nothing;
    the system counts the processes it has run; processes that run side
    by side end as they would alone, in the order in which they were
    started.  The engine of the examples accepts no pattern beyond those
    the embedding interprets, and words its errors as V8 does. *)
Module Scenario.

Definition execa (command : string) (started : nat) : ExecaResult * nat :=
  if String.eqb command "false"
  then (Rejected "" "Command failed with exit code 1: false", S started)
  else (Exited "", S started).

Definition together : Together nat :=
  mkTogether nat
    (fun commands i started => fst (execa (nth i commands "") started))
    (fun commands _ => seq 0 (List.length commands))
    (fun commands started => started + List.length commands).

Definition regexp : RegExp.Engine :=
  RegExp.mkEngine
    (fun _ => false)
    (fun source => "Invalid regular expression: /" ++ source ++ "/: Unterminated group")
    (fun _ subject _ => subject).

Definition stored (name : string) (commands : list string) (options : Database.Options)
  : Database.t :=
  snd (save name (CommandArray (map Some commands)) options 1 Database.empty).

Definition stop_on_error : Database.Options := Database.mkOptions "" false false [].
Definition keep_going : Database.Options := Database.mkOptions "" false true [].
Definition side_by_side : Database.Options := Database.mkOptions "" true false [].

Definition run (db : Database.t) (name : string)
  : completion Result * Database.t * Run nat :=
  execute nat execa together regexp name [] 2 db (fresh 0).

End Scenario.

(** The claim of C2 as the specification words it, at one run: a
    sequential run that continues on error, with a command that fails and
    a command that succeeds, is not reported as a success. *)
Definition mixed_run_is_not_a_success (db : Database.t) (name : string) : Prop :=
  let '(result, _, r') := Scenario.run db name in
  (exists line, In (false, line) (outcomes (trace r'))) ->
  (exists line, In (true, line) (outcomes (trace r'))) ->
  succeeded result = false.


(** The claim of C5 as the specification words it, at one run: running
    the stored workflow fails and does not complete as a success. *)
Definition run_is_refused (db : Database.t) (name : string) : Prop :=
  succeeded (fst (fst (Scenario.run db name))) = false.

(** The row with one more execution, last executed at [now]. *)
Definition executed_once_more (now : Database.Time) (w : Database.WorkflowRow)
  : Database.WorkflowRow :=
  Database.mkWorkflowRow (Database.id w) (Database.name w) (Database.description w)
    (Database.parallel w) (Database.continue_on_error w) (Database.variables w)
    (S (Database.execution_count w)) (Database.created_at w) (Database.updated_at w)
    (Some now).


(** A replacement text without [$$], [$&], [$`] and [$']: it stands for
    itself. *)
Fixpoint plain (template : string) : bool :=
  match template with
  | EmptyString => true
  | String a t1 =>
      if Ascii.eqb a "$" then
        match t1 with
        | String b _ =>
            negb (Ascii.eqb b "$") && negb (Ascii.eqb b "&")
            && negb (Ascii.eqb b "`") && negb (Ascii.eqb b "'") && plain t1
        | EmptyString => true
        end
      else plain t1
  end.

Definition plain_values (variables : JsObject.t) : Prop :=
  Forall (fun kv => plain (snd kv) = true) variables.

Definition dollar_free (s : string) : Prop := JsString.mem "$" s = false.

(** The pattern does not match at the start of the block [P], whatever
    follows the block. *)
Definition guarded (pat P : string) : Prop :=
  forall rest, JsString.starts_with pat (P ++ rest) = false.

(** No pattern of [variables] matches at the start of the block
    [String "$" p], and the block has no other dollar sign. *)
Definition protected (p : string) (variables : JsObject.t) : Prop :=
  dollar_free p
  /\ forall key, In key (JsObject.keys variables) ->
       dollar_free key
       /\ guarded (braced key) (String "$" p)
       /\ guarded (bare key) (String "$" p).

(** The claim of C7 as the specification words it, at a template that is
    one bare placeholder: a name that is not a key is left as it is. *)
Definition bare_placeholder_is_kept (x : string) (variables : JsObject.t) : Prop :=
  JsObject.has variables x = false ->
  forall E, replaceVariables E (bare x) variables = Normal (bare x).

(** The claim of C8 as the specification words it, at a template that is
    one bare placeholder of a key: the value put in its place is the
    output, no other key being applied to it. *)
Definition value_is_not_reprocessed (key : string) (variables : JsObject.t) : Prop :=
  forall value,
    JsObject.get variables key = Some value ->
    plain value = true ->
    forall E, replaceVariables E (bare key) variables = Normal value.

(** The claim of C9 as the specification words it, at one string: when
    neither [${k}] nor [$k] occurs in it for any key [k] of the map, the
    string is returned as it is. *)
Definition returned_unchanged (s : string) (variables : JsObject.t) : Prop :=
  (forall key, In key (JsObject.keys variables) ->
               ~ JsString.occurs (braced key) s /\ ~ JsString.occurs (bare key) s) ->
  forall E, replaceVariables E s variables = Normal s.


(** The command rows carry distinct ids, none above the counter of their
    table. *)
Definition commands_numbered (db : Database.t) : Prop :=
  Forall (fun c => Database.command_id c <= Database.workflow_commands_seq db)
    (Database.workflow_commands db)
  /\ NoDup (map Database.command_id (Database.workflow_commands db)).

(** The store as the database keeps it: row ids within the counters, one
    row per id and per name ([PRIMARY KEY], [UNIQUE]), and every command
    row attached to a workflow row ([FOREIGN KEY]). *)
Definition well_formed (db : Database.t) : Prop :=
  ids_bounded db
  /\ NoDup (map Database.id (Database.workflows db))
  /\ NoDup (map Database.name (Database.workflows db))
  /\ (forall c, In c (Database.workflow_commands db) ->
        exists w, In w (Database.workflows db)
                  /\ Database.id w = Database.workflow_id c).

(** The row [saveWorkflow] writes. *)
Definition saved_row (wid : nat) (name : string) (options : Database.Options)
    (now : Database.Time) : Database.WorkflowRow :=
  Database.mkWorkflowRow wid name (Database.opt_description options)
    (Database.opt_parallel options) (Database.opt_continueOnError options)
    (Database.opt_variables options) 0 now now None.


(** The rows the loop of [saveWorkflow] inserts for [commands], from
    position [i] on, after command row id [cid]. *)
Fixpoint command_rows (wid : nat) (commands : list string) (i cid : nat)
  : list Database.CommandRow :=
  match commands with
  | [] => []
  | cmd :: rest => Database.mkCommandRow (S cid) wid cmd i :: command_rows wid rest (S i) (S cid)
  end.

(** The reasons of the rejected promises, in the order of the commands. *)
Definition reasons (results : list Settled) : list string :=
  flat_map (fun r => match r with
                     | RejectedWith reason => [reason]
                     | Fulfilled _ => []
                     end) results.

(** The lines that report failures, numbered from [i + 1] on. *)
Fixpoint failure_log (rs : list string) (i : nat) : list Event :=
  match rs with
  | [] => []
  | reason :: rest =>
      Log ("  Command " ++ JsString.of_nat (i + 1) ++ ": Error: " ++ reason)
      :: failure_log rest (S i)
  end.

(** The command row after one more use at [now]. *)
Definition used_once_more (now : Database.Time) (r : CommandTable.CommandRow)
  : CommandTable.CommandRow :=
  CommandTable.mkCommandRow (CommandTable.id r) (CommandTable.name r)
    (CommandTable.command r) (CommandTable.description r) (CommandTable.tags r)
    (S (CommandTable.usage_count r)) (CommandTable.created_at r)
    (CommandTable.updated_at r) (Some now).

(** The suffixes of an age and their lengths in seconds. *)
Definition age_units : list (string * Z) :=
  [("s", 1%Z); ("m", 60%Z); ("h", 3600%Z); ("d", 86400%Z)].

(** The options [parseOptions] acts on. *)
Definition recognised (o : string) : bool :=
  existsb (String.eqb o)
    ["--debug"; "-d"; "--duration"; "--reason"; "-r"; "--no-cleanup"; "--container"; "-c";
     "--record"; "--async"; "-a"; "--verbose"; "-v"].

(** The options that take the next argument as their value. *)
Definition takes_value (o : string) : bool :=
  existsb (String.eqb o) ["--duration"; "--reason"; "-r"; "--container"; "-c"].

(** No option of the list is left waiting for its value at the end. *)
Fixpoint complete (options : list string) : bool :=
  match options with
  | [] => true
  | o :: rest =>
      if takes_value o then
        match rest with
        | _ :: rest' => complete rest'
        | [] => false
        end
      else complete rest
  end.


(** No occurrence of [pat] starts within [a] when [a] is followed by
    [rest]. *)
Definition unmatched_before (pat a rest : string) : Prop :=
  forall a1 a2, a = a1 ++ a2 -> a2 <> "" -> JsString.starts_with pat (a2 ++ rest) = false.

(** The text of a placeholder. *)
Definition placeholder (p : Placeholder) (key : string) : string :=
  match p with
  | Braced => braced key
  | Bare => bare key
  end.

(** [error.stderr || error.message] *)
Definition reason_of (stderr error_message : string) : string :=
  if String.eqb stderr "" then error_message else stderr.
(* ================================================================== *)
(** * Properties *)
(* ================================================================== *)

(** ** Examples *)

Example substitutes_both_forms :
  replaceVariables Scenario.regexp "echo build:${env} $env" [("env", "staging")]
  = Normal "echo build:staging staging".
Proof. reflexivity. Qed.

Example substitutes_start_of_longer_name :
  replaceVariables Scenario.regexp "$ab ${ab}" [("a", "1")] = Normal "1b ${ab}".
Proof. reflexivity. Qed.

Example substitutes_inserted_text :
  replaceVariables Scenario.regexp "$a" [("a", "$b"); ("b", "X")] = Normal "X".
Proof. reflexivity. Qed.

Example expands_replacement_patterns :
  replaceVariables Scenario.regexp "x $a y" [("a", "[$`|$&|$'|$$|$1]")]
  = Normal "x [x |$a| y|$|$1] y".
Proof. reflexivity. Qed.

Example keeps_lone_dollar :
  replaceVariables Scenario.regexp "$a$a$" [("a", "$")] = Normal "$$$".
Proof. reflexivity. Qed.

Example dot_matches_any_character :
  replaceVariables Scenario.regexp "$aXb $a.b" [("a.b", "1")] = Normal "1 1".
Proof. reflexivity. Qed.

Example unclosed_group_is_refused :
  replaceVariables Scenario.regexp "echo hello" [("(", "x")]
  = Throw "Invalid regular expression: /\$\{(\}/: Unterminated group".
Proof. reflexivity. Qed.

Example spread_overrides_in_place :
  JsObject.spread [("env", "staging"); ("region", "eu")] [("env", "production"); ("tag", "v2")]
  = [("env", "production"); ("region", "eu"); ("tag", "v2")].
Proof. reflexivity. Qed.

Example spread_puts_array_indices_first :
  JsObject.spread [("b", "1"); ("a", "2")] [("10", "y"); ("2", "x"); ("007", "z")]
  = [("2", "x"); ("10", "y"); ("b", "1"); ("a", "2"); ("007", "z")].
Proof. reflexivity. Qed.

Example assignment_to_proto_is_ignored :
  collect_vars ["a=1"; "__proto__=x"; "b=2"] = [("a", "1"); ("b", "2")].
Proof. reflexivity. Qed.

Example two_hours : parseDuration "2h" = JsNumber.Finite 7200000.
Proof. reflexivity. Qed.

Example thirty_minutes : parseDuration "30m" = JsNumber.Finite 1800000.
Proof. reflexivity. Qed.

Example forty_five_seconds : parseDuration "45s" = JsNumber.Finite 45000.
Proof. reflexivity. Qed.

Example empty_duration : parseDuration "" = JsNumber.Finite 3600000.
Proof. reflexivity. Qed.

Example fractional_duration : parseDuration "1.5h" = JsNumber.Finite 3600000.
Proof. reflexivity. Qed.

(** ** Durations *)

Lemma split_last_snoc (s : string) (c : ascii) :
  split_last (s ++ String c EmptyString) = Some (s, c).
Proof.
  induction s as [|a s IH]; simpl.
  - reflexivity.
  - rewrite IH. reflexivity.
Qed.

Lemma split_last_inv (s init : string) (last : ascii) :
  split_last s = Some (init, last) -> s = init ++ String last EmptyString.
Proof.
  revert init last.
  induction s as [|a s IH]; simpl; intros init last H.
  - discriminate.
  - destruct (split_last s) as [[i l]|] eqn:E.
    + injection H as <- <-. simpl. f_equal. now apply IH.
    + injection H as <- <-. destruct s; [reflexivity|].
      simpl in E. destruct (split_last s) as [[? ?]|]; discriminate.
Qed.

Lemma match_duration_inv (duration value : string) (unit : ascii) :
  match_duration duration = Some (value, unit) ->
  duration = value ++ String unit EmptyString
  /\ value <> EmptyString
  /\ JsString.all_digits value = true
  /\ (unit = "h"%char \/ unit = "m"%char \/ unit = "s"%char).
Proof.
  unfold match_duration.
  destruct (split_last duration) as [[v u]|] eqn:E; [|discriminate].
  destruct (multipliers u) as [m|] eqn:M; [|discriminate].
  destruct (negb (String.eqb v "")) eqn:NE; simpl; [|discriminate].
  destruct (JsString.all_digits v) eqn:D; [|discriminate].
  intros H. injection H as <- <-.
  split; [now apply split_last_inv|].
  split; [intros ->; discriminate|].
  split; [exact D|].
  unfold multipliers in M.
  destruct (Ascii.eqb u "s") eqn:Es; [apply Ascii.eqb_eq in Es; auto|].
  destruct (Ascii.eqb u "m") eqn:Em; [apply Ascii.eqb_eq in Em; auto|].
  destruct (Ascii.eqb u "h") eqn:Eh; [apply Ascii.eqb_eq in Eh; auto|].
  discriminate.
Qed.

Lemma match_duration_snoc (value : string) (unit : ascii) (m : N) :
  value <> EmptyString ->
  JsString.all_digits value = true ->
  multipliers unit = Some m ->
  match_duration (value ++ String unit EmptyString) = Some (value, unit).
Proof.
  intros NE D M. unfold match_duration.
  rewrite split_last_snoc, M, D.
  destruct (String.eqb value "") eqn:E.
  - apply String.eqb_eq in E. contradiction.
  - reflexivity.
Qed.

Lemma of_N_exact (n : N) :
  (n <= JsNumber.max_exact)%N -> JsNumber.of_N n = JsNumber.Finite n.
Proof.
  intros H. unfold JsNumber.of_N.
  apply N.leb_le in H. now rewrite H.
Qed.

Lemma unit_milliseconds_multipliers (unit : ascii) (m : N) :
  unit_milliseconds unit m -> multipliers unit = Some m.
Proof.
  intros [[-> ->]|[[-> ->]|[-> ->]]]; reflexivity.
Qed.

(** C10, as stated, fails: the seconds count [2^53 + 1] is not a double;
    [parseInt] rounds it to [2^53], and the result is 1000 milliseconds
    short of the value times 1000. *)
Lemma parseDuration_rounds_large_values :
  unit_milliseconds "s" 1000
  /\ JsString.all_digits "9007199254740993" = true
  /\ parseDuration "9007199254740993s" = JsNumber.Finite 9007199254740992000
  /\ ~ parseDuration_is_exact "9007199254740993" "s" 1000.
Proof.
  split; [left; split; reflexivity|].
  split; [reflexivity|].
  split; [vm_compute; reflexivity|].
  unfold parseDuration_is_exact. vm_compute. discriminate.
Qed.

(** Beyond [2^53] a double is at least [2^53]. *)
Lemma of_N_large (n : N) :
  (JsNumber.max_exact < n)%N ->
  match JsNumber.of_N n with
  | JsNumber.Finite x => (JsNumber.max_exact <= x)%N
  | JsNumber.Infinity => True
  | JsNumber.NaN => False
  end.
Proof.
  unfold JsNumber.max_exact. intros H. unfold JsNumber.of_N, JsNumber.max_exact.
  destruct (N.leb_spec n (2 ^ 53)) as [Hle|_]; [lia|].
  set (e := (N.log2 n - 52)%N).
  assert (Hlog : (53 <= N.log2 n)%N).
  { rewrite <- (N.log2_pow2 53) by lia. apply N.log2_le_mono. lia. }
  assert (He : (N.log2 n = 52 + e)%N) by (unfold e; lia).
  assert (Hpow : (2 ^ 52 * 2 ^ e <= n)%N).
  { rewrite <- N.pow_add_r, <- He. apply N.log2_spec. lia. }
  assert (He1 : (2 <= 2 ^ e)%N).
  { change 2%N with (2 ^ 1)%N at 1. apply N.pow_le_mono_r; [lia|unfold e; lia]. }
  assert (Hq : (2 ^ 52 <= n / 2 ^ e)%N).
  { apply N.div_le_lower_bound; [lia|]. rewrite N.mul_comm. exact Hpow. }
  set (q := (n / 2 ^ e)%N) in *.
  set (q' := if (n mod 2 ^ e <? 2 ^ (e - 1))%N then q
             else if (2 ^ (e - 1) <? n mod 2 ^ e)%N then (q + 1)%N
                  else if N.even q then q else (q + 1)%N).
  assert (Hq' : (q <= q')%N).
  { unfold q'. destruct (_ <? _)%N; [lia|]. destruct (_ <? _)%N; [lia|].
    destruct (N.even q); lia. }
  destruct (2 ^ 1024 <=? q' * 2 ^ e)%N; [exact I|].
  change (2 ^ 53)%N with (2 ^ 52 * 2)%N. nia.
Qed.

(** A duration whose product is out of the range of a timer gets the
    delay 1. *)
Lemma timeout_out_of_range (v m : N) :
  (1 <= m)%N ->
  (v * m = 0 \/ TIMEOUT_MAX < v * m)%N ->
  timeout (JsNumber.mul (JsNumber.of_N v) (JsNumber.Finite m)) = 1%N.
Proof.
  intros Hm Hout.
  assert (Hbig : forall x, (TIMEOUT_MAX < x)%N -> timeout (JsNumber.of_N x) = 1%N).
  { intros x Hx. destruct (N.le_gt_cases x JsNumber.max_exact) as [Hle|Hgt].
    - rewrite (of_N_exact x Hle). unfold timeout.
      destruct (N.leb_spec x TIMEOUT_MAX) as [H|_]; [lia|]. now rewrite andb_false_r.
    - pose proof (of_N_large x Hgt) as H.
      destruct (JsNumber.of_N x) as [y| |]; [|reflexivity|reflexivity].
      unfold timeout. unfold JsNumber.max_exact, TIMEOUT_MAX in *.
      destruct (N.leb_spec y 2147483647) as [Hy|_]; [lia|]. now rewrite andb_false_r. }
  destruct (N.le_gt_cases v JsNumber.max_exact) as [Hv|Hv].
  - rewrite (of_N_exact v Hv). cbn [JsNumber.mul].
    destruct Hout as [H0|Hmax]; [|now apply Hbig].
    rewrite H0. reflexivity.
  - pose proof (of_N_large v Hv) as H.
    destruct (JsNumber.of_N v) as [y| |]; [| |contradiction].
    + cbn [JsNumber.mul]. apply Hbig.
      unfold JsNumber.max_exact, TIMEOUT_MAX in *. nia.
    + cbn [JsNumber.mul]. destruct (m =? 0)%N; reflexivity.
Qed.

(** C10 (amended): for a string made of one or more decimal digits
    followed by one of [s], [m], [h], [parseDuration] returns the product
    of the value and 1000, 60000 or 3600000 as the doubles compute it:
    exactly the product when that is at most [2^53]; for every string that
    is not of this form, the empty one included, it returns 3600000.
    [scheduleCleanup] sets one timer whatever the string is; its delay is
    the product when that lies between 1 and [2^31 - 1], and 1 when the
    product is 0 or above [2^31 - 1]; for a string that is not of the
    form it is 3600000. *)
Theorem parseDuration_and_cleanup (duration service : string) (timers : list Timer) :
  (forall value unit m,
      duration = value ++ String unit EmptyString ->
      value <> EmptyString ->
      JsString.all_digits value = true ->
      unit_milliseconds unit m ->
      parseDuration duration
      = JsNumber.mul (JsNumber.of_N (JsString.decimal value)) (JsNumber.Finite m)
      /\ ((JsString.decimal value * m <= 2 ^ 53)%N ->
          parseDuration duration = JsNumber.Finite (JsString.decimal value * m))
      /\ ((1 <= JsString.decimal value * m <= TIMEOUT_MAX)%N ->
          scheduleCleanup service duration timers
          = (timers ++ [mkTimer (JsString.decimal value * m) duration service])%list)
      /\ ((JsString.decimal value * m = 0 \/ TIMEOUT_MAX < JsString.decimal value * m)%N ->
          scheduleCleanup service duration timers
          = (timers ++ [mkTimer 1 duration service])%list))
  /\ ((forall value unit,
          duration = value ++ String unit EmptyString ->
          value <> EmptyString ->
          JsString.all_digits value = true ->
          ~ (unit = "h"%char \/ unit = "m"%char \/ unit = "s"%char)) ->
      parseDuration duration = JsNumber.Finite 3600000
      /\ scheduleCleanup service duration timers
         = (timers ++ [mkTimer 3600000 duration service])%list).
Proof.
  split.
  - intros value unit m -> NE D U.
    apply unit_milliseconds_multipliers in U.
    assert (Hm : (1 <= m)%N).
    { unfold multipliers in U.
      destruct (Ascii.eqb unit "s"); [injection U as <-; lia|].
      destruct (Ascii.eqb unit "m"); [injection U as <-; lia|].
      destruct (Ascii.eqb unit "h"); [injection U as <-; lia|discriminate]. }
    assert (Hp : parseDuration (value ++ String unit "")
                 = JsNumber.mul (JsNumber.of_N (JsString.decimal value)) (JsNumber.Finite m)).
    { unfold parseDuration. now rewrite (match_duration_snoc value unit m NE D U), U. }
    assert (Hexact : (JsString.decimal value * m <= 2 ^ 53)%N ->
                     parseDuration (value ++ String unit "")
                     = JsNumber.Finite (JsString.decimal value * m)).
    { intros B. rewrite Hp.
      assert (Hv : (JsString.decimal value <= JsNumber.max_exact)%N).
      { unfold JsNumber.max_exact. nia. }
      rewrite (of_N_exact _ Hv). cbn [JsNumber.mul]. now apply of_N_exact. }
    split; [exact Hp|]. split; [exact Hexact|]. split.
    + intros [Hlow Hhigh]. unfold scheduleCleanup. cbv zeta.
      rewrite Hexact by (unfold TIMEOUT_MAX in Hhigh; lia).
      unfold timeout.
      destruct (N.leb_spec 1 (JsString.decimal value * m)) as [_|H]; [|lia].
      destruct (N.leb_spec (JsString.decimal value * m) TIMEOUT_MAX) as [_|H]; [|lia].
      reflexivity.
    + intros Hout. unfold scheduleCleanup. cbv zeta.
      now rewrite Hp, (timeout_out_of_range _ m Hm Hout).
  - intros H.
    assert (Hp : parseDuration duration = JsNumber.Finite 3600000).
    { unfold parseDuration.
      destruct (match_duration duration) as [[value unit]|] eqn:E; [|reflexivity].
      apply match_duration_inv in E. destruct E as (E1 & E2 & E3 & E4).
      exfalso. exact (H value unit E1 E2 E3 E4). }
    split; [exact Hp|]. unfold scheduleCleanup. cbv zeta. now rewrite Hp.
Qed.

Lemma parseDuration_and_cleanup_witness :
  parseDuration "90m" = JsNumber.Finite 5400000
  /\ scheduleCleanup "api" "90m" [] = [mkTimer 5400000 "90m" "api"]
  /\ scheduleCleanup "api" "600h" [] = [mkTimer 1 "600h" "api"]
  /\ scheduleCleanup "api" "soon" [] = [mkTimer 3600000 "soon" "api"].
Proof.
  destruct (parseDuration_and_cleanup "90m" "api" []) as (H1 & _).
  destruct (parseDuration_and_cleanup "600h" "api" []) as (H2 & _).
  destruct (parseDuration_and_cleanup "soon" "api" []) as (_ & H3).
  destruct (H1 "90" "m"%char 60000%N eq_refl) as (_ & Ha & Hb & _);
    [discriminate|reflexivity|right; left; split; reflexivity|].
  destruct (H2 "600" "h"%char 3600000%N eq_refl) as (_ & _ & _ & Hc);
    [discriminate|reflexivity|right; right; split; reflexivity|].
  split; [apply Ha; vm_compute; discriminate|].
  split; [apply Hb; split; vm_compute; discriminate|].
  split; [apply Hc; right; vm_compute; reflexivity|].
  apply H3. intros value unit E _ _.
  assert (L : split_last "soon" = Some (value, unit)) by (rewrite E; apply split_last_snoc).
  vm_compute in L. injection L as <- <-.
  intros [H|[H|H]]; discriminate.
Defined.

(** ** The store *)

Lemma ids_bounded_empty : ids_bounded Database.empty.
Proof. split; constructor. Qed.

Lemma delete_commands_incl (wid : nat) (cs : list Database.CommandRow) :
  incl (Database.delete_commands wid cs) cs.
Proof. intros c H. apply filter_In in H. tauto. Qed.

Lemma delete_all_incl (ws : list Database.WorkflowRow) (cs : list Database.CommandRow) :
  incl (fold_left (fun cs w => Database.delete_commands (Database.id w) cs) ws cs) cs.
Proof.
  revert cs. induction ws as [|w ws IH]; intros cs; simpl.
  - apply incl_refl.
  - eapply incl_tran; [apply IH|apply delete_commands_incl].
Qed.

Lemma insert_commands_tables (wid : nat) (commands : list string) (i : nat) (db : Database.t) :
  Database.workflows (Database.insert_commands wid commands i db) = Database.workflows db
  /\ Database.workflows_seq (Database.insert_commands wid commands i db)
     = Database.workflows_seq db
  /\ Forall (fun c => Database.workflow_id c = wid \/ In c (Database.workflow_commands db))
       (Database.workflow_commands (Database.insert_commands wid commands i db)).
Proof.
  revert i db. induction commands as [|cmd rest IH]; intros i db; simpl.
  - repeat split. apply Forall_forall. auto.
  - destruct (IH (S i) (Database.insert_command wid cmd i db)) as (H1 & H2 & H3).
    repeat split; [exact H1|exact H2|].
    eapply Forall_impl; [|exact H3].
    intros c [H|H]; [now left|].
    simpl in H. apply in_app_or in H. destruct H as [H|[<-|[]]]; [now right|now left].
Qed.

(** The row id [INSERT OR REPLACE] reports is never 0, so the branch of
    [saveWorkflow] that looks the workflow up again is not taken. *)
Lemma saveWorkflow_eq (name : string) (commands : list string)
    (options : Database.Options) (now : Database.Time) (db : Database.t) :
  Database.saveWorkflow name commands options now db
  = (Normal (S (Database.workflows_seq db)),
     Database.insert_commands (S (Database.workflows_seq db)) commands 0
       (snd (Database.insert_or_replace_workflow name options now db))).
Proof. reflexivity. Qed.

Lemma ids_bounded_saveWorkflow (name : string) (commands : list string)
    (options : Database.Options) (now : Database.Time) (db : Database.t) :
  ids_bounded db -> ids_bounded (snd (Database.saveWorkflow name commands options now db)).
Proof.
  intros [Hw Hc]. rewrite saveWorkflow_eq. unfold snd at 1.
  split.
  - destruct (insert_commands_tables (S (Database.workflows_seq db)) commands 0
                (snd (Database.insert_or_replace_workflow name options now db)))
      as (-> & -> & _).
    simpl. apply Forall_app. split.
    + apply Forall_forall. intros w H. apply filter_In in H. destruct H as [H _].
      rewrite Forall_forall in Hw. specialize (Hw w H). lia.
    + constructor; [simpl; lia|constructor].
  - destruct (insert_commands_tables (S (Database.workflows_seq db)) commands 0
                (snd (Database.insert_or_replace_workflow name options now db)))
      as (_ & -> & H).
    simpl in *. eapply Forall_impl; [|exact H].
    intros c [->|Hin]; [lia|].
    apply delete_all_incl in Hin.
    rewrite Forall_forall in Hc. specialize (Hc c Hin). lia.
Qed.

Lemma ids_bounded_getWorkflow (name : string) (now : Database.Time) (db : Database.t) :
  ids_bounded db -> ids_bounded (snd (Database.getWorkflow name now db)).
Proof.
  intros [Hw Hc]. unfold Database.getWorkflow.
  destruct (Database.select_workflow name db) as [w|]; simpl; [|now split].
  split; [|exact Hc]. simpl.
  apply Forall_forall. intros w' H. apply in_map_iff in H.
  destruct H as (w0 & <- & H0).
  rewrite Forall_forall in Hw. specialize (Hw w0 H0).
  destruct (Nat.eqb (Database.id w0) (Database.id w)); simpl; lia.
Qed.

Lemma find_app_fresh {A : Type} (f : A -> bool) (l : list A) (x : A) :
  (forall y, In y l -> f y = false) -> f x = true -> find f (l ++ [x]) = Some x.
Proof.
  intros Hl Hx. induction l as [|y l IH]; simpl.
  - now rewrite Hx.
  - rewrite (Hl y (or_introl eq_refl)). apply IH. intros z Hz. apply Hl. now right.
Qed.

Lemma filter_nil_iff {A : Type} (f : A -> bool) (l : list A) :
  (forall x, In x l -> f x = false) -> filter f l = [].
Proof.
  intros H. induction l as [|x l IH]; simpl; [reflexivity|].
  rewrite (H x (or_introl eq_refl)). apply IH. intros y Hy. apply H. now right.
Qed.

(** Saving an empty command array stores a workflow that has no command. *)
Lemma saveWorkflow_no_commands (name : string) (options : Database.Options)
    (now later : Database.Time) (db : Database.t) :
  ids_bounded db ->
  exists wid db' w,
    Database.saveWorkflow name [] options now db = (Normal wid, db')
    /\ Database.getWorkflow name later db'
       = (Some (Database.mkWorkflow w []), Database.update_execution_stats wid later db')
    /\ Database.name w = name
    /\ Database.id w = wid
    /\ Database.parallel w = Database.opt_parallel options
    /\ Database.continue_on_error w = Database.opt_continueOnError options.
Proof.
  intros [Hw Hc].
  set (wid := S (Database.workflows_seq db)).
  set (w := Database.mkWorkflowRow wid name (Database.opt_description options)
              (Database.opt_parallel options) (Database.opt_continueOnError options)
              (Database.opt_variables options) 0 now now None).
  exists wid, (snd (Database.insert_or_replace_workflow name options now db)), w.
  split; [reflexivity|].
  split; [|repeat split].
  unfold Database.getWorkflow, Database.select_workflow. simpl.
  rewrite find_app_fresh with (x := w).
  - unfold Database.select_commands. simpl.
    rewrite filter_nil_iff; [reflexivity|].
    intros c Hin. apply delete_all_incl in Hin.
    rewrite Forall_forall in Hc. specialize (Hc c Hin).
    apply Nat.eqb_neq. unfold wid. lia.
  - intros y Hy. apply filter_In in Hy. destruct Hy as [_ Hy].
    now apply negb_true_iff in Hy.
  - simpl. apply String.eqb_refl.
Qed.

(** C4 (the code departs from the claim): [save] turns away a missing
    name and missing commands, but an empty array is not falsy; it is
    saved, [save] answers with success, and the workflow is then stored
    with no command at all. *)
Theorem save_stores_empty_workflow (name : string) (options : Database.Options)
    (now later : Database.Time) (db : Database.t) :
  ids_bounded db ->
  name <> EmptyString ->
  exists db' w,
    save name (CommandArray []) options now db
    = (mkResult true ("Workflow '" ++ name ++ "' saved with 0 commands"), db')
    /\ fst (Database.getWorkflow name later db') = Some (Database.mkWorkflow w [])
    /\ Database.name w = name.
Proof.
  intros Hdb Hname.
  destruct (saveWorkflow_no_commands name options now later db Hdb)
    as (wid & db' & w & Hs & Hg & Hn & _).
  exists db', w. unfold save.
  destruct (String.eqb name "") eqn:E; [apply String.eqb_eq in E; contradiction|].
  cbn [falsy_commands orb commandArray]. unfold Database.saveWorkflow_values.
  cbn [Database.texts]. rewrite Hs, Hg. auto.
Qed.

Lemma save_stores_empty_workflow_witness :
  exists db' w,
    save "nightly" (CommandArray []) Database.no_options 7 Database.empty
    = (mkResult true "Workflow 'nightly' saved with 0 commands", db')
    /\ fst (Database.getWorkflow "nightly" 8 db') = Some (Database.mkWorkflow w [])
    /\ Database.name w = "nightly".
Proof.
  apply (save_stores_empty_workflow "nightly" Database.no_options 7 8 Database.empty).
  - exact ids_bounded_empty.
  - discriminate.
Defined.

(** ** Strings *)

Lemma append_nil_r (s : string) : s ++ "" = s.
Proof. induction s as [|c s IH]; simpl; [reflexivity|now rewrite IH]. Qed.

Lemma append_assoc (a b c : string) : (a ++ b) ++ c = a ++ (b ++ c).
Proof. induction a as [|x a IH]; simpl; [reflexivity|now rewrite IH]. Qed.

Lemma starts_with_app (p s : string) : JsString.starts_with p (p ++ s) = true.
Proof.
  induction p as [|c p IH]; simpl; [reflexivity|].
  now rewrite Ascii.eqb_refl.
Qed.

Lemma starts_with_inv (p s : string) :
  JsString.starts_with p s = true -> exists rest, s = p ++ rest.
Proof.
  revert s. induction p as [|c p IH]; intros s H; simpl in *.
  - now exists s.
  - destruct s as [|d s]; [discriminate|].
    destruct (Ascii.eqb c d) eqn:E; [|discriminate].
    apply Ascii.eqb_eq in E. subst d.
    destruct (IH s H) as [rest ->]. now exists rest.
Qed.

Lemma drop_app (p s : string) : JsString.drop (length p) (p ++ s) = s.
Proof. induction p as [|c p IH]; simpl; [now destruct s|exact IH]. Qed.

Lemma occurs_here (p s : string) : JsString.occurs p (p ++ s).
Proof. now exists "", s. Qed.

Lemma occurs_later (p s : string) (c : ascii) :
  JsString.occurs p s -> JsString.occurs p (String c s).
Proof. intros (a & b & ->). now exists (String c a), b. Qed.

Lemma includes_complete (p s : string) :
  JsString.occurs p s -> JsString.includes p s = true.
Proof.
  intros (a & b & ->). induction a as [|c a IH].
  - change ("" ++ p ++ b) with (p ++ b).
    destruct (p ++ b) eqn:E; cbn [JsString.includes];
      rewrite <- E, starts_with_app; reflexivity.
  - change (String c a ++ p ++ b) with (String c (a ++ p ++ b)).
    cbn [JsString.includes]. rewrite IH. apply orb_true_r.
Qed.

(* ================================================================== *)

Section ReplaceFacts.

Variable template : string.

(** Passing over what is left of a match. *)
Lemma replace_from_skip (pat u : string) :
  forall before rest,
    JsString.replace_from pat template before (length u) (u ++ rest)
    = JsString.replace_from pat template (before ++ u) 0 rest.
Proof.
  induction u as [|c u IH]; intros before rest; simpl.
  - rewrite append_nil_r. now destruct rest.
  - rewrite IH, append_assoc. reflexivity.
Qed.

(** At a match: the expansion of the template, then the rest. *)
Lemma replace_from_match (pat before rest : string) :
  pat <> "" ->
  JsString.replace_from pat template before 0 (pat ++ rest)
  = JsString.get_substitution before pat rest template
    ++ JsString.replace_from pat template (before ++ pat) 0 rest.
Proof.
  intros Hpat. destruct pat as [|c p]; [contradiction|].
  pose proof (starts_with_app (String c p) rest) as Hs.
  pose proof (drop_app (String c p) rest) as Hd.
  pose proof (replace_from_skip (String c p) p (before ++ String c "") rest) as Hk.
  rewrite append_assoc in Hk.
  change (String c p ++ rest) with (String c (p ++ rest)) in *.
  cbn [JsString.replace_from]. rewrite Hs, Hd.
  replace (length (String c p) - 1) with (length p) by (simpl; lia).
  rewrite Hk. reflexivity.
Qed.

(** Where the pattern does not match, the character is kept. *)
Lemma replace_from_keep (pat before s : string) (c : ascii) :
  JsString.starts_with pat (String c s) = false ->
  JsString.replace_from pat template before 0 (String c s)
  = String c (JsString.replace_from pat template (before ++ String c "") 0 s).
Proof. intros H. cbn [JsString.replace_from]. now rewrite H. Qed.

(** A subject in which the pattern does not occur is returned as it
    is. *)
Lemma replace_from_absent (pat s : string) :
  ~ JsString.occurs pat s ->
  forall before, JsString.replace_from pat template before 0 s = s.
Proof.
  induction s as [|c s IH]; intros H before; [reflexivity|].
  rewrite replace_from_keep.
  - f_equal. apply IH. intros Ho. apply H. now apply occurs_later.
  - destruct (JsString.starts_with pat (String c s)) eqn:E; [|reflexivity].
    exfalso. apply H. apply starts_with_inv in E. destruct E as [rest ->].
    apply occurs_here.
Qed.

End ReplaceFacts.

(** ** Substitution *)

Lemma substitute_absent (s : string) (variables : JsObject.t) :
  (forall key, In key (JsObject.keys variables) ->
               ~ JsString.occurs (braced key) s /\ ~ JsString.occurs (bare key) s) ->
  substitute s variables = s.
Proof.
  unfold substitute.
  induction variables as [|[key value] rest IH]; intros H; simpl; [reflexivity|].
  destruct (H key (or_introl eq_refl)) as [Hb Hp].
  unfold JsString.replace_all.
  rewrite (replace_from_absent _ _ _ Hb), (replace_from_absent _ _ _ Hp).
  apply IH. intros k Hk. apply H. now right.
Qed.

(** ** One pass of [replace] *)

Lemma get_substitution_plain (before matched after template : string) :
  plain template = true ->
  JsString.get_substitution before matched after template = template.
Proof.
  induction template as [|a t1 IH]; intros H; [reflexivity|].
  cbn [plain] in H. cbn [JsString.get_substitution].
  destruct (Ascii.eqb a "$") eqn:Ea.
  - apply Ascii.eqb_eq in Ea. subst a.
    destruct t1 as [|b t2]; [reflexivity|].
    destruct (Ascii.eqb b "$"); [discriminate|].
    destruct (Ascii.eqb b "&"); [discriminate|].
    destruct (Ascii.eqb b "`"); [discriminate|].
    destruct (Ascii.eqb b "'"); [discriminate|].
    simpl in H. now rewrite (IH H).
  - now rewrite (IH H).
Qed.

Lemma replace_from_plain (pat template : string) :
  plain template = true ->
  forall s before before' skip,
    JsString.replace_from pat template before skip s
    = JsString.replace_from pat template before' skip s.
Proof.
  intros Hp. induction s as [|c s IH]; intros before before' skip; [reflexivity|].
  cbn [JsString.replace_from]. destruct skip as [|k].
  - rewrite !(get_substitution_plain _ _ _ _ Hp).
    rewrite (IH _ (before' ++ String c "") (length pat - 1)).
    rewrite (IH _ (before' ++ String c "") 0). reflexivity.
  - apply IH.
Qed.

Lemma dollar_free_app (a b : string) :
  dollar_free (a ++ b) <-> dollar_free a /\ dollar_free b.
Proof.
  unfold dollar_free. induction a as [|c a IH]; simpl.
  - tauto.
  - destruct (Ascii.eqb c "$"); simpl; [|exact IH].
    split; [discriminate|intros [H _]; discriminate].
Qed.

Section DollarPatterns.

(** The two patterns of a key are a dollar sign followed by text
    without one. *)
Variables t template : string.
Hypothesis t_dollar_free : dollar_free t.

Local Abbreviation pat := (String "$" t).

(** Text without a dollar sign is copied. *)
Lemma replace_from_copies (u : string) :
  dollar_free u ->
  forall before rest,
    JsString.replace_from pat template before 0 (u ++ rest)
    = u ++ JsString.replace_from pat template (before ++ u) 0 rest.
Proof.
  unfold dollar_free.
  induction u as [|c u IH]; intros Hu before rest.
  - simpl. now rewrite append_nil_r.
  - simpl in Hu. apply orb_false_iff in Hu. destruct Hu as [Hc Hu].
    change (String c u ++ rest) with (String c (u ++ rest)).
    rewrite replace_from_keep.
    + rewrite (IH Hu), append_assoc. reflexivity.
    + cbn [JsString.starts_with].
      rewrite Ascii.eqb_sym, Hc. reflexivity.
Qed.

(** A match never runs over a dollar sign that follows. *)
Lemma match_ends_before_dollar :
  forall u a r,
    dollar_free u ->
    JsString.starts_with u (a ++ String "$" r) = true ->
    exists a', a = u ++ a'.
Proof.
  unfold dollar_free.
  induction u as [|x u IH]; intros a r Hu H.
  - now exists a.
  - simpl in Hu. apply orb_false_iff in Hu. destruct Hu as [Hx Hu].
    destruct a as [|y a]; simpl in H.
    + now rewrite Hx in H.
    + destruct (Ascii.eqb x y) eqn:E; [|discriminate].
      apply Ascii.eqb_eq in E. subst y.
      destruct (IH a r Hu H) as [a' ->]. now exists a'.
Qed.

(** A block that starts with a dollar sign, has no other, and at which
    the pattern does not match is kept by the pass; what precedes it and
    what follows it are processed on their own when the replacement text
    is plain. *)
Lemma pass_keeps_block (p : string) :
  dollar_free p ->
  guarded pat (String "$" p) ->
  forall n a before b,
    length a <= n ->
    exists a',
      JsString.replace_from pat template before 0 (a ++ String "$" p ++ b)
      = a' ++ String "$" p
           ++ JsString.replace_from pat template (before ++ a ++ String "$" p) 0 b
      /\ (plain template = true ->
          a' = JsString.replace_from pat template before 0 a).
Proof.
  intros Hp Hg. induction n as [|n IH]; intros a before b Hn.
  - destruct a as [|c a]; [|simpl in Hn; lia].
    exists "". split; [|reflexivity].
    change ("" ++ String "$" p ++ b) with (String "$" (p ++ b)).
    pose proof (Hg b) as Hb.
    change (String "$" p ++ b) with (String "$" (p ++ b)) in Hb.
    rewrite (replace_from_keep template pat before (p ++ b) "$" Hb).
    rewrite (replace_from_copies p Hp), !append_assoc. reflexivity.
  - destruct a as [|c a]; [apply (IH "" before b); simpl; lia|].
    simpl in Hn.
    destruct (JsString.starts_with pat (String c a ++ String "$" p ++ b)) eqn:E.
    + (* a match starts here; it lies within [a] *)
      change (String c a ++ String "$" p ++ b)
        with (String c (a ++ String "$" (p ++ b))) in E.
      cbn [JsString.starts_with] in E.
      destruct (Ascii.eqb "$" c) eqn:Ec; [|discriminate].
      apply Ascii.eqb_eq in Ec. subst c.
      destruct (match_ends_before_dollar t a (p ++ b) t_dollar_free E) as [a' ->].
      assert (Hlen : length a' <= n).
      { clear -Hn. revert Hn. induction t as [|x u IHu]; simpl; [lia|].
        intros H. apply IHu. lia. }
      destruct (IH a' (before ++ pat) b Hlen) as (r & Hr & Hplain).
      exists (JsString.get_substitution before pat (a' ++ String "$" p ++ b) template ++ r).
      split.
      * change (String "$" (t ++ a')) with (pat ++ a').
        rewrite !append_assoc.
        rewrite replace_from_match by discriminate.
        rewrite Hr, !append_assoc. reflexivity.
      * intros Hpl. change (String "$" (t ++ a')) with (pat ++ a').
        rewrite replace_from_match by discriminate.
        rewrite !(get_substitution_plain _ _ _ _ Hpl), (Hplain Hpl). reflexivity.
    + (* no match here: the character is kept *)
      assert (Hlen : length a <= n) by lia.
      destruct (IH a (before ++ String c "") b Hlen) as (r & Hr & Hplain).
      exists (String c r). split.
      * change (String c a ++ String "$" p ++ b)
          with (String c (a ++ String "$" p ++ b)) in E |- *.
        rewrite (replace_from_keep template pat before _ c E), Hr.
        rewrite !append_assoc. reflexivity.
      * intros Hpl. rewrite replace_from_keep.
        -- now rewrite (Hplain Hpl).
        -- destruct (JsString.starts_with pat (String c a)) eqn:E'; [|reflexivity].
           apply starts_with_inv in E'. destruct E' as [rest E'].
           rewrite E', append_assoc, starts_with_app in E. discriminate.
Qed.

End DollarPatterns.

(** ** Blocks that no key matches *)

Lemma braced_tail_dollar_free (key : string) :
  dollar_free key -> dollar_free ("{" ++ key ++ "}").
Proof.
  intros H. change ("{" ++ key ++ "}") with (String "{" (key ++ "}")).
  unfold dollar_free in *. cbn [JsString.mem].
  change (Ascii.eqb "{" "$") with false. cbn [orb].
  apply (proj2 (dollar_free_app key "}")). split; [exact H|reflexivity].
Qed.

Lemma pass_is_identity (t template p a b before : string) :
  dollar_free t -> dollar_free p -> dollar_free a -> dollar_free b ->
  guarded (String "$" t) (String "$" p) ->
  JsString.replace_from (String "$" t) template before 0 (a ++ String "$" p ++ b)
  = a ++ String "$" p ++ b.
Proof.
  intros Ht Hp Ha Hb Hg.
  rewrite (replace_from_copies t template a Ha).
  pose proof (Hg b) as Hgb.
  change (String "$" p ++ b) with (String "$" (p ++ b)) in *.
  rewrite (replace_from_keep template _ _ _ _ Hgb).
  rewrite (replace_from_copies t template p Hp).
  rewrite <- (append_nil_r b) at 1.
  rewrite (replace_from_copies t template b Hb). simpl.
  now rewrite append_nil_r.
Qed.

Lemma substitute_key_keeps_block (key value p a b : string) :
  dollar_free key -> dollar_free p ->
  guarded (braced key) (String "$" p) ->
  guarded (bare key) (String "$" p) ->
  exists a' b',
    substitute_key (a ++ String "$" p ++ b) (key, value) = a' ++ String "$" p ++ b'
    /\ (plain value = true ->
        a' = substitute_key a (key, value) /\ b' = substitute_key b (key, value)).
Proof.
  intros Hk Hp Hgb Hgp.
  unfold substitute_key, JsString.replace_all.
  change (braced key) with (String "$" ("{" ++ key ++ "}")) in *.
  change (bare key) with (String "$" key) in *.
  destruct (pass_keeps_block _ value (braced_tail_dollar_free key Hk) p Hp Hgb
              (length a) a "" b (le_n _)) as (a1 & H1 & P1).
  rewrite H1.
  set (b1 := JsString.replace_from (String "$" ("{" ++ key ++ "}")) value
               ("" ++ a ++ String "$" p) 0 b) in *.
  destruct (pass_keeps_block _ value Hk p Hp Hgp (length a1) a1 "" b1 (le_n _))
    as (a2 & H2 & P2).
  rewrite H2.
  eexists. eexists. split; [reflexivity|].
  intros Hpl. rewrite (P2 Hpl), (P1 Hpl). split; [reflexivity|].
  rewrite (replace_from_plain _ value Hpl b1 _ "" 0). unfold b1.
  rewrite (replace_from_plain _ value Hpl b _ "" 0). reflexivity.
Qed.

Lemma substitute_key_is_identity (key value p a b : string) :
  dollar_free key -> dollar_free p -> dollar_free a -> dollar_free b ->
  guarded (braced key) (String "$" p) ->
  guarded (bare key) (String "$" p) ->
  substitute_key (a ++ String "$" p ++ b) (key, value) = a ++ String "$" p ++ b.
Proof.
  intros Hk Hp Ha Hb Hgb Hgp.
  unfold substitute_key, JsString.replace_all.
  change (braced key) with (String "$" ("{" ++ key ++ "}")) in *.
  change (bare key) with (String "$" key) in *.
  rewrite (pass_is_identity _ value p a b "" (braced_tail_dollar_free key Hk) Hp Ha Hb Hgb).
  exact (pass_is_identity _ value p a b "" Hk Hp Ha Hb Hgp).
Qed.

(** A protected block is kept by the whole substitution. *)
Lemma substitute_keeps_block (p : string) (variables : JsObject.t) :
  protected p variables ->
  forall a b,
    (exists a' b', substitute (a ++ String "$" p ++ b) variables
                   = a' ++ String "$" p ++ b')
    /\ (plain_values variables ->
        substitute (a ++ String "$" p ++ b) variables
        = substitute a variables ++ String "$" p ++ substitute b variables)
    /\ (dollar_free a -> dollar_free b ->
        substitute (a ++ String "$" p ++ b) variables = a ++ String "$" p ++ b).
Proof.
  unfold substitute.
  induction variables as [|[key value] rest IH]; intros [Hp Hkeys] a b.
  - simpl. split; [now exists a, b|]. split; reflexivity.
  - destruct (Hkeys key (or_introl eq_refl)) as (Hk & Hgb & Hgp).
    assert (Hrest : protected p rest).
    { split; [exact Hp|]. intros k Hin. apply Hkeys. now right. }
    destruct (substitute_key_keeps_block key value p a b Hk Hp Hgb Hgp)
      as (a1 & b1 & H1 & P1).
    cbn [fold_left]. split; [|split].
    + rewrite H1. exact (proj1 (IH Hrest a1 b1)).
    + intros Hpl. inversion Hpl as [|? ? Hv Hvs]; subst. simpl in Hv.
      destruct (P1 Hv) as [-> ->].
      rewrite H1. exact (proj1 (proj2 (IH Hrest _ _)) Hvs).
    + intros Ha Hb.
      rewrite (substitute_key_is_identity key value p a b Hk Hp Ha Hb Hgb Hgp).
      exact (proj2 (proj2 (IH Hrest a b)) Ha Hb).
Qed.

(** ** Placeholders *)

Lemma literal_key_mem (key : string) (c : ascii) :
  literal_key key = true -> syntax_character c = true -> JsString.mem c key = false.
Proof.
  intros Hk Hc. induction key as [|d key IH]; [reflexivity|].
  cbn [literal_key] in Hk. apply andb_true_iff in Hk. destruct Hk as [Hd Hk].
  cbn [JsString.mem]. rewrite (IH Hk), orb_false_r.
  destruct (Ascii.eqb d c) eqn:E; [|reflexivity].
  apply Ascii.eqb_eq in E. subst d. rewrite Hc in Hd. discriminate.
Qed.

Lemma literal_key_dollar_free (key : string) :
  literal_key key = true -> dollar_free key.
Proof. intros H. now apply literal_key_mem. Qed.

Lemma literal_key_head (c : ascii) (key : string) (d : ascii) :
  literal_key (String c key) = true -> syntax_character d = true -> Ascii.eqb d c = false.
Proof.
  intros Hk Hd. cbn [literal_key] in Hk. apply andb_true_iff in Hk. destruct Hk as [Hc _].
  destruct (Ascii.eqb d c) eqn:E; [|reflexivity].
  apply Ascii.eqb_eq in E. subst d. rewrite Hd in Hc. discriminate.
Qed.

(** Two names closed by a brace: one starts the other only if they are
    the same name. *)
Lemma closed_names_agree (k x rest : string) :
  JsString.mem "}" k = false -> JsString.mem "}" x = false ->
  JsString.starts_with (k ++ "}") (x ++ "}" ++ rest) = true -> k = x.
Proof.
  revert x. induction k as [|c k IH]; intros x Hk Hx H.
  - destruct x as [|d x]; [reflexivity|].
    cbn [JsString.mem] in Hx. apply orb_false_iff in Hx. destruct Hx as [Hd _].
    change ("" ++ "}") with (String "}" "") in H.
    change (String d x ++ "}" ++ rest) with (String d (x ++ "}" ++ rest)) in H.
    cbn [JsString.starts_with] in H.
    rewrite Ascii.eqb_sym, Hd in H. discriminate.
  - cbn [JsString.mem] in Hk. apply orb_false_iff in Hk. destruct Hk as [Hc Hk].
    destruct x as [|d x].
    + change (String c k ++ "}") with (String c (k ++ "}")) in H.
      change ("" ++ "}" ++ rest) with (String "}" rest) in H.
      cbn [JsString.starts_with] in H. rewrite Hc in H. discriminate.
    + cbn [JsString.mem] in Hx. apply orb_false_iff in Hx. destruct Hx as [_ Hx].
      change (String c k ++ "}") with (String c (k ++ "}")) in H.
      change (String d x ++ "}" ++ rest) with (String d (x ++ "}" ++ rest)) in H.
      cbn [JsString.starts_with] in H.
      destruct (Ascii.eqb c d) eqn:E; [|discriminate].
      apply Ascii.eqb_eq in E. subst d. f_equal. now apply IH.
Qed.

(** A key that matches at a name starts the name or is started by it. *)
Lemma starts_with_comparable (k x rest : string) :
  JsString.starts_with k (x ++ rest) = true ->
  JsString.starts_with k x = true \/ JsString.starts_with x k = true.
Proof.
  revert x. induction k as [|c k IH]; intros x H; [now left|].
  destruct x as [|d x]; [now right|].
  change (String d x ++ rest) with (String d (x ++ rest)) in H.
  cbn [JsString.starts_with] in *.
  rewrite (Ascii.eqb_sym d c).
  destruct (Ascii.eqb c d); [now apply IH|discriminate].
Qed.

(** [${x}] is protected when [x] is a name and every key is a non-empty
    name other than [x]. *)
Lemma braced_placeholder_protected (x : string) (variables : JsObject.t) :
  literal_keys variables ->
  literal_key x = true ->
  (forall key, In key (JsObject.keys variables) -> key <> "" /\ key <> x) ->
  protected ("{" ++ x ++ "}") variables.
Proof.
  intros Hlit Hx Hkeys. split.
  - apply braced_tail_dollar_free. now apply literal_key_dollar_free.
  - intros key Hin.
    assert (Hk : literal_key key = true).
    { unfold literal_keys in Hlit. rewrite Forall_forall in Hlit. now apply Hlit. }
    destruct (Hkeys key Hin) as [Hne Hnx].
    split; [now apply literal_key_dollar_free|]. split.
    + intros rest.
      change (braced key) with (String "$" (String "{" (key ++ "}"))).
      change (String "$" ("{" ++ x ++ "}") ++ rest)
        with (String "$" (String "{" ((x ++ "}") ++ rest))).
      rewrite append_assoc.
      cbn [JsString.starts_with]. rewrite !Ascii.eqb_refl.
      destruct (JsString.starts_with (key ++ "}") (x ++ "}" ++ rest)) eqn:E; [|reflexivity].
      exfalso. apply Hnx.
      apply (closed_names_agree key x rest); [| |exact E];
        now apply literal_key_mem.
    + intros rest. destruct key as [|c key]; [contradiction|].
      change (bare (String c key)) with (String "$" (String c key)).
      change (String "$" ("{" ++ x ++ "}") ++ rest)
        with (String "$" (String "{" ((x ++ "}") ++ rest))).
      cbn [JsString.starts_with]. rewrite Ascii.eqb_refl.
      rewrite Ascii.eqb_sym, (literal_key_head c key "{" Hk eq_refl). reflexivity.
Qed.

(** [$x] is protected when [x] is a name and no key starts [x] or is
    started by it. *)
Lemma bare_placeholder_protected (x : string) (variables : JsObject.t) :
  literal_keys variables ->
  literal_key x = true ->
  (forall key, In key (JsObject.keys variables) ->
               JsString.starts_with key x = false /\ JsString.starts_with x key = false) ->
  protected x variables.
Proof.
  intros Hlit Hx Hkeys. split; [now apply literal_key_dollar_free|].
  intros key Hin.
  assert (Hk : literal_key key = true).
  { unfold literal_keys in Hlit. rewrite Forall_forall in Hlit. now apply Hlit. }
  destruct (Hkeys key Hin) as [Hkx Hxk].
  split; [now apply literal_key_dollar_free|]. split.
  - intros rest. destruct x as [|d x]; [destruct key; discriminate|].
    change (braced key) with (String "$" (String "{" (key ++ "}"))).
    change (String "$" (String d x) ++ rest) with (String "$" (String d (x ++ rest))).
    cbn [JsString.starts_with]. rewrite Ascii.eqb_refl.
    rewrite (literal_key_head d x "{" Hx eq_refl). reflexivity.
  - intros rest.
    change (bare key) with (String "$" key).
    change (String "$" x ++ rest) with (String "$" (x ++ rest)).
    cbn [JsString.starts_with]. rewrite Ascii.eqb_refl.
    destruct (JsString.starts_with key (x ++ rest)) eqn:E; [|reflexivity].
    apply starts_with_comparable in E. destruct E as [E|E]; congruence.
Qed.


(** ** The patterns of names *)

Lemma matches_text (pat s : string) :
  RegExp.matches (RegExp.text pat) s = JsString.starts_with pat s.
Proof.
  revert s. induction pat as [|c pat IH]; intros s; [reflexivity|].
  destruct s as [|d s]; [reflexivity|].
  cbn [RegExp.text RegExp.matches RegExp.atom_matches JsString.starts_with].
  rewrite IH. now destruct (Ascii.eqb c d).
Qed.

Lemma length_text (pat : string) : List.length (RegExp.text pat) = String.length pat.
Proof. induction pat as [|c pat IH]; simpl; [reflexivity|now rewrite IH]. Qed.

Lemma text_app (a b : string) :
  RegExp.text (a ++ b) = (RegExp.text a ++ RegExp.text b)%list.
Proof. induction a as [|c a IH]; simpl; [reflexivity|now rewrite IH]. Qed.

Lemma take_app (pat rest : string) : RegExp.take (String.length pat) (pat ++ rest) = pat.
Proof. induction pat as [|c pat IH]; simpl; [now destruct rest|now rewrite IH]. Qed.

(** On the pattern of a text the regular expression replaces the
    occurrences of the text. *)
Lemma replace_from_text (pat template : string) :
  forall s before skip,
    RegExp.replace_from (RegExp.text pat) template before skip s
    = JsString.replace_from pat template before skip s.
Proof.
  induction s as [|c s IH]; intros before skip; [reflexivity|].
  cbn [RegExp.replace_from JsString.replace_from].
  destruct skip as [|k]; [|apply IH].
  rewrite matches_text, length_text, !IH.
  destruct (JsString.starts_with pat (String c s)) eqn:E; [|reflexivity].
  apply starts_with_inv in E. destruct E as [rest E]. rewrite E, take_app. reflexivity.
Qed.

Lemma atoms_of_name (key : string) :
  literal_key key = true -> atoms_of key = RegExp.text key.
Proof.
  induction key as [|c key IH]; intros H; [reflexivity|].
  cbn [literal_key] in H. apply andb_true_iff in H. destruct H as [Hc Hk].
  cbn [atoms_of RegExp.text]. rewrite (IH Hk).
  destruct (Ascii.eqb c ".") eqn:E; [|reflexivity].
  apply Ascii.eqb_eq in E. subst c. discriminate.
Qed.

Lemma atoms_name (p : Placeholder) (key : string) :
  literal_key key = true -> atoms p key = RegExp.text (placeholder p key).
Proof.
  intros H. destruct p; cbn [atoms placeholder].
  - change (braced key) with (String "$" (String "{" (key ++ "}"))).
    cbn [RegExp.text]. now rewrite text_app, (atoms_of_name key H).
  - change (bare key) with (String "$" key).
    cbn [RegExp.text]. now rewrite (atoms_of_name key H).
Qed.

Lemma name_is_pattern_key (key : string) :
  literal_key key = true -> pattern_key key = true.
Proof.
  induction key as [|c key IH]; intros H; [reflexivity|].
  cbn [literal_key] in H. apply andb_true_iff in H. destruct H as [Hc Hk].
  cbn [pattern_key]. now rewrite Hc, (IH Hk).
Qed.

(** For a name the pass replaces the occurrences of the placeholder and
    does not throw. *)
Lemma replace_name (E : RegExp.Engine) (p : Placeholder) (key value result : string) :
  literal_key key = true ->
  replace E p key value result
  = Normal (JsString.replace_all (placeholder p key) value result).
Proof.
  intros H. unfold replace. rewrite (name_is_pattern_key key H), (atoms_name p key H).
  unfold RegExp.replace_all, JsString.replace_all. now rewrite replace_from_text.
Qed.

Lemma replaceVariables_names (E : RegExp.Engine) (variables : JsObject.t) :
  literal_keys variables ->
  forall command,
    replaceVariables E command variables = Normal (substitute command variables).
Proof.
  unfold literal_keys, substitute.
  induction variables as [|[key value] rest IH]; intros H command; [reflexivity|].
  inversion H as [|? ? Hk Hrest]; subst. cbn [fst] in Hk.
  cbn [replaceVariables replaceVariable fold_left substitute_key].
  rewrite (replace_name E Braced key value command Hk).
  rewrite (replace_name E Bare key value _ Hk).
  apply (IH Hrest).
Qed.

(** ** Strings without placeholders *)

(** C9, as stated, fails: the key [a.b] is pasted into the regular
    expression as it is, where its dot matches any character; neither
    [${a.b}] nor [$a.b] occurs in [$aXb], and yet the string is
    rewritten. *)
Lemma dotted_key_rewrites_other_text :
  ~ JsString.occurs (braced "a.b") "$aXb"
  /\ ~ JsString.occurs (bare "a.b") "$aXb"
  /\ replaceVariables Scenario.regexp "$aXb" [("a.b", "1")] = Normal "1"
  /\ ~ returned_unchanged "$aXb" [("a.b", "1")].
Proof.
  assert (Hb : ~ JsString.occurs (braced "a.b") "$aXb").
  { intros H. apply includes_complete in H. vm_compute in H. discriminate. }
  assert (Hp : ~ JsString.occurs (bare "a.b") "$aXb").
  { intros H. apply includes_complete in H. vm_compute in H. discriminate. }
  split; [exact Hb|]. split; [exact Hp|]. split; [reflexivity|].
  intros H.
  assert (F : replaceVariables Scenario.regexp "$aXb" [("a.b", "1")] = Normal "$aXb").
  { apply H. intros key [<-|[]]. split; assumption. }
  vm_compute in F. discriminate.
Qed.

(** C9 (amended): when the keys of the variable map are names (free of
    the syntax characters of regular expressions) and neither [${k}] nor
    [$k] occurs in [s] for any key [k], the Substitutor returns [s]
    itself without throwing; so running it again on its output gives the
    same string. *)
Theorem substitution_without_placeholders (E : RegExp.Engine) (s : string)
    (variables : JsObject.t) :
  literal_keys variables ->
  (forall key, In key (JsObject.keys variables) ->
               ~ JsString.occurs (braced key) s /\ ~ JsString.occurs (bare key) s) ->
  replaceVariables E s variables = Normal s
  /\ (forall output,
         replaceVariables E s variables = Normal output ->
         replaceVariables E output variables = Normal s).
Proof.
  intros Hlit H.
  assert (Hs : replaceVariables E s variables = Normal s).
  { rewrite (replaceVariables_names E variables Hlit).
    now rewrite (substitute_absent s variables H). }
  split; [exact Hs|].
  intros output Hout. rewrite Hs in Hout. injection Hout as <-. exact Hs.
Qed.

Lemma substitution_without_placeholders_witness :
  replaceVariables Scenario.regexp "cd $HOME && make ${target}"
    [("env", "staging"); ("user", "ops")]
  = Normal "cd $HOME && make ${target}".
Proof.
  refine (proj1 (substitution_without_placeholders Scenario.regexp
                   "cd $HOME && make ${target}" [("env", "staging"); ("user", "ops")] _ _)).
  - repeat constructor.
  - intros key [<-|[<-|[]]]; split; intros H; apply includes_complete in H;
      vm_compute in H; discriminate.
Defined.

(** ** Placeholders that are not keys *)

(** C7, as stated, fails: [ab] is not a key, but the pattern of the key
    [a] matches the start of [$ab]. *)
Lemma prefix_key_rewrites_placeholder :
  literal_keys [("a", "1")]
  /\ JsObject.has [("a", "1")] "ab" = false
  /\ replaceVariables Scenario.regexp "$ab" [("a", "1")] = Normal "1b"
  /\ ~ bare_placeholder_is_kept "ab" [("a", "1")].
Proof.
  split; [repeat constructor|]. split; [reflexivity|]. split; [reflexivity|].
  intros H. specialize (H eq_refl Scenario.regexp). vm_compute in H. discriminate.
Qed.

(** C7 (amended): keys and [x] being names (free of regular-expression
    syntax characters), the substitution does not throw; a placeholder
    [${x}] is left verbatim in the output when every key is non-empty and
    other than [x], and a bare [$x] is left verbatim when no key starts
    [x] or is started by [x]: the output is some text, the placeholder,
    some text; with replacement values free of [$$], [$&], [$`], [$']
    these are the substitutions of the text before and of the text after;
    and when the text around the placeholder has no dollar sign the
    template is returned unchanged. *)
Theorem unmatched_placeholders_are_kept (E : RegExp.Engine) (a b x : string)
    (variables : JsObject.t) :
  literal_keys variables ->
  literal_key x = true ->
  ((forall key, In key (JsObject.keys variables) -> key <> "" /\ key <> x) ->
   (exists a' b',
       replaceVariables E (a ++ braced x ++ b) variables = Normal (a' ++ braced x ++ b'))
   /\ (plain_values variables ->
       exists a' b',
         replaceVariables E a variables = Normal a'
         /\ replaceVariables E b variables = Normal b'
         /\ replaceVariables E (a ++ braced x ++ b) variables
            = Normal (a' ++ braced x ++ b'))
   /\ (dollar_free a -> dollar_free b ->
       replaceVariables E (a ++ braced x ++ b) variables = Normal (a ++ braced x ++ b)))
  /\ ((forall key, In key (JsObject.keys variables) ->
                   JsString.starts_with key x = false /\ JsString.starts_with x key = false) ->
      (exists a' b',
          replaceVariables E (a ++ bare x ++ b) variables = Normal (a' ++ bare x ++ b'))
      /\ (plain_values variables ->
          exists a' b',
            replaceVariables E a variables = Normal a'
            /\ replaceVariables E b variables = Normal b'
            /\ replaceVariables E (a ++ bare x ++ b) variables
               = Normal (a' ++ bare x ++ b'))
      /\ (dollar_free a -> dollar_free b ->
          replaceVariables E (a ++ bare x ++ b) variables = Normal (a ++ bare x ++ b))).
Proof.
  intros Hlit Hx.
  assert (Hblock : forall p, protected p variables ->
            (exists a' b',
                replaceVariables E (a ++ String "$" p ++ b) variables
                = Normal (a' ++ String "$" p ++ b'))
            /\ (plain_values variables ->
                exists a' b',
                  replaceVariables E a variables = Normal a'
                  /\ replaceVariables E b variables = Normal b'
                  /\ replaceVariables E (a ++ String "$" p ++ b) variables
                     = Normal (a' ++ String "$" p ++ b'))
            /\ (dollar_free a -> dollar_free b ->
                replaceVariables E (a ++ String "$" p ++ b) variables
                = Normal (a ++ String "$" p ++ b))).
  { intros p Hp. rewrite !(replaceVariables_names E variables Hlit).
    destruct (substitute_keeps_block p variables Hp a b) as ((a' & b' & H1) & H2 & H3).
    split; [exists a', b'; now rewrite H1|]. split.
    - intros Hpl. exists (substitute a variables), (substitute b variables).
      rewrite (H2 Hpl). auto.
    - intros Ha Hb. now rewrite (H3 Ha Hb). }
  split; intros Hkeys.
  - exact (Hblock _ (braced_placeholder_protected x variables Hlit Hx Hkeys)).
  - exact (Hblock _ (bare_placeholder_protected x variables Hlit Hx Hkeys)).
Qed.

Lemma unmatched_placeholders_are_kept_witness :
  (exists a' b',
      replaceVariables Scenario.regexp "deploy $env to " [("env", "staging"); ("user", "ops")]
      = Normal a'
      /\ replaceVariables Scenario.regexp " as $user" [("env", "staging"); ("user", "ops")]
         = Normal b'
      /\ replaceVariables Scenario.regexp "deploy $env to ${region} as $user"
           [("env", "staging"); ("user", "ops")]
         = Normal (a' ++ "${region}" ++ b'))
  /\ replaceVariables Scenario.regexp "ls $HOME" [("env", "staging"); ("user", "ops")]
     = Normal "ls $HOME".
Proof.
  destruct (unmatched_placeholders_are_kept Scenario.regexp "deploy $env to " " as $user"
              "region" [("env", "staging"); ("user", "ops")]) as [[_ [H1 _]] _].
  - repeat constructor.
  - reflexivity.
  - intros key [<-|[<-|[]]]; split; discriminate.
  - destruct (unmatched_placeholders_are_kept Scenario.regexp "ls " "" "HOME"
                [("env", "staging"); ("user", "ops")]) as [_ [_ [_ H2]]].
    + repeat constructor.
    + reflexivity.
    + intros key [<-|[<-|[]]]; split; reflexivity.
    + split.
      * apply H1. repeat constructor.
      * apply H2; reflexivity.
Defined.

(** ** Passes *)

Lemma unmatched_before_tail (pat rest : string) (c : ascii) (a : string) :
  unmatched_before pat (String c a) rest -> unmatched_before pat a rest.
Proof.
  intros H a1 a2 E Hne. apply (H (String c a1) a2); [now rewrite E|exact Hne].
Qed.

(** Up to the first occurrence of the pattern the subject is copied;
    the occurrence is replaced by the expansion of the template; the rest
    is scanned on its own. *)
Lemma replace_from_first (pat template b : string) :
  pat <> "" ->
  forall a before,
    unmatched_before pat a (pat ++ b) ->
    JsString.replace_from pat template before 0 (a ++ pat ++ b)
    = a ++ JsString.get_substitution (before ++ a) pat b template
        ++ JsString.replace_from pat template (before ++ a ++ pat) 0 b.
Proof.
  intros Hpat. induction a as [|c a IH]; intros before H.
  - change ("" ++ pat ++ b) with (pat ++ b).
    rewrite (replace_from_match template pat before b Hpat).
    now rewrite append_nil_r.
  - change (String c a ++ pat ++ b) with (String c (a ++ pat ++ b)).
    rewrite replace_from_keep.
    + rewrite (IH _ (unmatched_before_tail pat _ c a H)).
      rewrite !append_assoc. reflexivity.
    + apply (H "" (String c a)); [reflexivity|discriminate].
Qed.

Lemma occurs_mem (p s : string) (c : ascii) :
  JsString.occurs p s -> JsString.mem c p = true -> JsString.mem c s = true.
Proof.
  intros (a & b & ->) H. induction a as [|d a IH].
  - change ("" ++ p ++ b) with (p ++ b).
    induction p as [|e p IHp]; [discriminate|].
    cbn [JsString.mem append] in *. apply orb_true_iff in H.
    destruct H as [H|H]; [now rewrite H|]. rewrite (IHp H). apply orb_true_r.
  - change (String d a ++ p ++ b) with (String d (a ++ p ++ b)).
    cbn [JsString.mem]. rewrite IH. apply orb_true_r.
Qed.

(** The braced placeholder of a key does not occur in the bare
    placeholder of a name. *)
Lemma braced_not_in_bare (key x : string) :
  literal_key x = true -> ~ JsString.occurs (braced key) (bare x).
Proof.
  intros Hx H.
  assert (M : JsString.mem "{" (bare x) = true).
  { apply (occurs_mem (braced key) (bare x) "{" H). reflexivity. }
  change (bare x) with (String "$" x) in M. cbn [JsString.mem] in M.
  rewrite (literal_key_mem x "{" Hx eq_refl) in M. discriminate.
Qed.

(** The bare placeholder of a key occurs in that of a name only if the
    key starts the name. *)
Lemma bare_not_in_bare (key x : string) :
  literal_key x = true ->
  JsString.starts_with key x = false ->
  ~ JsString.occurs (bare key) (bare x).
Proof.
  intros Hx Hkx (a & b & E).
  destruct a as [|c a].
  - change ("" ++ bare key ++ b) with (String "$" (key ++ b)) in E.
    change (bare x) with (String "$" x) in E. injection E as E.
    rewrite E, starts_with_app in Hkx. discriminate.
  - change (bare x) with (String "$" x) in E.
    change (String c a ++ bare key ++ b) with (String c (a ++ String "$" (key ++ b))) in E.
    injection E as _ E.
    pose proof (literal_key_dollar_free x Hx) as Hd. rewrite E in Hd.
    apply dollar_free_app in Hd. destruct Hd as [_ Hd].
    unfold dollar_free in Hd. cbn [JsString.mem] in Hd. discriminate.
Qed.

(** A subject that is the occurrence itself. *)
Lemma replace_all_exact (pat value : string) :
  pat <> "" -> plain value = true -> JsString.replace_all pat value pat = value.
Proof.
  intros Hpat Hpl. unfold JsString.replace_all.
  rewrite <- (append_nil_r pat) at 2.
  rewrite (replace_from_match value pat "" "" Hpat).
  rewrite (get_substitution_plain _ _ _ _ Hpl). cbn [JsString.replace_from].
  apply append_nil_r.
Qed.

(** C8, as stated, fails: the value [$b] of [a], once inserted, is
    rewritten by the pass of the later key [b]; and the passes are not
    independent, the order of the keys changes the output. *)
Lemma inserted_value_is_reprocessed :
  literal_keys [("a", "$b"); ("b", "X")]
  /\ replaceVariables Scenario.regexp "$a" [("a", "$b"); ("b", "X")] = Normal "X"
  /\ replaceVariables Scenario.regexp "$a" [("b", "X"); ("a", "$b")] = Normal "$b"
  /\ ~ value_is_not_reprocessed "a" [("a", "$b"); ("b", "X")].
Proof.
  split; [repeat constructor|]. split; [reflexivity|]. split; [reflexivity|].
  intros H. specialize (H "$b" eq_refl eq_refl Scenario.regexp).
  vm_compute in H. discriminate.
Qed.

(** C8 (amended): when the keys are names, the substitution does not
    throw and is a chain of passes: the keys are taken one after the
    other, in the order of the entries, each with a pass for [${key}]
    followed by a pass for [$key], every pass working on the output of
    the one before.  A pass copies the subject up to the first occurrence
    of its placeholder, puts the expansion of the value in its place and
    goes on with the text after the occurrence alone, so it replaces every
    occurrence and does not scan again what it has inserted; without an
    occurrence it returns its subject.  Text inserted for a key is
    scanned by the passes of the keys that follow and not by those of
    the keys before: with [$k2] as the value of [k1], the placeholder
    [$k1] becomes the value of [k2] when [k2] comes after [k1], and [$k2]
    when it comes before. *)
Theorem substitution_is_a_chain_of_passes (E : RegExp.Engine)
    (command : string) (variables : JsObject.t) :
  literal_keys variables ->
  replaceVariables E command variables
  = Normal
      (fold_left
         (fun result entry =>
            JsString.replace_all (bare (fst entry)) (snd entry)
              (JsString.replace_all (braced (fst entry)) (snd entry) result))
         variables command)
  /\ (forall p key value a b,
         unmatched_before (placeholder p key) a (placeholder p key ++ b) ->
         JsString.replace_all (placeholder p key) value (a ++ placeholder p key ++ b)
         = a ++ JsString.get_substitution a (placeholder p key) b value
             ++ JsString.replace_from (placeholder p key) value (a ++ placeholder p key) 0 b
         /\ (plain value = true ->
             JsString.replace_all (placeholder p key) value (a ++ placeholder p key ++ b)
             = a ++ value ++ JsString.replace_all (placeholder p key) value b))
  /\ (forall p key value s,
         ~ JsString.occurs (placeholder p key) s ->
         JsString.replace_all (placeholder p key) value s = s)
  /\ (forall k1 k2 v2,
         literal_key k1 = true ->
         literal_key k2 = true ->
         JsString.starts_with k2 k1 = false ->
         plain (bare k2) = true ->
         plain v2 = true ->
         replaceVariables E (bare k1) [(k1, bare k2); (k2, v2)] = Normal v2
         /\ replaceVariables E (bare k1) [(k2, v2); (k1, bare k2)] = Normal (bare k2)).
Proof.
  intros Hlit.
  assert (Hne : forall p key, placeholder p key <> "") by (intros [|] key; discriminate).
  split; [|split; [|split]].
  - rewrite (replaceVariables_names E variables Hlit). unfold substitute. f_equal.
    clear. revert command.
    induction variables as [|[key value] rest IH]; intros command; [reflexivity|].
    cbn [fold_left substitute_key fst snd]. apply IH.
  - intros p key value a b Hun.
    assert (H1 : JsString.replace_all (placeholder p key) value (a ++ placeholder p key ++ b)
                 = a ++ JsString.get_substitution a (placeholder p key) b value
                     ++ JsString.replace_from (placeholder p key) value
                          (a ++ placeholder p key) 0 b).
    { unfold JsString.replace_all.
      exact (replace_from_first _ value b (Hne p key) a "" Hun). }
    split; [exact H1|].
    intros Hpl. rewrite H1, (get_substitution_plain _ _ _ _ Hpl).
    unfold JsString.replace_all.
    now rewrite (replace_from_plain _ value Hpl b _ "" 0).
  - intros p key value s Habs. unfold JsString.replace_all.
    now apply replace_from_absent.
  - intros k1 k2 v2 H1 H2 Hpre Hp2 Hv2.
    assert (Hb : forall k x v, literal_key x = true ->
                   JsString.replace_all (braced k) v (bare x) = bare x).
    { intros k x v Hx. unfold JsString.replace_all.
      apply replace_from_absent. now apply braced_not_in_bare. }
    assert (Hl1 : literal_keys [(k1, bare k2); (k2, v2)]) by (repeat constructor; assumption).
    assert (Hl2 : literal_keys [(k2, v2); (k1, bare k2)]) by (repeat constructor; assumption).
    rewrite (replaceVariables_names E _ Hl1), (replaceVariables_names E _ Hl2).
    unfold substitute. cbn [fold_left substitute_key].
    split; f_equal.
    + rewrite (Hb k1 k1 _ H1).
      rewrite (replace_all_exact (bare k1) (bare k2)) by (discriminate || exact Hp2).
      rewrite (Hb k2 k2 _ H2).
      apply replace_all_exact; [discriminate|exact Hv2].
    + rewrite (Hb k2 k1 _ H1).
      assert (Hk : JsString.replace_all (bare k2) v2 (bare k1) = bare k1).
      { unfold JsString.replace_all. apply replace_from_absent.
        now apply bare_not_in_bare. }
      rewrite Hk, (Hb k1 k1 _ H1).
      apply replace_all_exact; [discriminate|exact Hp2].
Qed.

Lemma substitution_is_a_chain_of_passes_witness :
  JsString.replace_all "$a" "<$a>" "x $a y $a" = "x <$a> y <$a>"
  /\ replaceVariables Scenario.regexp "$a" [("a", "$b"); ("b", "X")] = Normal "X"
  /\ replaceVariables Scenario.regexp "$a" [("b", "X"); ("a", "$b")] = Normal "$b".
Proof.
  destruct (substitution_is_a_chain_of_passes Scenario.regexp "x $a y $a" [("a", "<$a>")])
    as (_ & H2 & _); [repeat constructor|].
  destruct (H2 Bare "a" "<$a>" "x " " y $a") as [_ Hp].
  - intros a1 a2 E Hne.
    destruct a1 as [|c1 [|c2 [|c3 a1]]]; cbn in E.
    + subst a2. reflexivity.
    + injection E as _ <-. reflexivity.
    + injection E as _ _ <-. contradiction.
    + injection E as _ _ E. destruct a1; discriminate.
  - destruct (substitution_is_a_chain_of_passes Scenario.regexp "x" [("a", "<$a>")])
      as (_ & _ & _ & H4); [repeat constructor|].
    destruct (H4 "a" "b" "X" eq_refl eq_refl eq_refl eq_refl eq_refl) as [Ha Hb].
    split; [|split; [exact Ha|exact Hb]].
    etransitivity; [exact (Hp eq_refl)|reflexivity].
Defined.

(** ** Substitutions that throw *)



Lemma resolve_all_length (E : RegExp.Engine) (variables : JsObject.t)
    (commands : list string) :
  forall resolved,
    resolve_all E variables commands = Normal resolved ->
    List.length resolved = List.length commands.
Proof.
  induction commands as [|template rest IH]; intros resolved H; cbn [resolve_all] in H.
  - now injection H as <-.
  - destruct (replaceVariables E template variables); [|discriminate].
    destruct (resolve_all E variables rest) as [cs|]; [|discriminate].
    injection H as <-. cbn [List.length]. now rewrite (IH cs eq_refl).
Qed.

Lemma resolve_all_cons (E : RegExp.Engine) (variables : JsObject.t)
    (template : string) (rest resolved : list string) :
  resolve_all E variables (template :: rest) = Normal resolved ->
  exists command others,
    resolved = command :: others
    /\ replaceVariables E template variables = Normal command
    /\ resolve_all E variables rest = Normal others.
Proof.
  cbn [resolve_all].
  destruct (replaceVariables E template variables) as [command|]; [|discriminate].
  destruct (resolve_all E variables rest) as [others|]; [|discriminate].
  intros H. injection H as <-. now exists command, others.
Qed.


(** ** Results of processes *)

Lemma in_turn_firstn {World : Type} (execa : string -> World -> ExecaResult * World)
    (commands : list string) :
  forall k w,
    fst (in_turn execa (firstn k commands) w) = firstn k (fst (in_turn execa commands w)).
Proof.
  induction commands as [|c cs IH]; intros k w.
  - now rewrite !firstn_nil.
  - destruct k as [|k]; [reflexivity|].
    cbn [firstn in_turn fst]. now rewrite IH.
Qed.

Lemma in_turn_length {World : Type} (execa : string -> World -> ExecaResult * World)
    (commands : list string) :
  forall w, List.length (fst (in_turn execa commands w)) = List.length commands.
Proof.
  induction commands as [|c cs IH]; intros w; [reflexivity|].
  cbn [in_turn fst List.length]. now rewrite IH.
Qed.

(** The first process that does not exit with status 0 is at one index
    only. *)
Lemma first_rejected_unique (results : list ExecaResult) (i j : nat) :
  forallb exited (firstn i results) = true ->
  (exists stderr m, nth_error results i = Some (Rejected stderr m)) ->
  forallb exited (firstn j results) = true ->
  (exists stderr m, nth_error results j = Some (Rejected stderr m)) ->
  i = j.
Proof.
  revert i j. induction results as [|x xs IH]; intros i j Hi [se [m Ni]] Hj [se' [m' Nj]].
  - destruct i; discriminate.
  - destruct i as [|i], j as [|j]; [reflexivity| | |].
    + cbn in Ni. injection Ni as ->. cbn in Hj. discriminate.
    + cbn in Nj. injection Nj as ->. cbn in Hi. discriminate.
    + cbn [firstn forallb] in Hi, Hj. apply andb_true_iff in Hi, Hj.
      f_equal. apply IH; [tauto|now exists se, m|tauto|now exists se', m'].
Qed.

Lemma all_exited_no_rejected (results : list ExecaResult) (i : nat) (stderr m : string) :
  forallb exited results = true -> nth_error results i <> Some (Rejected stderr m).
Proof.
  intros H N. apply nth_error_In in N.
  rewrite forallb_forall in H. specialize (H _ N). discriminate.
Qed.

Lemma exited_up_to_rejected (results : list ExecaResult) (i : nat) :
  forallb exited (firstn i results) = true ->
  (exists stderr m, nth_error results i = Some (Rejected stderr m)) ->
  map exited (firstn (S i) results) = (repeat true i ++ [false])%list.
Proof.
  revert i. induction results as [|x xs IH]; intros i Hi [se [m Ni]].
  - destruct i; discriminate.
  - destruct i as [|i].
    + cbn in Ni. injection Ni as ->. reflexivity.
    + cbn [firstn forallb] in Hi. apply andb_true_iff in Hi. destruct Hi as [Hx Hi].
      cbn [firstn map repeat app]. rewrite Hx. f_equal.
      apply IH; [exact Hi|now exists se, m].
Qed.

Lemma all_exited_flags (results : list ExecaResult) :
  forallb exited results = true ->
  map exited results = repeat true (List.length results).
Proof.
  induction results as [|x xs IH]; intros H; [reflexivity|].
  cbn [forallb] in H. apply andb_true_iff in H. destruct H as [Hx Hxs].
  cbn [map List.length repeat]. now rewrite Hx, (IH Hxs).
Qed.

(** ** Traces *)

Lemma dispatched_app (a b : list Event) :
  dispatched (a ++ b) = (dispatched a ++ dispatched b)%list.
Proof.
  induction a as [|e a IH]; simpl; [reflexivity|].
  destruct e; simpl; rewrite IH; reflexivity.
Qed.

Lemma outcomes_app (a b : list Event) :
  outcomes (a ++ b) = (outcomes a ++ outcomes b)%list.
Proof.
  induction a as [|e a IH]; simpl; [reflexivity|].
  destruct e; simpl; rewrite IH; reflexivity.
Qed.


Lemma outcomes_started (commands : list string) :
  outcomes (map Exec commands) = [].
Proof. induction commands as [|c cs IH]; simpl; [reflexivity|exact IH]. Qed.

Lemma extends_refl {World : Type} (r : Run World) : extends r r [].
Proof. unfold extends. now rewrite app_nil_r. Qed.

Lemma extends_emit {World : Type} (e : Event) (r : Run World) :
  extends r (emit World e r) [e].
Proof. reflexivity. Qed.

Lemma extends_trans {World : Type} (r1 r2 r3 : Run World) (a b : list Event) :
  extends r1 r2 a -> extends r2 r3 b -> extends r1 r3 (a ++ b).
Proof. unfold extends. intros H1 H2. now rewrite H2, H1, app_assoc. Qed.

(** What is reported when a process has ended is a line of output at
    most. *)
Lemma report_trace {World : Type} (result : ExecaResult) (r : Run World) :
  world (report World result r) = world r
  /\ exists added,
       extends r (report World result r) added
       /\ dispatched added = []
       /\ outcomes added = [].
Proof.
  destruct result as [stdout|stderr m]; cbn [report].
  - destruct (String.eqb stdout "").
    + split; [reflexivity|]. exists []. split; [apply extends_refl|]. split; reflexivity.
    + split; [reflexivity|]. exists [Log stdout]. split; [apply extends_emit|].
      split; reflexivity.
  - split; [reflexivity|]. exists []. split; [apply extends_refl|]. split; reflexivity.
Qed.

Section ExecutorFacts.

Variable World : Type.
Variable execa : string -> World -> ExecaResult * World.

(** [executeCommand] starts exactly the command it is given, lets its
    process run, settles with its result, and marks no outcome. *)
Lemma executeCommand_run (command : string) (r : Run World) :
  fst (executeCommand World execa command r) = settle (fst (execa command (world r)))
  /\ world (snd (executeCommand World execa command r)) = snd (execa command (world r))
  /\ exists added,
       extends r (snd (executeCommand World execa command r)) added
       /\ dispatched added = [command]
       /\ outcomes added = [].
Proof.
  unfold executeCommand. cbn [emit world trace].
  destruct (execa command (world r)) as [result w]. cbn [fst snd].
  split; [reflexivity|].
  destruct (report_trace result (mkRun w (trace r ++ [Exec command])))
    as (Hw & added & Hext & Hd & Ho).
  split; [exact Hw|].
  exists (Exec command :: added). split.
  - unfold extends in *. cbn [trace] in Hext. rewrite Hext, <- app_assoc. reflexivity.
  - cbn [dispatched outcomes]. now rewrite Hd, Ho.
Qed.

End ExecutorFacts.

(** ** The sequential loop *)

Lemma marks_length (n i : nat) (flags : list bool) (resolved : list string) :
  List.length flags <= List.length resolved ->
  List.length (marks n i flags resolved) = List.length flags.
Proof.
  revert i resolved. induction flags as [|b flags IH]; intros i [|c resolved] H; simpl in *;
    try reflexivity; try lia.
  rewrite IH; [reflexivity|lia].
Qed.

Lemma marks_flags (n i : nat) (flags : list bool) (resolved : list string) :
  List.length flags <= List.length resolved ->
  map fst (marks n i flags resolved) = flags.
Proof.
  revert i resolved. induction flags as [|b flags IH]; intros i [|c resolved] H; simpl in *;
    try reflexivity; try lia.
  rewrite IH; [reflexivity|lia].
Qed.

Section SequentialFacts.

Variable World : Type.
Variable execa : string -> World -> ExecaResult * World.
Variable regexp : RegExp.Engine.
Variable continue_on_error : bool.
Variable variables : JsObject.t.
Variable n : nat.

(** What the loop does from index [i] on, when the commands resolve to
    [resolved]: it runs the processes of a prefix of them one after the
    other, marks the outcome of each as its process ended, logs the
    reason of each failure, and either returns at the first failure (only
    when [continue_on_error] is off) or reaches them all. *)
Lemma sequential_loop_spec (commands : list string) :
  forall (resolved : list string) (i : nat) (failed : bool) (r : Run World) ret failed' r',
    resolve_all regexp variables commands = Normal resolved ->
    sequential_loop World execa regexp continue_on_error variables n commands i failed r
    = (ret, failed', r') ->
    exists k added,
      k <= List.length resolved
      /\ extends r r' added
      /\ world r' = snd (in_turn execa (firstn k resolved) (world r))
      /\ dispatched added = firstn k resolved
      /\ outcomes added
         = marks n i (map exited (firstn k (fst (in_turn execa resolved (world r))))) resolved
      /\ (forall stderr m,
             In (Rejected stderr m) (firstn k (fst (in_turn execa resolved (world r)))) ->
             In (Log ("  Error: " ++ reason_of stderr m)) added)
      /\ match ret with
         | Throw _ => False
         | Normal (Some result) =>
             continue_on_error = false
             /\ exists j,
                 k = S j
                 /\ forallb exited (firstn j (fst (in_turn execa resolved (world r)))) = true
                 /\ (exists stderr m,
                        nth_error (fst (in_turn execa resolved (world r))) j
                        = Some (Rejected stderr m))
                 /\ result = mkResult false
                               ("Workflow failed at command " ++ JsString.of_nat (i + j + 1))
         | Normal None =>
             k = List.length resolved
             /\ failed'
                = (failed || negb (forallb exited (fst (in_turn execa resolved (world r)))))%bool
             /\ (continue_on_error = false ->
                 forallb exited (fst (in_turn execa resolved (world r))) = true)
         end.
Proof.
  induction commands as [|template rest IH];
    intros resolved i failed r ret failed' r' Hres H.
  - cbn [resolve_all] in Hres. injection Hres as <-.
    cbn [sequential_loop] in H. injection H as <- <- <-.
    exists 0, []. cbn [firstn in_turn fst snd map marks List.length forallb negb].
    split; [lia|]. split; [apply extends_refl|]. split; [reflexivity|].
    split; [reflexivity|]. split; [reflexivity|]. split; [intros ? ? []|].
    split; [reflexivity|]. split; [now rewrite orb_false_r|reflexivity].
  - destruct (resolve_all_cons regexp variables template rest resolved Hres)
      as (c & cs & -> & Hc & Hcs).
    cbn [sequential_loop] in H. rewrite Hc in H.
    set (r1 := emit World (SpinnerStart (progress i n c)) r) in *.
    destruct (executeCommand_run World execa c r1) as (Hfst & Hw & ex & Hex & Hd & Ho).
    destruct (executeCommand World execa c r1) as [res r2].
    cbn [fst snd] in Hfst, Hw, Hex.
    change (world r1) with (world r) in Hfst, Hw.
    cbn [in_turn fst snd firstn].
    destruct (execa c (world r)) as [x w1] eqn:Ex. cbn [fst snd] in *.
    destruct x as [stdout|stderr m]; cbn [settle] in Hfst; subst res.
    + (* the process exits with status 0 *)
      apply (IH cs) in H; [|exact Hcs].
      destruct H as (k & added & Hk & Hext & Hworld & Hdis & Hout & Herr & Hret).
      cbn [emit world] in Hworld, Hout, Herr, Hret. rewrite Hw in Hworld, Hout, Herr, Hret.
      exists (S k),
        ([SpinnerStart (progress i n c)] ++ ex
           ++ [SpinnerSucceed (progress i n c)] ++ added)%list.
      cbn [firstn in_turn fst snd map marks exited List.length].
      rewrite ?Ex. cbn [firstn in_turn fst snd map marks exited List.length].
      split; [lia|]. split.
      { eapply extends_trans; [apply extends_emit|].
        eapply extends_trans; [exact Hex|].
        eapply extends_trans; [apply extends_emit|exact Hext]. }
      split; [exact Hworld|]. split.
      { rewrite !dispatched_app, Hd, Hdis. reflexivity. }
      split.
      { rewrite !outcomes_app, Ho, Hout. reflexivity. }
      split.
      { intros se m [F|Hin]; [discriminate|].
        apply in_or_app. right. apply in_or_app. right. apply in_or_app. right.
        now apply Herr. }
      destruct ret as [[result|]|error]; [| |exact Hret].
      * destruct Hret as (Hce & j & -> & Hall & Hrej & Hresult).
        split; [exact Hce|]. exists (S j). split; [reflexivity|].
        cbn [firstn forallb nth_error exited andb].
        split; [exact Hall|]. split; [exact Hrej|].
        rewrite Hresult. do 3 f_equal. lia.
      * destruct Hret as (-> & Hf & Hall). split; [reflexivity|].
        cbn [forallb exited andb]. split; [exact Hf|exact Hall].
    + (* the process fails *)
      destruct continue_on_error eqn:C; cbn [negb] in H.
      * apply (IH cs) in H; [|exact Hcs].
        destruct H as (k & added & Hk & Hext & Hworld & Hdis & Hout & Herr & Hret).
        cbn [emit world] in Hworld, Hout, Herr, Hret.
        rewrite Hw in Hworld, Hout, Herr, Hret.
        exists (S k),
          ([SpinnerStart (progress i n c)] ++ ex
             ++ [SpinnerFail (progress i n c)]
             ++ [Log ("  Error: " ++ reason_of stderr m)]
             ++ [Log "  Continuing despite error..."] ++ added)%list.
        cbn [firstn in_turn fst snd map marks exited List.length].
        rewrite ?Ex. cbn [firstn in_turn fst snd map marks exited List.length].
        split; [lia|]. split.
        { eapply extends_trans; [apply extends_emit|].
          eapply extends_trans; [exact Hex|].
          eapply extends_trans; [apply extends_emit|].
          eapply extends_trans; [apply extends_emit|].
          eapply extends_trans; [apply extends_emit|exact Hext]. }
        split; [exact Hworld|]. split.
        { rewrite !dispatched_app, Hd, Hdis. reflexivity. }
        split.
        { rewrite !outcomes_app, Ho, Hout. reflexivity. }
        split.
        { intros se m' [F|Hin].
          - injection F as <- <-.
            apply in_or_app. right. apply in_or_app. right. apply in_or_app. right.
            now left.
          - apply in_or_app. right. apply in_or_app. right. apply in_or_app. right.
            apply in_or_app. right. apply in_or_app. right. now apply Herr. }
        destruct ret as [[result|]|error]; [| |exact Hret].
        -- destruct Hret as (Hce & _). discriminate.
        -- destruct Hret as (-> & Hf & _). split; [reflexivity|].
           cbn [forallb exited andb negb]. split; [|discriminate].
           rewrite Hf. now rewrite orb_true_r.
      * injection H as <- <- <-.
        exists 1,
          ([SpinnerStart (progress i n c)] ++ ex
             ++ [SpinnerFail (progress i n c)]
             ++ [Log ("  Error: " ++ reason_of stderr m)])%list.
        cbn [firstn in_turn fst snd map marks exited List.length].
        rewrite ?Ex. cbn [firstn in_turn fst snd map marks exited List.length].
        split; [lia|]. split.
        { eapply extends_trans; [apply extends_emit|].
          eapply extends_trans; [exact Hex|].
          eapply extends_trans; [apply extends_emit|apply extends_emit]. }
        split; [cbn [emit world]; exact Hw|]. split.
        { rewrite !dispatched_app, Hd. reflexivity. }
        split.
        { rewrite !outcomes_app, Ho. destruct cs; reflexivity. }
        split.
        { intros se m' [F|[]]. injection F as <- <-.
          apply in_or_app. right. apply in_or_app. right. apply in_or_app. right.
          now left. }
        split; [reflexivity|]. exists 0. split; [reflexivity|].
        cbn [firstn forallb nth_error].
        split; [reflexivity|]. split; [now exists stderr, m|].
        replace (i + 0 + 1) with (i + 1) by lia. reflexivity.
Qed.

End SequentialFacts.

(** ** Runs of [execute] *)

Section ExecuteFacts.

Variable World : Type.
Variable execa : string -> World -> ExecaResult * World.
Variable together : Together World.
Variable regexp : RegExp.Engine.

(** [execute] is the fetch followed by the run of the fetched workflow;
    the store it leaves is the one the fetch leaves. *)
Lemma execute_found (name : string) (vars : JsObject.t) (now : Database.Time)
    (db : Database.t) (r : Run World) (workflow : Database.Workflow) :
  fst (Database.getWorkflow name now db) = Some workflow ->
  execute World execa together regexp name vars now db r
  = (fst (execute_workflow World execa together regexp workflow vars
            (emit World (Log (newline ++ "Executing workflow: " ++ name)) r)),
     snd (Database.getWorkflow name now db),
     snd (execute_workflow World execa together regexp workflow vars
            (emit World (Log (newline ++ "Executing workflow: " ++ name)) r))).
Proof.
  intros H. unfold execute.
  destruct (Database.getWorkflow name now db) as [[wf|] db1]; simpl in H; [|discriminate].
  injection H as ->. simpl.
  destruct (execute_workflow World execa together regexp workflow vars _). reflexivity.
Qed.

(** The sequential branch, from a run that has only announced itself,
    when the commands resolve to [resolved]. *)
Lemma execute_sequential_spec (workflow : Database.Workflow) (variables : JsObject.t)
    (resolved : list string) (r : Run World) :
  outcomes (trace r) = [] ->
  dispatched (trace r) = [] ->
  resolve_all regexp variables (Database.commands workflow) = Normal resolved ->
  exists k result r',
    execute_sequential World execa regexp workflow variables r = (Normal result, r')
    /\ k <= List.length resolved
    /\ world r' = snd (in_turn execa (firstn k resolved) (world r))
    /\ dispatched (trace r') = firstn k resolved
    /\ outcomes (trace r')
       = marks (List.length resolved) 0
           (map exited (firstn k (fst (in_turn execa resolved (world r))))) resolved
    /\ (forall stderr m,
           In (Rejected stderr m) (firstn k (fst (in_turn execa resolved (world r)))) ->
           In (Log ("  Error: " ++ reason_of stderr m)) (trace r'))
    /\ ((Database.continue_on_error (Database.row workflow) = false
         /\ exists j,
             k = S j
             /\ forallb exited (firstn j (fst (in_turn execa resolved (world r)))) = true
             /\ (exists stderr m,
                    nth_error (fst (in_turn execa resolved (world r))) j
                    = Some (Rejected stderr m))
             /\ result = mkResult false
                           ("Workflow failed at command " ++ JsString.of_nat (j + 1)))
        \/ (k = List.length resolved
            /\ (Database.continue_on_error (Database.row workflow) = false ->
                forallb exited (fst (in_turn execa resolved (world r))) = true)
            /\ (forallb exited (fst (in_turn execa resolved (world r))) = true
                \/ Database.continue_on_error (Database.row workflow) = false ->
                result = mkResult true "Workflow completed successfully"
                /\ last (trace r') SpinnerStop = Log "✓ Workflow completed successfully")
            /\ (forallb exited (fst (in_turn execa resolved (world r))) = false ->
                Database.continue_on_error (Database.row workflow) = true ->
                result = mkResult true "Workflow completed with errors"
                /\ last (trace r') SpinnerStop = Log "⚠ Workflow completed with errors"))).
Proof.
  intros Ho Hd Hres. unfold execute_sequential.
  rewrite <- (resolve_all_length regexp variables _ resolved Hres).
  destruct (sequential_loop World execa regexp _ variables _ _ 0 false r)
    as [[ret failed'] r1] eqn:E.
  apply (sequential_loop_spec World execa regexp _ variables _ _ resolved) in E;
    [|exact Hres].
  destruct E as (k & added & Hk & Hext & Hworld & Hdis & Hout & Herr & Hret).
  unfold extends in Hext.
  destruct ret as [[res|]|error]; [| |contradiction].
  - exists k, res, r1. split; [reflexivity|]. split; [exact Hk|]. split; [exact Hworld|].
    rewrite Hext, outcomes_app, dispatched_app, Ho, Hd. cbn [app].
    split; [exact Hdis|]. split; [exact Hout|].
    split; [intros se m Hin; apply in_or_app; right; now apply Herr|].
    left. destruct Hret as (Hce & j & Hj & Hall & Hrej & Hresult).
    split; [exact Hce|]. exists j. auto.
  - destruct Hret as (Hlen & Hf & Hall). cbn [orb] in Hf. subst failed'.
    set (results := fst (in_turn execa resolved (world r))) in *.
    set (ce := Database.continue_on_error (Database.row workflow)) in *.
    assert (Hend : exists res line,
               (if (negb (forallb exited results) && ce)%bool
                then (Normal (mkResult true "Workflow completed with errors"),
                      emit World (Log "⚠ Workflow completed with errors") r1)
                else (Normal (mkResult true "Workflow completed successfully"),
                      emit World (Log "✓ Workflow completed successfully") r1))
               = (Normal res, emit World (Log line) r1)
               /\ (forallb exited results = true \/ ce = false ->
                   res = mkResult true "Workflow completed successfully"
                   /\ line = "✓ Workflow completed successfully")
               /\ (forallb exited results = false -> ce = true ->
                   res = mkResult true "Workflow completed with errors"
                   /\ line = "⚠ Workflow completed with errors")).
    { destruct (forallb exited results), ce; cbn [negb andb];
        eexists; eexists; (split; [reflexivity|]); split; try (intros; split; reflexivity);
        try (intros [F|F]; discriminate F); try discriminate. }
    destruct Hend as (res & line & Heq & Hok & Hbad). rewrite Heq.
    exists k, res, (emit World (Log line) r1).
    split; [reflexivity|]. split; [exact Hk|]. split; [exact Hworld|].
    cbn [emit trace]. rewrite Hext, !outcomes_app, !dispatched_app, Ho, Hd.
    cbn [app dispatched outcomes]. rewrite !app_nil_r.
    split; [exact Hdis|]. split; [exact Hout|].
    split.
    { intros se m Hin. apply in_or_app. left. apply in_or_app. right. now apply Herr. }
    right. split; [exact Hlen|]. split; [exact Hall|].
    split.
    + intros H. destruct (Hok H) as [-> ->]. split; [reflexivity|apply last_last].
    + intros H1 H2. destruct (Hbad H1 H2) as [-> ->]. split; [reflexivity|apply last_last].
Qed.

End ExecuteFacts.

(** ** Sequential runs *)

(** C1: in a sequential run of a workflow that does not continue on
    error, if the process of the command at index [i] fails, those of the
    commands before it having exited with status 0, then the run starts
    the commands up to [i] and no other, one after the other; it marks
    their outcomes, all successes but the last, and logs the reason of the
    failure; and it returns at once with [success = false] and the
    message naming command [i + 1], which is how the code reports a run
    halted early. *)
Theorem sequential_halts_at_failure
    (World : Type) (execa : string -> World -> ExecaResult * World)
    (together : Together World) (regexp : RegExp.Engine)
    (name : string) (vars : JsObject.t) (now : Database.Time) (db : Database.t)
    (w : World) (workflow : Database.Workflow) (resolved : list string)
    (i : nat) (stderr error_message : string) :
  fst (Database.getWorkflow name now db) = Some workflow ->
  Database.parallel (Database.row workflow) = false ->
  Database.continue_on_error (Database.row workflow) = false ->
  resolve_all regexp (merged workflow vars) (Database.commands workflow) = Normal resolved ->
  forallb exited (firstn i (fst (in_turn execa resolved w))) = true ->
  nth_error (fst (in_turn execa resolved w)) i = Some (Rejected stderr error_message) ->
  exists r',
    execute World execa together regexp name vars now db (fresh w)
    = (Normal (mkResult false ("Workflow failed at command " ++ JsString.of_nat (i + 1))),
       snd (Database.getWorkflow name now db), r')
    /\ dispatched (trace r') = firstn (S i) resolved
    /\ outcomes (trace r')
       = marks (List.length resolved) 0 (repeat true i ++ [false]) resolved
    /\ In (Log ("  Error: " ++ reason_of stderr error_message)) (trace r')
    /\ world r' = snd (in_turn execa (firstn (S i) resolved) w).
Proof.
  intros Hget Hpar Hce Hres Hbefore Hfail.
  rewrite (execute_found World execa together regexp name vars now db (fresh w) workflow Hget).
  unfold execute_workflow. rewrite Hpar. fold (merged workflow vars).
  destruct (execute_sequential_spec World execa regexp workflow (merged workflow vars)
              resolved
              (emit World (Log (newline ++ "Executing workflow: " ++ name)) (fresh w))
              eq_refl eq_refl Hres)
    as (k & result & r' & Hrun & Hk & Hworld & Hdis & Hout & Herr & Hcase).
  cbn [emit world fresh] in Hworld, Hout, Herr, Hcase.
  rewrite Hrun. cbn [fst snd].
  destruct Hcase as [(_ & j & -> & Hall & Hrej & ->)|(_ & Hall & _)].
  - assert (Hij : i = j).
    { apply (first_rejected_unique (fst (in_turn execa resolved w)));
        [exact Hbefore|now exists stderr, error_message|exact Hall|exact Hrej]. }
    subst j. exists r'. split; [reflexivity|]. split; [exact Hdis|].
    split.
    { rewrite Hout. f_equal. apply exited_up_to_rejected; [exact Hbefore|].
      now exists stderr, error_message. }
    split; [|exact Hworld].
    apply Herr. apply (nth_error_In _ i).
    rewrite nth_error_firstn.
    destruct (Nat.ltb_spec i (S i)) as [_|F]; [exact Hfail|lia].
  - exfalso.
    exact (all_exited_no_rejected _ i stderr error_message (Hall Hce) Hfail).
Qed.

Lemma sequential_halts_at_failure_witness :
  let db := Scenario.stored "ci" ["echo a"; "false"; "echo c"] Scenario.stop_on_error in
  exists r',
    Scenario.run db "ci"
    = (Normal (mkResult false "Workflow failed at command 2"),
       snd (Database.getWorkflow "ci" 2 db), r')
    /\ dispatched (trace r') = ["echo a"; "false"]
    /\ outcomes (trace r') = [(true, "[1/3] echo a"); (false, "[2/3] false")]
    /\ In (Log "  Error: Command failed with exit code 1: false") (trace r')
    /\ world r' = 2.
Proof.
  intros db.
  exact (sequential_halts_at_failure nat Scenario.execa Scenario.together Scenario.regexp
           "ci" [] 2 db 0
           (Database.mkWorkflow
              (Database.mkWorkflowRow 1 "ci" "" false false [] 0 1 1 None)
              ["echo a"; "false"; "echo c"])
           ["echo a"; "false"; "echo c"] 1 "" "Command failed with exit code 1: false"
           eq_refl eq_refl eq_refl eq_refl eq_refl eq_refl).
Defined.

(** C2, as stated, fails: with [echo a], [false], [echo c] and
    continue-on-error, the three commands run, the second fails, and the
    run returns [success: true]. *)
Lemma continued_run_returns_success :
  let db := Scenario.stored "eod" ["echo a"; "false"; "echo c"] Scenario.keep_going in
  outcomes (trace (snd (Scenario.run db "eod")))
  = [(true, "[1/3] echo a"); (false, "[2/3] false"); (true, "[3/3] echo c")]
  /\ fst (fst (Scenario.run db "eod"))
     = Normal (mkResult true "Workflow completed with errors")
  /\ ~ mixed_run_is_not_a_success db "eod".
Proof.
  intros db. split; [reflexivity|]. split; [reflexivity|].
  intros H. vm_compute in H.
  assert (F : true = false); [|discriminate F].
  apply H; eexists; [right; left; reflexivity|left; reflexivity].
Qed.

(** C2 (amended): in a sequential run of a workflow that continues on
    error, if the process of at least one command fails, every command is
    still started, in order, each in the system the one before has left;
    one outcome is marked for each command, in order, a success or a
    failure as its process ended; the reason of each failure is logged;
    and the run ends with the warning line and returns [success = true]
    with the message "Workflow completed with errors". *)
Theorem sequential_continues_past_failures
    (World : Type) (execa : string -> World -> ExecaResult * World)
    (together : Together World) (regexp : RegExp.Engine)
    (name : string) (vars : JsObject.t) (now : Database.Time) (db : Database.t)
    (w : World) (workflow : Database.Workflow) (resolved : list string) :
  fst (Database.getWorkflow name now db) = Some workflow ->
  Database.parallel (Database.row workflow) = false ->
  Database.continue_on_error (Database.row workflow) = true ->
  resolve_all regexp (merged workflow vars) (Database.commands workflow) = Normal resolved ->
  forallb exited (fst (in_turn execa resolved w)) = false ->
  exists r',
    execute World execa together regexp name vars now db (fresh w)
    = (Normal (mkResult true "Workflow completed with errors"),
       snd (Database.getWorkflow name now db), r')
    /\ dispatched (trace r') = resolved
    /\ outcomes (trace r')
       = marks (List.length resolved) 0 (map exited (fst (in_turn execa resolved w))) resolved
    /\ (forall stderr error_message,
           In (Rejected stderr error_message) (fst (in_turn execa resolved w)) ->
           In (Log ("  Error: " ++ reason_of stderr error_message)) (trace r'))
    /\ last (trace r') SpinnerStop = Log "⚠ Workflow completed with errors"
    /\ world r' = snd (in_turn execa resolved w).
Proof.
  intros Hget Hpar Hce Hres Hfail.
  rewrite (execute_found World execa together regexp name vars now db (fresh w) workflow Hget).
  unfold execute_workflow. rewrite Hpar. fold (merged workflow vars).
  destruct (execute_sequential_spec World execa regexp workflow (merged workflow vars)
              resolved
              (emit World (Log (newline ++ "Executing workflow: " ++ name)) (fresh w))
              eq_refl eq_refl Hres)
    as (k & result & r' & Hrun & Hk & Hworld & Hdis & Hout & Herr & Hcase).
  cbn [emit world fresh] in Hworld, Hout, Herr, Hcase.
  rewrite Hrun. cbn [fst snd].
  destruct Hcase as [(F & _)|(-> & _ & _ & Hbad)]; [congruence|].
  destruct (Hbad Hfail Hce) as [-> Hlast].
  assert (Hall : firstn (List.length resolved) (fst (in_turn execa resolved w))
                 = fst (in_turn execa resolved w)).
  { rewrite <- (in_turn_length execa resolved w). apply firstn_all. }
  rewrite firstn_all in Hdis, Hworld. rewrite Hall in Hout, Herr.
  exists r'. auto 10.
Qed.

Lemma sequential_continues_past_failures_witness :
  let db := Scenario.stored "eod" ["echo a"; "false"; "echo c"] Scenario.keep_going in
  exists r',
    Scenario.run db "eod"
    = (Normal (mkResult true "Workflow completed with errors"),
       snd (Database.getWorkflow "eod" 2 db), r')
    /\ dispatched (trace r') = ["echo a"; "false"; "echo c"]
    /\ outcomes (trace r')
       = [(true, "[1/3] echo a"); (false, "[2/3] false"); (true, "[3/3] echo c")]
    /\ last (trace r') SpinnerStop = Log "⚠ Workflow completed with errors"
    /\ world r' = 3.
Proof.
  intros db.
  destruct (sequential_continues_past_failures nat Scenario.execa Scenario.together
              Scenario.regexp "eod" [] 2 db 0
              (Database.mkWorkflow
                 (Database.mkWorkflowRow 1 "eod" "" false true [] 0 1 1 None)
                 ["echo a"; "false"; "echo c"])
              ["echo a"; "false"; "echo c"]
              eq_refl eq_refl eq_refl eq_refl eq_refl)
    as (r' & H1 & H2 & H3 & _ & H5 & H6).
  exists r'. auto 10.
Defined.

(** ** Parallel runs *)


Section ParallelFacts.

Variable World : Type.
Variable together : Together World.
Variable regexp : RegExp.Engine.
Variable variables : JsObject.t.



Lemma reports_trace (results : list ExecaResult) :
  forall r : Run World,
    world (fold_left (fun r x => report World x r) results r) = world r
    /\ exists added,
         extends r (fold_left (fun r x => report World x r) results r) added
         /\ dispatched added = []
         /\ outcomes added = [].
Proof.
  induction results as [|x xs IH]; intros r; cbn [fold_left].
  - split; [reflexivity|]. exists []. split; [apply extends_refl|]. split; reflexivity.
  - destruct (report_trace x r) as (Hw & a1 & H1 & D1 & O1).
    destruct (IH (report World x r)) as (Hw2 & a2 & H2 & D2 & O2).
    split; [now rewrite Hw2|].
    exists (a1 ++ a2)%list. split; [exact (extends_trans _ _ _ _ _ H1 H2)|].
    now rewrite dispatched_app, outcomes_app, D1, D2, O1, O2.
Qed.

(** The [await] starts nothing and marks nothing; it yields the results
    of all the processes, in the order of the commands, and leaves the
    system as the processes leave it. *)
Lemma settle_all_spec (started : list string) (r : Run World) :
  fst (settle_all World together started r)
  = map settled (results_together together started (world r))
  /\ world (snd (settle_all World together started r))
     = match started with
       | [] => world r
       | _ :: _ => leaves together started (world r)
       end
  /\ exists added,
       extends r (snd (settle_all World together started r)) added
       /\ dispatched added = []
       /\ outcomes added = [].
Proof.
  unfold settle_all, results_together. cbn [fst snd world].
  split; [now rewrite map_map|]. split; [reflexivity|].
  set (ended := filter _ _).
  assert (Hfold : fold_left
                    (fun (r0 : Run World) (i : nat) =>
                       report World (outcome together started i (world r)) r0) ended r
                  = fold_left (fun r0 x => report World x r0)
                      (map (fun i => outcome together started i (world r)) ended) r).
  { clear. generalize r at 2 4. induction ended as [|i l IH]; intros r0; [reflexivity|].
    cbn [fold_left map]. apply IH. }
  rewrite Hfold.
  destruct (reports_trace (map (fun i => outcome together started i (world r)) ended) r)
    as (_ & added & Hext & Hd & Ho).
  exists added. split; [exact Hext|]. split; assumption.
Qed.


End ParallelFacts.




(** ** Workflows without commands *)

(** C5, as stated, fails: a stored workflow without commands runs to the
    end and is reported as a success. *)
Lemma empty_workflow_run_succeeds :
  let db := Scenario.stored "nightly" [] Scenario.stop_on_error in
  fst (Database.getWorkflow "nightly" 2 db)
  = Some (Database.mkWorkflow
            (Database.mkWorkflowRow 1 "nightly" "" false false [] 0 1 1 None) [])
  /\ fst (fst (Scenario.run db "nightly"))
     = Normal (mkResult true "Workflow completed successfully")
  /\ ~ run_is_refused db "nightly".
Proof.
  intros db. split; [reflexivity|]. split; [reflexivity|].
  unfold run_is_refused. vm_compute. discriminate.
Qed.

(** C5 (amended): [execute] has no check of its own for an empty command
    list.  For a stored workflow without commands, in either mode, it
    starts no command, records no outcome, leaves the system as it was and
    returns [success = true] with the message "Workflow completed
    successfully". *)
Theorem empty_workflow_completes
    (World : Type) (execa : string -> World -> ExecaResult * World)
    (together : Together World) (regexp : RegExp.Engine)
    (name : string) (vars : JsObject.t) (now : Database.Time) (db db' : Database.t)
    (w : World) (workflow : Database.Workflow) (result : completion Result)
    (r' : Run World) :
  fst (Database.getWorkflow name now db) = Some workflow ->
  Database.commands workflow = [] ->
  execute World execa together regexp name vars now db (fresh w) = (result, db', r') ->
  result = Normal (mkResult true "Workflow completed successfully")
  /\ dispatched (trace r') = []
  /\ outcomes (trace r') = []
  /\ world r' = w.
Proof.
  intros Hget Hcmds Hex.
  rewrite (execute_found World execa together regexp name vars now db (fresh w) workflow Hget)
    in Hex.
  unfold execute_workflow, execute_parallel, execute_sequential, dispatch_all in Hex.
  rewrite Hcmds in Hex.
  destruct (Database.parallel (Database.row workflow)).
  - cbn [start_all List.length] in Hex.
    set (r0 := emit World _ _) in Hex.
    destruct (settle_all_spec World together [] r0) as (Hfst & Hw & added & Hext & Hd & Ho).
    destruct (settle_all World together [] r0) as [results r2].
    cbn [fst snd] in Hfst, Hw, Hext. subst results.
    cbn [results_together List.length seq map filter Nat.ltb Nat.leb] in Hex.
    cbn [fst snd emit trace] in Hex. injection Hex as <- _ <-.
    unfold extends in Hext. cbn [emit trace world].
    rewrite Hext, Hw, !dispatched_app, !outcomes_app, Hd, Ho.
    repeat split.
  - simpl in Hex. injection Hex as <- _ <-. repeat split.
Qed.

Lemma empty_workflow_completes_witness :
  let db := Scenario.stored "nightly" [] Scenario.stop_on_error in
  fst (fst (Scenario.run db "nightly"))
  = Normal (mkResult true "Workflow completed successfully")
  /\ dispatched (trace (snd (Scenario.run db "nightly"))) = [].
Proof.
  intros db.
  destruct (empty_workflow_completes nat Scenario.execa Scenario.together Scenario.regexp
              "nightly" [] 2 db
              (snd (fst (Scenario.run db "nightly"))) 0
              (Database.mkWorkflow
                 (Database.mkWorkflowRow 1 "nightly" "" false false [] 0 1 1 None) [])
              (fst (fst (Scenario.run db "nightly"))) (snd (Scenario.run db "nightly")))
    as (H1 & H2 & _).
  - reflexivity.
  - reflexivity.
  - reflexivity.
  - split; [exact H1|exact H2].
Defined.

(** ** Run statistics *)


Lemma find_map_preserving {A : Type} (p : A -> bool) (f : A -> A) (l : list A) (x : A) :
  (forall y, p (f y) = p y) ->
  find p l = Some x -> find p (map f l) = Some (f x).
Proof.
  intros Hp. induction l as [|y l IH]; simpl; [discriminate|].
  rewrite Hp. destruct (p y).
  - now intros [= ->].
  - exact IH.
Qed.



(** * Further properties of the store *)
(* ================================================================== *)

Lemma delete_all_In (ws : list Database.WorkflowRow) (cs : list Database.CommandRow)
    (c : Database.CommandRow) :
  In c (fold_left (fun cs w => Database.delete_commands (Database.id w) cs) ws cs)
  <-> In c cs /\ ~ In (Database.workflow_id c) (map Database.id ws).
Proof.
  revert cs. induction ws as [|w ws IH]; intros cs; simpl.
  - tauto.
  - rewrite IH. unfold Database.delete_commands. rewrite filter_In, negb_true_iff, Nat.eqb_neq.
    split.
    + intros [[H1 H2] H3]. split; [exact H1|]. intros [H|H]; [congruence|contradiction].
    + intros [H1 H2]. split; [split; [exact H1|]|]; intros H; apply H2; auto.
Qed.

Lemma NoDup_map_filter {Row Key : Type} (key : Row -> Key) (keep : Row -> bool)
    (rows : list Row) (Hkeys : NoDup (map key rows)) :
  NoDup (map key (filter keep rows)).
Proof.
  induction rows as [|r rows IH]; cbn [filter map] in *; [constructor|].
  inversion Hkeys as [|? ? Hr Hrows]; subst.
  destruct (keep r); cbn [map]; [|now apply IH].
  constructor; [|now apply IH].
  intros Hin. apply Hr. apply in_map_iff in Hin. destruct Hin as (y & Hy & Hin).
  apply filter_In in Hin. apply in_map_iff. exists y. tauto.
Qed.

Lemma NoDup_snoc {A : Type} (l : list A) (x : A) :
  NoDup l -> ~ In x l -> NoDup (l ++ [x]).
Proof.
  intros Hl Hx. apply NoDup_app; [exact Hl|repeat constructor; intros []|].
  intros y Hy [<-|[]]. contradiction.
Qed.

Lemma insert_commands_rows (wid : nat) (commands : list string) :
  forall (i : nat) (db : Database.t),
    Database.workflow_commands (Database.insert_commands wid commands i db)
    = (Database.workflow_commands db
         ++ command_rows wid commands i (Database.workflow_commands_seq db))%list.
Proof.
  induction commands as [|cmd rest IH]; intros i db; simpl.
  - now rewrite app_nil_r.
  - rewrite IH. simpl. now rewrite <- app_assoc.
Qed.

Lemma well_formed_empty : well_formed Database.empty.
Proof.
  split; [exact ids_bounded_empty|]. split; [constructor|]. split; [constructor|].
  intros c [].
Qed.

Lemma well_formed_saveWorkflow (name : string) (commands : list string)
    (options : Database.Options) (now : Database.Time) (db : Database.t) :
  well_formed db ->
  well_formed (snd (Database.saveWorkflow name commands options now db)).
Proof.
  intros (Hb & Hid & Hnm & Hfk).
  split; [now apply ids_bounded_saveWorkflow|].
  rewrite saveWorkflow_eq. cbn [snd].
  destruct (insert_commands_tables (S (Database.workflows_seq db)) commands 0
              (snd (Database.insert_or_replace_workflow name options now db)))
    as (Hws & _ & Hcs).
  rewrite Hws. unfold Database.insert_or_replace_workflow in *.
  cbn [snd Database.workflows Database.workflow_commands] in *.
  split; [|split].
  - rewrite map_app. simpl. apply NoDup_snoc; [now apply NoDup_map_filter|].
    intros Hin. apply in_map_iff in Hin. destruct Hin as (w & Hw & Hin).
    apply filter_In in Hin. destruct Hb as [Hb _].
    rewrite Forall_forall in Hb. specialize (Hb w (proj1 Hin)). lia.
  - rewrite map_app. simpl. apply NoDup_snoc; [now apply NoDup_map_filter|].
    intros Hin. apply in_map_iff in Hin. destruct Hin as (w & Hw & Hin).
    apply filter_In in Hin. destruct Hin as [_ Hin].
    rewrite Hw, String.eqb_refl in Hin. discriminate.
  - intros c Hc. rewrite Forall_forall in Hcs. specialize (Hcs c Hc).
    destruct Hcs as [Hnew|Hold].
    + eexists. split; [apply in_or_app; right; left; reflexivity|]. simpl. now rewrite Hnew.
    + simpl in Hold. apply delete_all_In in Hold. destruct Hold as [Hin Hnot].
      destruct (Hfk c Hin) as (w & Hw & Hwid).
      exists w. split; [|exact Hwid].
      apply in_or_app. left. apply filter_In. split; [exact Hw|].
      destruct (String.eqb (Database.name w) name) eqn:E; [|reflexivity].
      exfalso. apply Hnot. rewrite <- Hwid. apply in_map. apply filter_In. auto.
Qed.

Lemma well_formed_getWorkflow (name : string) (now : Database.Time) (db : Database.t) :
  well_formed db -> well_formed (snd (Database.getWorkflow name now db)).
Proof.
  intros (Hb & Hid & Hnm & Hfk).
  split; [now apply ids_bounded_getWorkflow|].
  unfold Database.getWorkflow.
  destruct (Database.select_workflow name db) as [w|]; simpl; [|auto].
  assert (Hids : map Database.id
                   (map (fun w0 => if Nat.eqb (Database.id w0) (Database.id w)
                                   then Database.mkWorkflowRow (Database.id w0) (Database.name w0)
                                          (Database.description w0) (Database.parallel w0)
                                          (Database.continue_on_error w0) (Database.variables w0)
                                          (S (Database.execution_count w0))
                                          (Database.created_at w0) (Database.updated_at w0)
                                          (Some now)
                                   else w0) (Database.workflows db))
                 = map Database.id (Database.workflows db)).
  { rewrite map_map. apply map_ext. intros w0.
    destruct (Nat.eqb (Database.id w0) (Database.id w)); reflexivity. }
  assert (Hnames : map Database.name
                   (map (fun w0 => if Nat.eqb (Database.id w0) (Database.id w)
                                   then Database.mkWorkflowRow (Database.id w0) (Database.name w0)
                                          (Database.description w0) (Database.parallel w0)
                                          (Database.continue_on_error w0) (Database.variables w0)
                                          (S (Database.execution_count w0))
                                          (Database.created_at w0) (Database.updated_at w0)
                                          (Some now)
                                   else w0) (Database.workflows db))
                 = map Database.name (Database.workflows db)).
  { rewrite map_map. apply map_ext. intros w0.
    destruct (Nat.eqb (Database.id w0) (Database.id w)); reflexivity. }
  rewrite Hids, Hnames. split; [exact Hid|]. split; [exact Hnm|].
  intros c Hc. destruct (Hfk c Hc) as (w0 & Hw0 & Hwid).
  eexists. split; [apply in_map; exact Hw0|].
  destruct (Nat.eqb (Database.id w0) (Database.id w)); exact Hwid.
Qed.

Lemma well_formed_deleteWorkflow (name : string) (db : Database.t) :
  well_formed db -> well_formed (snd (Database.deleteWorkflow name db)).
Proof.
  intros ((Hbw & Hbc) & Hid & Hnm & Hfk). unfold Database.deleteWorkflow. simpl.
  split; [split|split; [|split]]; simpl.
  - apply Forall_forall. intros w Hw. apply filter_In in Hw.
    rewrite Forall_forall in Hbw. now apply Hbw.
  - apply Forall_forall. intros c Hc. apply delete_all_In in Hc.
    rewrite Forall_forall in Hbc. now apply Hbc.
  - now apply NoDup_map_filter.
  - now apply NoDup_map_filter.
  - intros c Hc. apply delete_all_In in Hc. destruct Hc as [Hin Hnot].
    destruct (Hfk c Hin) as (w & Hw & Hwid).
    exists w. split; [|exact Hwid].
    apply filter_In. split; [exact Hw|].
    destruct (String.eqb (Database.name w) name) eqn:E; [|reflexivity].
    exfalso. apply Hnot. rewrite <- Hwid. apply in_map. apply filter_In. auto.
Qed.

Lemma commands_numbered_deleted (ws : list Database.WorkflowRow)
    (cs : list Database.CommandRow) (counter : nat) :
  Forall (fun c => Database.command_id c <= counter) cs
  /\ NoDup (map Database.command_id cs) ->
  Forall (fun c => Database.command_id c <= counter)
    (fold_left (fun cs w => Database.delete_commands (Database.id w) cs) ws cs)
  /\ NoDup (map Database.command_id
              (fold_left (fun cs w => Database.delete_commands (Database.id w) cs) ws cs)).
Proof.
  revert cs. induction ws as [|w ws IH]; intros cs [Hb Hn]; [now split|].
  cbn [fold_left]. apply IH. split.
  - apply Forall_forall. intros c Hc. unfold Database.delete_commands in Hc.
    apply filter_In in Hc. rewrite Forall_forall in Hb. now apply Hb.
  - unfold Database.delete_commands. now apply NoDup_map_filter.
Qed.

Lemma commands_numbered_insert_commands (wid : nat) (commands : list string) :
  forall (i : nat) (db : Database.t),
    commands_numbered db ->
    commands_numbered (Database.insert_commands wid commands i db).
Proof.
  induction commands as [|cmd rest IH]; intros i db H; [exact H|].
  cbn [Database.insert_commands]. apply IH.
  destruct H as [Hb Hn]. unfold Database.insert_command, commands_numbered.
  cbn [Database.workflow_commands Database.workflow_commands_seq].
  rewrite Forall_forall in Hb. split.
  - apply Forall_forall. intros c Hc. apply in_app_or in Hc.
    destruct Hc as [Hc|[<-|[]]]; [specialize (Hb c Hc); lia|cbn; lia].
  - rewrite map_app. cbn [map Database.command_id]. apply NoDup_snoc; [exact Hn|].
    intros Hin. apply in_map_iff in Hin. destruct Hin as (c & Hid & Hc).
    specialize (Hb c Hc). lia.
Qed.

Lemma commands_numbered_empty : commands_numbered Database.empty.
Proof. split; constructor. Qed.

Lemma commands_numbered_saveWorkflow (name : string) (commands : list string)
    (options : Database.Options) (now : Database.Time) (db : Database.t) :
  commands_numbered db ->
  commands_numbered (snd (Database.saveWorkflow name commands options now db)).
Proof.
  intros H. rewrite saveWorkflow_eq. cbn [snd].
  apply commands_numbered_insert_commands.
  unfold Database.insert_or_replace_workflow, commands_numbered.
  cbn [snd Database.workflow_commands Database.workflow_commands_seq].
  now apply commands_numbered_deleted.
Qed.

Lemma commands_numbered_getWorkflow (name : string) (now : Database.Time)
    (db : Database.t) :
  commands_numbered db -> commands_numbered (snd (Database.getWorkflow name now db)).
Proof.
  intros H. unfold Database.getWorkflow.
  destruct (Database.select_workflow name db); exact H.
Qed.

Lemma commands_numbered_deleteWorkflow (name : string) (db : Database.t) :
  commands_numbered db -> commands_numbered (snd (Database.deleteWorkflow name db)).
Proof.
  intros H. unfold Database.deleteWorkflow, commands_numbered.
  cbn [snd Database.workflow_commands Database.workflow_commands_seq].
  now apply commands_numbered_deleted.
Qed.

(** X1: the empty store is well formed, and [saveWorkflow], [getWorkflow]
    and [deleteWorkflow] keep the store well formed: the ids of the
    workflow rows within their counter, one row per id and per name, no
    command row without its workflow; and they keep the command rows
    numbered: distinct ids, none above the counter of the command
    table. *)
Theorem store_stays_well_formed (db : Database.t) :
  (well_formed Database.empty /\ commands_numbered Database.empty)
  /\ (well_formed db ->
      (forall name commands options now,
          well_formed (snd (Database.saveWorkflow name commands options now db)))
      /\ (forall name now, well_formed (snd (Database.getWorkflow name now db)))
      /\ (forall name, well_formed (snd (Database.deleteWorkflow name db))))
  /\ (commands_numbered db ->
      (forall name commands options now,
          commands_numbered (snd (Database.saveWorkflow name commands options now db)))
      /\ (forall name now, commands_numbered (snd (Database.getWorkflow name now db)))
      /\ (forall name, commands_numbered (snd (Database.deleteWorkflow name db)))).
Proof.
  split; [split; [exact well_formed_empty|exact commands_numbered_empty]|].
  split; intros H; (split; [|split]).
  - intros. now apply well_formed_saveWorkflow.
  - intros. now apply well_formed_getWorkflow.
  - intros. now apply well_formed_deleteWorkflow.
  - intros. now apply commands_numbered_saveWorkflow.
  - intros. now apply commands_numbered_getWorkflow.
  - intros. now apply commands_numbered_deleteWorkflow.
Qed.

Lemma store_stays_well_formed_witness :
  let saved := snd (Database.saveWorkflow "ci" ["make"; "make test"]
                      Database.no_options 1 Database.empty) in
  (well_formed saved /\ commands_numbered saved)
  /\ (well_formed (snd (Database.getWorkflow "ci" 2 saved))
      /\ commands_numbered (snd (Database.getWorkflow "ci" 2 saved)))
  /\ (well_formed (snd (Database.deleteWorkflow "ci" saved))
      /\ commands_numbered (snd (Database.deleteWorkflow "ci" saved))).
Proof.
  intros saved.
  destruct (store_stays_well_formed Database.empty) as ([W0 N0] & HW & HN).
  destruct (HW W0) as (Ws & _ & _). destruct (HN N0) as (Ns & _ & _).
  pose proof (Ws "ci" ["make"; "make test"] Database.no_options 1) as W1.
  pose proof (Ns "ci" ["make"; "make test"] Database.no_options 1) as N1.
  destruct (store_stays_well_formed saved) as (_ & HW' & HN').
  destruct (HW' W1) as (_ & Wg & Wd). destruct (HN' N1) as (_ & Ng & Nd).
  split; [split; [exact W1|exact N1]|].
  split; [split; [exact (Wg "ci" 2)|exact (Ng "ci" 2)]|].
  split; [exact (Wd "ci")|exact (Nd "ci")].
Defined.

Lemma filter_absorb {A : Type} (p q : A -> bool) (l : list A) :
  (forall x, In x l -> p x = true -> q x = true) ->
  filter p (filter q l) = filter p l.
Proof.
  induction l as [|x l IH]; intros H; simpl; [reflexivity|].
  assert (IH' : filter p (filter q l) = filter p l).
  { apply IH. intros y Hy. apply H. now right. }
  destruct (q x) eqn:Q; simpl; rewrite IH'; [reflexivity|].
  destruct (p x) eqn:P; [|reflexivity].
  rewrite (H x (or_introl eq_refl) P) in Q. discriminate.
Qed.

Lemma find_filter_same {A : Type} (p q : A -> bool) (l : list A) :
  (forall x, p x = true -> q x = true) ->
  find p (filter q l) = find p l.
Proof.
  intros H. induction l as [|x l IH]; simpl; [reflexivity|].
  destruct (q x) eqn:Q; simpl.
  - destruct (p x); [reflexivity|exact IH].
  - destruct (p x) eqn:P; [|exact IH].
    rewrite (H x P) in Q. discriminate.
Qed.

Lemma find_filter_none {A : Type} (p q : A -> bool) (l : list A) :
  (forall x, q x = true -> p x = false) ->
  find p (filter q l) = None.
Proof.
  intros H. induction l as [|x l IH]; simpl; [reflexivity|].
  destruct (q x) eqn:Q; simpl; [|exact IH].
  now rewrite (H x Q).
Qed.

Lemma find_snoc_other {A : Type} (p : A -> bool) (l : list A) (x : A) :
  p x = false -> find p (l ++ [x]) = find p l.
Proof.
  intros H. induction l as [|y l IH]; simpl; [now rewrite H|].
  destruct (p y); [reflexivity|exact IH].
Qed.

Lemma find_none_filter {A : Type} (p : A -> bool) (l : list A) :
  find p l = None <-> filter p l = [].
Proof.
  induction l as [|x l IH]; simpl; [tauto|].
  destruct (p x); [split; discriminate|exact IH].
Qed.

Lemma NoDup_map_inj {A B : Type} (f : A -> B) (l : list A) (x y : A) :
  NoDup (map f l) -> In x l -> In y l -> f x = f y -> x = y.
Proof.
  induction l as [|z l IH]; simpl; intros H Hx Hy E; [contradiction|].
  inversion H as [|? ? Hz Hl]; subst.
  destruct Hx as [->|Hx], Hy as [->|Hy].
  - reflexivity.
  - exfalso. apply Hz. rewrite E. now apply in_map.
  - exfalso. apply Hz. rewrite <- E. now apply in_map.
  - now apply IH.
Qed.

Lemma filter_delete_all (wid : nat) (ws : list Database.WorkflowRow)
    (cs : list Database.CommandRow) :
  ~ In wid (map Database.id ws) ->
  filter (fun c => Nat.eqb (Database.workflow_id c) wid)
    (fold_left (fun cs w => Database.delete_commands (Database.id w) cs) ws cs)
  = filter (fun c => Nat.eqb (Database.workflow_id c) wid) cs.
Proof.
  revert cs. induction ws as [|w ws IH]; intros cs H; simpl; [reflexivity|].
  rewrite IH by (intros Hin; apply H; now right).
  unfold Database.delete_commands. apply filter_absorb.
  intros c _ Hc. apply Nat.eqb_eq in Hc. apply negb_true_iff, Nat.eqb_neq.
  intros E. apply H. left. congruence.
Qed.

Lemma command_rows_filter (wid wid' : nat) (commands : list string) (i cid : nat) :
  filter (fun c => Nat.eqb (Database.workflow_id c) wid') (command_rows wid commands i cid)
  = if Nat.eqb wid wid' then command_rows wid commands i cid else [].
Proof.
  revert i cid. induction commands as [|cmd rest IH]; intros i cid; simpl.
  - now destruct (Nat.eqb wid wid').
  - rewrite IH. now destruct (Nat.eqb wid wid').
Qed.

Lemma command_rows_ordered (wid : nat) (commands : list string) :
  forall i cid,
    Database.order_by_index (command_rows wid commands i cid)
    = command_rows wid commands i cid.
Proof.
  unfold Database.order_by_index.
  induction commands as [|cmd rest IH]; intros i cid; simpl; [reflexivity|].
  rewrite IH. destruct rest as [|cmd' rest']; simpl; [reflexivity|].
  replace (Nat.ltb i (S i)) with true; [reflexivity|].
  symmetry. apply Nat.ltb_lt. lia.
Qed.

Lemma command_rows_commands (wid : nat) (commands : list string) :
  forall i cid, map Database.command (command_rows wid commands i cid) = commands.
Proof.
  induction commands as [|cmd rest IH]; intros i cid; simpl; [reflexivity|].
  now rewrite IH.
Qed.

(** The commands a workflow id has after [saveWorkflow]: the saved ones
    for the new row, the old ones for a row that is kept. *)
Lemma select_commands_saved (name : string) (commands : list string)
    (options : Database.Options) (now : Database.Time) (db : Database.t) (wid : nat) :
  ids_bounded db ->
  (wid <= Database.workflows_seq db ->
   ~ In wid (map Database.id
               (filter (fun w => String.eqb (Database.name w) name) (Database.workflows db)))) ->
  Database.select_commands wid (snd (Database.saveWorkflow name commands options now db))
  = if Nat.eqb (S (Database.workflows_seq db)) wid then commands
    else Database.select_commands wid db.
Proof.
  intros [_ Hbc] Hkeep. rewrite saveWorkflow_eq. cbn [snd].
  unfold Database.select_commands. rewrite insert_commands_rows.
  unfold Database.insert_or_replace_workflow. cbn [snd Database.workflow_commands].
  rewrite filter_app, command_rows_filter.
  destruct (Nat.eqb (S (Database.workflows_seq db)) wid) eqn:E.
  - apply Nat.eqb_eq in E. subst wid.
    rewrite (filter_nil_iff _ (fold_left _ _ _)).
    + simpl. now rewrite command_rows_ordered, command_rows_commands.
    + intros c Hc. apply delete_all_In in Hc. destruct Hc as [Hc _].
      rewrite Forall_forall in Hbc. specialize (Hbc c Hc).
      apply Nat.eqb_neq. lia.
  - rewrite app_nil_r.
    destruct (Nat.leb wid (Database.workflows_seq db)) eqn:L.
    + apply Nat.leb_le in L. now rewrite filter_delete_all by auto.
    + apply Nat.leb_gt in L.
      rewrite !filter_nil_iff; [reflexivity| |].
      * intros c Hc. rewrite Forall_forall in Hbc. specialize (Hbc c Hc).
        apply Nat.eqb_neq. lia.
      * intros c Hc. apply delete_all_In in Hc. destruct Hc as [Hc _].
        rewrite Forall_forall in Hbc. specialize (Hbc c Hc).
        apply Nat.eqb_neq. lia.
Qed.

Lemma select_workflow_saved (name : string) (commands : list string)
    (options : Database.Options) (now : Database.Time) (db : Database.t) (other : string) :
  Database.select_workflow other (snd (Database.saveWorkflow name commands options now db))
  = if String.eqb name other
    then Some (saved_row (S (Database.workflows_seq db)) name options now)
    else Database.select_workflow other db.
Proof.
  rewrite saveWorkflow_eq. cbn [snd]. unfold Database.select_workflow.
  destruct (insert_commands_tables (S (Database.workflows_seq db)) commands 0
              (snd (Database.insert_or_replace_workflow name options now db)))
    as (-> & _ & _).
  unfold Database.insert_or_replace_workflow. cbn [snd Database.workflows].
  destruct (String.eqb name other) eqn:E.
  - apply String.eqb_eq in E. subst other.
    apply find_app_fresh.
    + intros y Hy. apply filter_In in Hy. now apply negb_true_iff.
    + simpl. apply String.eqb_refl.
  - rewrite find_snoc_other by (simpl; exact E).
    apply find_filter_same. intros x Hx. apply String.eqb_eq in Hx.
    rewrite Hx, String.eqb_sym, E. reflexivity.
Qed.

Lemma fetch_after_save (name : string) (commands : list string)
    (options : Database.Options) (now later : Database.Time) (db : Database.t) :
  ids_bounded db ->
  fst (Database.getWorkflow name later
         (snd (Database.saveWorkflow name commands options now db)))
  = Some (Database.mkWorkflow
            (saved_row (S (Database.workflows_seq db)) name options now) commands).
Proof.
  intros Hb. unfold Database.getWorkflow.
  rewrite select_workflow_saved, String.eqb_refl. cbn [fst].
  rewrite select_commands_saved; [|exact Hb|].
  - cbn [Database.id saved_row]. now rewrite Nat.eqb_refl.
  - cbn [Database.id saved_row]. lia.
Qed.

(** X2: what [saveWorkflow] stores, [getWorkflow] gives back: the same
    commands in the same order, the settings of [options], and fresh
    statistics (no execution, never executed) - also when the name was
    already stored, whose commands and statistics are then gone. *)
Theorem saved_workflow_is_fetched (name : string) (commands : list string)
    (options : Database.Options) (now later : Database.Time) (db : Database.t) :
  ids_bounded db ->
  fst (Database.getWorkflow name later
         (snd (Database.saveWorkflow name commands options now db)))
  = Some (Database.mkWorkflow
            (saved_row (S (Database.workflows_seq db)) name options now) commands).
Proof. apply fetch_after_save. Qed.

Lemma saved_workflow_is_fetched_witness :
  let db := Scenario.stored "deploy" ["echo old"] Scenario.keep_going in
  fst (Database.getWorkflow "deploy" 9
         (snd (Database.saveWorkflow "deploy" ["echo build"; "echo push"]
                 Scenario.side_by_side 5 db)))
  = Some (Database.mkWorkflow
            (Database.mkWorkflowRow 2 "deploy" "" true false [] 0 5 5 None)
            ["echo build"; "echo push"]).
Proof.
  intros db.
  apply (saved_workflow_is_fetched "deploy" ["echo build"; "echo push"]
           Scenario.side_by_side 5 9 db).
  split; repeat constructor.
Defined.

Lemma kept_row_not_replaced (name : string) (db : Database.t) (w : Database.WorkflowRow) :
  NoDup (map Database.id (Database.workflows db)) ->
  In w (Database.workflows db) ->
  Database.name w <> name ->
  ~ In (Database.id w)
      (map Database.id
         (filter (fun w => String.eqb (Database.name w) name) (Database.workflows db))).
Proof.
  intros Hid Hw Hn Hin. apply in_map_iff in Hin. destruct Hin as (r & Hr & Hin).
  apply filter_In in Hin. destruct Hin as [Hin Hname].
  apply String.eqb_eq in Hname.
  assert (r = w) by (apply (NoDup_map_inj Database.id (Database.workflows db)); auto).
  congruence.
Qed.

Lemma fetch_other_after_save (name other : string) (commands : list string)
    (options : Database.Options) (now later : Database.Time) (db : Database.t) :
  well_formed db ->
  other <> name ->
  fst (Database.getWorkflow other later
         (snd (Database.saveWorkflow name commands options now db)))
  = fst (Database.getWorkflow other later db).
Proof.
  intros (Hb & Hid & _ & _) Hne. unfold Database.getWorkflow.
  rewrite select_workflow_saved.
  destruct (String.eqb name other) eqn:E; [apply String.eqb_eq in E; congruence|].
  destruct (Database.select_workflow other db) as [w|] eqn:S; [|reflexivity].
  cbn [fst]. f_equal. f_equal.
  unfold Database.select_workflow in S. apply find_some in S. destruct S as [Hw Hname].
  apply String.eqb_eq in Hname.
  rewrite select_commands_saved; [| exact Hb |].
  - destruct Hb as [Hbw _]. rewrite Forall_forall in Hbw. specialize (Hbw w Hw).
    replace (Nat.eqb (S (Database.workflows_seq db)) (Database.id w)) with false;
      [reflexivity|].
    symmetry. apply Nat.eqb_neq. lia.
  - intros _. apply kept_row_not_replaced; [exact Hid|exact Hw|congruence].
Qed.

(** X3: saving a workflow leaves every other workflow as it was: what
    [getWorkflow] returns for another name is the same before and after. *)
Theorem other_workflows_survive_a_save (name other : string) (commands : list string)
    (options : Database.Options) (now later : Database.Time) (db : Database.t) :
  well_formed db ->
  other <> name ->
  fst (Database.getWorkflow other later
         (snd (Database.saveWorkflow name commands options now db)))
  = fst (Database.getWorkflow other later db).
Proof. apply fetch_other_after_save. Qed.

Lemma other_workflows_survive_a_save_witness :
  let db := Scenario.stored "deploy" ["echo build"; "echo push"] Scenario.stop_on_error in
  fst (Database.getWorkflow "deploy" 9
         (snd (Database.saveWorkflow "ci" ["make"] Database.no_options 5 db)))
  = fst (Database.getWorkflow "deploy" 9 db).
Proof.
  intros db.
  apply (other_workflows_survive_a_save "ci" "deploy" ["make"] Database.no_options 5 9 db).
  - exact (well_formed_saveWorkflow "deploy" ["echo build"; "echo push"]
             Scenario.stop_on_error 1 Database.empty well_formed_empty).
  - discriminate.
Defined.


Lemma select_workflow_deleted (name other : string) (db : Database.t) :
  Database.select_workflow other (snd (Database.deleteWorkflow name db))
  = if String.eqb name other then None else Database.select_workflow other db.
Proof.
  unfold Database.deleteWorkflow, Database.select_workflow. cbn [snd Database.workflows].
  destruct (String.eqb name other) eqn:E.
  - apply String.eqb_eq in E. subst other.
    apply find_filter_none. intros x Hx. now apply negb_true_iff.
  - apply find_filter_same. intros x Hx. apply String.eqb_eq in Hx.
    rewrite Hx, String.eqb_sym, E. reflexivity.
Qed.

Lemma filter_all {A : Type} (p : A -> bool) (l : list A) :
  (forall x, In x l -> p x = true) -> filter p l = l.
Proof.
  induction l as [|x l IH]; intros H; simpl; [reflexivity|].
  rewrite (H x (or_introl eq_refl)). f_equal. apply IH. intros y Hy. apply H. now right.
Qed.

Lemma deleteWorkflow_absent (name : string) (db : Database.t) :
  Database.select_workflow name db = None ->
  Database.deleteWorkflow name db = (false, db).
Proof.
  intros H. unfold Database.select_workflow in H.
  pose proof (proj1 (find_none_filter _ _) H) as Hf.
  unfold Database.deleteWorkflow. rewrite Hf. simpl.
  rewrite filter_all.
  - now destruct db.
  - intros x Hx. apply negb_true_iff.
    destruct (String.eqb (Database.name x) name) eqn:E; [|reflexivity].
    exfalso. assert (Hin : In x (filter (fun w => String.eqb (Database.name w) name)
                                   (Database.workflows db))) by (apply filter_In; auto).
    rewrite Hf in Hin. contradiction.
Qed.

(** X4: [remove] answers "removed" exactly when the name is stored, and
    "not found" otherwise, in which case the store is unchanged.
    Afterwards the name is not stored, no command row of a workflow of
    that name is left, and every other workflow is fetched as before. *)
Theorem remove_deletes_workflow_and_commands (name : string) (later : Database.Time)
    (db : Database.t) :
  well_formed db ->
  fst (WorkflowManager.remove name db)
  = (match Database.select_workflow name db with
     | Some _ => mkResult true ("Workflow '" ++ name ++ "' removed")
     | None => mkResult false ("Workflow '" ++ name ++ "' not found")
     end)
  /\ (Database.select_workflow name db = None -> snd (WorkflowManager.remove name db) = db)
  /\ fst (Database.getWorkflow name later (snd (WorkflowManager.remove name db))) = None
  /\ (forall w c,
         In w (Database.workflows db) -> Database.name w = name ->
         In c (Database.workflow_commands (snd (WorkflowManager.remove name db))) ->
         Database.workflow_id c <> Database.id w)
  /\ (forall other,
         other <> name ->
         fst (Database.getWorkflow other later (snd (WorkflowManager.remove name db)))
         = fst (Database.getWorkflow other later db)).
Proof.
  intros (Hb & Hid & _ & _).
  assert (Hsnd : snd (WorkflowManager.remove name db) = snd (Database.deleteWorkflow name db)).
  { unfold WorkflowManager.remove.
    destruct (Database.deleteWorkflow name db) as [[|] db']; reflexivity. }
  rewrite Hsnd.
  split; [|split; [|split; [|split]]].
  - unfold WorkflowManager.remove.
    destruct (Database.select_workflow name db) as [w|] eqn:S.
    + unfold Database.deleteWorkflow, Database.select_workflow in *.
      destruct (filter _ (Database.workflows db)) as [|r rs] eqn:F.
      * apply find_none_filter in F. congruence.
      * reflexivity.
    + now rewrite (deleteWorkflow_absent name db S).
  - intros S. now rewrite (deleteWorkflow_absent name db S).
  - unfold Database.getWorkflow.
    now rewrite select_workflow_deleted, String.eqb_refl.
  - intros w c Hw Hname Hc E.
    unfold Database.deleteWorkflow in Hc. cbn [snd Database.workflow_commands] in Hc.
    apply delete_all_In in Hc. destruct Hc as [_ Hnot]. apply Hnot.
    rewrite E. apply in_map. apply filter_In. split; [exact Hw|].
    now apply String.eqb_eq.
  - intros other Hne. unfold Database.getWorkflow.
    rewrite select_workflow_deleted.
    destruct (String.eqb name other) eqn:E; [apply String.eqb_eq in E; congruence|].
    destruct (Database.select_workflow other db) as [w|] eqn:S; [|reflexivity].
    cbn [fst]. f_equal. f_equal.
    unfold Database.select_workflow in S. apply find_some in S. destruct S as [Hw Hname].
    apply String.eqb_eq in Hname.
    unfold Database.select_commands, Database.deleteWorkflow.
    cbn [snd Database.workflow_commands].
    rewrite filter_delete_all; [reflexivity|].
    apply kept_row_not_replaced; [exact Hid|exact Hw|congruence].
Qed.

Lemma remove_deletes_workflow_and_commands_witness :
  let db := Scenario.stored "deploy" ["echo build"; "echo push"] Scenario.stop_on_error in
  fst (WorkflowManager.remove "deploy" db) = mkResult true "Workflow 'deploy' removed"
  /\ fst (Database.getWorkflow "deploy" 9 (snd (WorkflowManager.remove "deploy" db))) = None
  /\ snd (WorkflowManager.remove "ci" db) = db.
Proof.
  intros db.
  assert (Hwf : well_formed db).
  { exact (well_formed_saveWorkflow "deploy" ["echo build"; "echo push"]
             Scenario.stop_on_error 1 Database.empty well_formed_empty). }
  destruct (remove_deletes_workflow_and_commands "deploy" 9 db Hwf) as (H1 & _ & H3 & _).
  destruct (remove_deletes_workflow_and_commands "ci" 9 db Hwf) as (_ & H2 & _).
  split; [exact H1|]. split; [exact H3|]. apply H2. reflexivity.
Defined.

(** X5: a workflow that has been removed cannot be run: [execute] answers
    that it is not found, starts no command, and leaves the store as
    [remove] left it. *)
Theorem removed_workflow_does_not_run
    (World : Type) (execa : string -> World -> ExecaResult * World)
    (together : Together World) (regexp : RegExp.Engine)
    (name : string) (vars : JsObject.t) (now : Database.Time) (db : Database.t) (w : World) :
  execute World execa together regexp name vars now (snd (WorkflowManager.remove name db))
    (fresh w)
  = (Normal (mkResult false ("Workflow '" ++ name ++ "' not found")),
     snd (WorkflowManager.remove name db),
     mkRun w [Log (newline ++ "Executing workflow: " ++ name)]).
Proof.
  assert (Hsnd : snd (WorkflowManager.remove name db) = snd (Database.deleteWorkflow name db)).
  { unfold WorkflowManager.remove.
    destruct (Database.deleteWorkflow name db) as [[|] db']; reflexivity. }
  rewrite Hsnd. unfold execute, Database.getWorkflow.
  now rewrite select_workflow_deleted, String.eqb_refl.
Qed.


Lemma texts_strings (commands : list string) :
  Database.texts (map Some commands) = Some commands.
Proof.
  induction commands as [|c cs IH]; [reflexivity|].
  cbn [map Database.texts]. now rewrite IH.
Qed.

Lemma fetch_stored (name : string) (now : Database.Time) (db : Database.t)
    (w : Database.WorkflowRow) :
  Database.select_workflow name db = Some w ->
  Database.getWorkflow name now db
  = (Some (Database.mkWorkflow w (Database.select_commands (Database.id w) db)),
     Database.update_execution_stats (Database.id w) now db).
Proof. intros H. unfold Database.getWorkflow. now rewrite H. Qed.

Lemma select_after_fetch (name : string) (now : Database.Time) (db : Database.t)
    (w : Database.WorkflowRow) :
  Database.select_workflow name db = Some w ->
  Database.select_workflow name (Database.update_execution_stats (Database.id w) now db)
  = Some (executed_once_more now w).
Proof.
  intros H. unfold Database.select_workflow in *. simpl.
  rewrite (find_map_preserving _ _ _ w); [| |exact H].
  - rewrite Nat.eqb_refl. reflexivity.
  - intros y. destruct (Nat.eqb (Database.id y) (Database.id w)); reflexivity.
Qed.

(** X6: [duplicate] with no option stores under [target] a workflow with
    the commands, description, mode, error policy and variables of
    [source] and fresh statistics; the fetch of the source counts as one
    execution of it; an unknown source is refused and the store is left
    unchanged. *)
Theorem duplicate_copies_the_workflow (source target : string)
    (now later after : Database.Time) (db : Database.t) :
  well_formed db ->
  target <> EmptyString ->
  (forall w,
      Database.select_workflow source db = Some w ->
      fst (WorkflowManager.duplicate source target WorkflowManager.no_duplicate_options
             now later db)
      = mkResult true
          ("Workflow '" ++ target ++ "' saved with "
             ++ JsString.of_nat
                  (List.length (Database.select_commands (Database.id w) db))
             ++ " commands")
      /\ fst (Database.getWorkflow target after
                (snd (WorkflowManager.duplicate source target
                        WorkflowManager.no_duplicate_options now later db)))
         = Some (Database.mkWorkflow
                   (Database.mkWorkflowRow (S (Database.workflows_seq db)) target
                      (Database.description w) (Database.parallel w)
                      (Database.continue_on_error w) (Database.variables w)
                      0 later later None)
                   (Database.select_commands (Database.id w) db))
      /\ (target <> source ->
          fst (Database.getWorkflow source after
                 (snd (WorkflowManager.duplicate source target
                         WorkflowManager.no_duplicate_options now later db)))
          = Some (Database.mkWorkflow (executed_once_more now w)
                    (Database.select_commands (Database.id w) db))))
  /\ (Database.select_workflow source db = None ->
      WorkflowManager.duplicate source target WorkflowManager.no_duplicate_options
        now later db
      = (mkResult false ("Source workflow '" ++ source ++ "' not found"), db)).
Proof.
  intros Hwf Htarget. split.
  - intros w Hw.
    unfold WorkflowManager.duplicate. rewrite (fetch_stored source now db w Hw).
    cbn [WorkflowManager.dup_description WorkflowManager.dup_parallel
         WorkflowManager.dup_continueOnError WorkflowManager.dup_variables
         WorkflowManager.no_duplicate_options Database.row Database.commands].
    set (db1 := Database.update_execution_stats (Database.id w) now db).
    set (cmds := Database.select_commands (Database.id w) db).
    set (opts := Database.mkOptions _ _ _ _).
    assert (Hdb1 : db1 = snd (Database.getWorkflow source now db)).
    { now rewrite (fetch_stored source now db w Hw). }
    assert (Hwf1 : well_formed db1) by (rewrite Hdb1; now apply well_formed_getWorkflow).
    unfold save.
    destruct (String.eqb target "") eqn:E; [apply String.eqb_eq in E; contradiction|].
    cbn [orb falsy_commands commandArray].
    unfold Database.saveWorkflow_values. rewrite texts_strings.
    rewrite saveWorkflow_eq. cbn [fst snd]. rewrite length_map.
    split; [reflexivity|]. split.
    + pose proof (fetch_after_save target cmds opts later after db1 (proj1 Hwf1)) as H.
      rewrite saveWorkflow_eq in H. cbn [snd] in H. exact H.
    + intros Hne.
      pose proof (fetch_other_after_save target source cmds opts later after db1 Hwf1
                    (fun e => Hne (eq_sym e))) as H.
      rewrite saveWorkflow_eq in H. cbn [snd] in H. rewrite H.
      unfold Database.getWorkflow. unfold db1.
      rewrite (select_after_fetch source now db w Hw). reflexivity.
  - intros Hnone. unfold WorkflowManager.duplicate, Database.getWorkflow.
    now rewrite Hnone.
Qed.

Lemma duplicate_copies_the_workflow_witness :
  let db := Scenario.stored "morning" ["git pull"; "npm install"] Scenario.keep_going in
  fst (Database.getWorkflow "evening" 9
         (snd (WorkflowManager.duplicate "morning" "evening"
                 WorkflowManager.no_duplicate_options 2 3 db)))
  = Some (Database.mkWorkflow
            (Database.mkWorkflowRow 2 "evening" "" false true [] 0 3 3 None)
            ["git pull"; "npm install"])
  /\ WorkflowManager.duplicate "noon" "evening" WorkflowManager.no_duplicate_options 2 3 db
     = (mkResult false "Source workflow 'noon' not found", db).
Proof.
  intros db.
  assert (Hwf : well_formed db).
  { exact (well_formed_saveWorkflow "morning" ["git pull"; "npm install"]
             Scenario.keep_going 1 Database.empty well_formed_empty). }
  destruct (duplicate_copies_the_workflow "morning" "evening" 2 3 9 db Hwf) as [H1 _];
    [discriminate|].
  destruct (duplicate_copies_the_workflow "noon" "evening" 2 3 9 db Hwf) as [_ H2];
    [discriminate|].
  split.
  - exact (proj1 (proj2 (H1 (Database.mkWorkflowRow 1 "morning" "" false true [] 0 1 1 None)
                           eq_refl))).
  - apply H2. reflexivity.
Defined.

(* ================================================================== *)
(** * Further properties of runs *)
(* ================================================================== *)

(** X7: in a sequential run, if the process of every command exits with
    status 0, the commands resolving to [resolved], then every command is
    started, in order, each in the system the one before has left; each
    is marked as a success; the last line logged is the one of a
    completed workflow; and the run returns [success = true] with
    "Workflow completed successfully", whatever the error policy. *)
Theorem sequential_run_without_failure
    (World : Type) (execa : string -> World -> ExecaResult * World)
    (together : Together World) (regexp : RegExp.Engine)
    (name : string) (vars : JsObject.t) (now : Database.Time) (db : Database.t)
    (w : World) (workflow : Database.Workflow) (resolved : list string) :
  fst (Database.getWorkflow name now db) = Some workflow ->
  Database.parallel (Database.row workflow) = false ->
  resolve_all regexp (merged workflow vars) (Database.commands workflow) = Normal resolved ->
  forallb exited (fst (in_turn execa resolved w)) = true ->
  exists r',
    execute World execa together regexp name vars now db (fresh w)
    = (Normal (mkResult true "Workflow completed successfully"),
       snd (Database.getWorkflow name now db), r')
    /\ dispatched (trace r') = resolved
    /\ outcomes (trace r')
       = marks (List.length resolved) 0 (repeat true (List.length resolved)) resolved
    /\ last (trace r') SpinnerStop = Log "✓ Workflow completed successfully"
    /\ world r' = snd (in_turn execa resolved w).
Proof.
  intros Hget Hpar Hres Hall.
  rewrite (execute_found World execa together regexp name vars now db (fresh w) workflow Hget).
  unfold execute_workflow. rewrite Hpar. fold (merged workflow vars).
  destruct (execute_sequential_spec World execa regexp workflow (merged workflow vars)
              resolved
              (emit World (Log (newline ++ "Executing workflow: " ++ name)) (fresh w))
              eq_refl eq_refl Hres)
    as (k & result & r' & Hrun & Hk & Hworld & Hdis & Hout & _ & Hcase).
  cbn [emit world fresh] in Hworld, Hout, Hcase.
  rewrite Hrun. cbn [fst snd].
  destruct Hcase as [(_ & j & _ & _ & (stderr & m & Hrej) & _)|(-> & _ & Hok & _)].
  - exfalso. exact (all_exited_no_rejected _ j stderr m Hall Hrej).
  - destruct (Hok (or_introl Hall)) as [-> Hlast].
    rewrite firstn_all in Hdis, Hworld.
    rewrite <- (in_turn_length execa resolved w) in Hout at 2.
    rewrite firstn_all, (all_exited_flags _ Hall), in_turn_length in Hout.
    exists r'. split; [reflexivity|]. split; [exact Hdis|]. split; [exact Hout|].
    split; [exact Hlast|exact Hworld].
Qed.

Lemma sequential_run_without_failure_witness :
  let db := Scenario.stored "deploy" ["echo build"; "echo push"] Scenario.keep_going in
  exists r',
    Scenario.run db "deploy"
    = (Normal (mkResult true "Workflow completed successfully"),
       snd (Database.getWorkflow "deploy" 2 db), r')
    /\ dispatched (trace r') = ["echo build"; "echo push"]
    /\ outcomes (trace r') = [(true, "[1/2] echo build"); (true, "[2/2] echo push")]
    /\ last (trace r') SpinnerStop = Log "✓ Workflow completed successfully"
    /\ world r' = 2.
Proof.
  intros db.
  exact (sequential_run_without_failure nat Scenario.execa Scenario.together Scenario.regexp
           "deploy" [] 2 db 0
           (Database.mkWorkflow
              (Database.mkWorkflowRow 1 "deploy" "" false true [] 0 1 1 None)
              ["echo build"; "echo push"])
           ["echo build"; "echo push"] eq_refl eq_refl eq_refl eq_refl).
Defined.

Lemma reasons_rejected (results : list Settled) :
  reasons (filter is_rejected results) = reasons results.
Proof.
  induction results as [|[out|reason] results IH]; simpl; [reflexivity|exact IH|].
  now rewrite IH.
Qed.

Lemma log_failed_trace (World : Type) (results : list Settled) :
  forall (i : nat) (r : Run World),
    log_failed World (filter is_rejected results) i r
    = mkRun (world r) (trace r ++ failure_log (reasons results) i).
Proof.
  induction results as [|[out|reason] rest IH]; intros i r.
  - simpl. rewrite app_nil_r. now destruct r.
  - simpl. apply IH.
  - simpl. rewrite IH. simpl. now rewrite <- app_assoc.
Qed.

(** X8: when commands of a parallel run fail, the run stops the spinner,
    logs how many failed, and then one line per failure in the order of
    the commands; the lines are numbered 1, 2, ... by rank among the
    failures, not by the position of the command in the workflow. *)
Theorem parallel_failures_are_numbered_by_rank
    (World : Type) (execa : string -> World -> ExecaResult * World)
    (together : Together World) (regexp : RegExp.Engine)
    (name : string) (vars : JsObject.t) (now : Database.Time) (db db' : Database.t)
    (w : World) (workflow : Database.Workflow) (result : completion Result)
    (r' : Run World) (results : list Settled) (r2 : Run World) :
  fst (Database.getWorkflow name now db) = Some workflow ->
  Database.parallel (Database.row workflow) = true ->
  execute World execa together regexp name vars now db (fresh w) = (result, db', r') ->
  dispatch_all World together regexp (merged workflow vars) (Database.commands workflow)
    (announced name (List.length (Database.commands workflow)) w)
  = (Normal results, r2) ->
  reasons results <> [] ->
  trace r'
  = (trace r2
       ++ [SpinnerStop;
           Log (JsString.of_nat (List.length (reasons results)) ++ " commands failed")]
       ++ failure_log (reasons results) 0)%list.
Proof.
  intros Hget Hpar Hex Hdis Hsome.
  rewrite (execute_found World execa together regexp name vars now db (fresh w) workflow Hget)
    in Hex.
  unfold execute_workflow in Hex. rewrite Hpar in Hex.
  fold (merged workflow vars) in Hex.
  unfold execute_parallel in Hex.
  change (emit World (SpinnerStart _) (emit World (Log _) (fresh w)))
    with (announced name (List.length (Database.commands workflow)) w) in Hex.
  rewrite Hdis in Hex.
  assert (Hlen : List.length (filter is_rejected results) = List.length (reasons results)).
  { clear. induction results as [|[out|reason] rest IH]; simpl; [reflexivity|exact IH|].
    now rewrite IH. }
  rewrite Hlen in Hex.
  destruct (reasons results) as [|reason rest] eqn:R; [contradiction|].
  cbn [List.length Nat.ltb Nat.leb] in Hex.
  rewrite log_failed_trace, R in Hex.
  cbn [fst snd] in Hex. injection Hex as _ _ <-.
  cbn [trace emit]. rewrite <- !app_assoc. reflexivity.
Qed.

Lemma parallel_failures_are_numbered_by_rank_witness :
  let db := Scenario.stored "checks" ["echo a"; "echo b"; "false"] Scenario.side_by_side in
  trace (snd (Scenario.run db "checks"))
  = [Log (newline ++ "Executing workflow: checks");
     SpinnerStart "Running 3 commands in parallel...";
     Exec "echo a"; Exec "echo b"; Exec "false";
     SpinnerStop;
     Log "1 commands failed";
     Log "  Command 1: Error: Command failed with exit code 1: false"].
Proof.
  intros db.
  apply (parallel_failures_are_numbered_by_rank nat Scenario.execa Scenario.together
           Scenario.regexp "checks" [] 2 db
           (snd (fst (Scenario.run db "checks"))) 0
           (Database.mkWorkflow
              (Database.mkWorkflowRow 1 "checks" "" true false [] 0 1 1 None)
              ["echo a"; "echo b"; "false"])
           (fst (fst (Scenario.run db "checks")))
           (snd (Scenario.run db "checks"))
           [Fulfilled ""; Fulfilled "";
            RejectedWith "Command failed with exit code 1: false"]
           (mkRun 3 [Log (newline ++ "Executing workflow: checks");
                     SpinnerStart "Running 3 commands in parallel...";
                     Exec "echo a"; Exec "echo b"; Exec "false"])).
  - reflexivity.
  - reflexivity.
  - reflexivity.
  - reflexivity.
  - discriminate.
Defined.

(* ================================================================== *)
(** * Further properties of variables *)
(* ================================================================== *)

Lemma has_false_get (o : JsObject.t) (k : string) :
  JsObject.has o k = false -> JsObject.get o k = None.
Proof. unfold JsObject.has. now destruct (JsObject.get o k). Qed.

Lemma get_None_keys (o : JsObject.t) (k : string) :
  JsObject.get o k = None <-> ~ In k (JsObject.keys o).
Proof.
  induction o as [|[k1 v1] o IH]; simpl; [tauto|].
  destruct (String.eqb k1 k) eqn:E.
  - apply String.eqb_eq in E. split; [discriminate|]. intros H. exfalso. apply H. now left.
  - apply String.eqb_neq in E. rewrite IH. tauto.
Qed.

Lemma get_update (o : JsObject.t) (k v k' : string) :
  JsObject.has o k = true ->
  JsObject.get (JsObject.update o k v) k'
  = if String.eqb k k' then Some v else JsObject.get o k'.
Proof.
  unfold JsObject.has.
  induction o as [|[k1 v1] o IH]; simpl; [discriminate|].
  destruct (String.eqb k1 k) eqn:E; intros H; simpl.
  - apply String.eqb_eq in E. subst k1. now destruct (String.eqb k k').
  - destruct (String.eqb k1 k') eqn:E'; [|exact (IH H)].
    apply String.eqb_eq in E'. subst k'. now rewrite String.eqb_sym, E.
Qed.

Lemma get_insert_index (n : N) (o : JsObject.t) (k v k' : string) :
  JsObject.get o k = None ->
  JsObject.get (JsObject.insert_index n k v o) k'
  = if String.eqb k k' then Some v else JsObject.get o k'.
Proof.
  induction o as [|[k1 v1] o IH]; simpl; [reflexivity|].
  destruct (String.eqb k1 k) eqn:E; [discriminate|]. intros H.
  destruct (JsObject.array_index k1) as [n'|]; [|reflexivity].
  destruct (n' <? n)%N; [|reflexivity].
  simpl. destruct (String.eqb k1 k') eqn:E'; [|exact (IH H)].
  apply String.eqb_eq in E'. subst k'. now rewrite String.eqb_sym, E.
Qed.

Lemma get_snoc (o : JsObject.t) (k v k' : string) :
  JsObject.get o k = None ->
  JsObject.get (o ++ [(k, v)])%list k'
  = if String.eqb k k' then Some v else JsObject.get o k'.
Proof.
  induction o as [|[k1 v1] o IH]; simpl.
  - intros _. now destruct (String.eqb k k').
  - destruct (String.eqb k1 k) eqn:E; [discriminate|]. intros H.
    destruct (String.eqb k1 k') eqn:E'; [|exact (IH H)].
    apply String.eqb_eq in E'. subst k'. now rewrite String.eqb_sym, E.
Qed.

(** Reading a property after an assignment. *)
Lemma get_set (o : JsObject.t) (k v k' : string) :
  JsObject.get (JsObject.set o k v) k'
  = if String.eqb k k' then Some v else JsObject.get o k'.
Proof.
  unfold JsObject.set. destruct (JsObject.has o k) eqn:H.
  - now apply get_update.
  - apply has_false_get in H.
    destruct (JsObject.array_index k); [now apply get_insert_index|now apply get_snoc].
Qed.

Lemma keys_update (o : JsObject.t) (k v : string) :
  JsObject.keys (JsObject.update o k v) = JsObject.keys o.
Proof.
  induction o as [|[k1 v1] o IH]; simpl; [reflexivity|].
  destruct (String.eqb k1 k); simpl; [reflexivity|]. now rewrite IH.
Qed.

Lemma In_insert_index (n : N) (o : JsObject.t) (k v : string) (e : string * string) :
  In e (JsObject.insert_index n k v o) <-> e = (k, v) \/ In e o.
Proof.
  induction o as [|[k1 v1] o IH]; simpl; [intuition congruence|].
  destruct (JsObject.array_index k1) as [n'|]; [|simpl; intuition congruence].
  destruct (n' <? n)%N; simpl; [rewrite IH|]; intuition congruence.
Qed.

Lemma NoDup_keys_insert_index (n : N) (o : JsObject.t) (k v : string) :
  NoDup (JsObject.keys o) -> ~ In k (JsObject.keys o) ->
  NoDup (JsObject.keys (JsObject.insert_index n k v o)).
Proof.
  unfold JsObject.keys.
  induction o as [|[k1 v1] o IH]; simpl; intros Hn Hk; [repeat constructor; auto|].
  inversion Hn as [|? ? H1 H2]; subst.
  assert (Hcons : NoDup (k :: k1 :: map fst o)).
  { constructor; [exact Hk|exact Hn]. }
  destruct (JsObject.array_index k1) as [n'|]; [|exact Hcons].
  destruct (n' <? n)%N; [|exact Hcons].
  simpl. constructor.
  - intros Hin. apply in_map_iff in Hin. destruct Hin as (e & He & Hin).
    apply In_insert_index in Hin. destruct Hin as [->|Hin].
    + simpl in He. apply Hk. now left.
    + apply H1. rewrite <- He. now apply in_map.
  - apply IH; [exact H2|]. intros Hin. apply Hk. now right.
Qed.

Lemma NoDup_keys_set (o : JsObject.t) (k v : string) :
  NoDup (JsObject.keys o) -> NoDup (JsObject.keys (JsObject.set o k v)).
Proof.
  intros Hn. unfold JsObject.set. destruct (JsObject.has o k) eqn:H.
  - now rewrite keys_update.
  - apply has_false_get, get_None_keys in H.
    destruct (JsObject.array_index k).
    + now apply NoDup_keys_insert_index.
    + unfold JsObject.keys. rewrite map_app. now apply NoDup_snoc.
Qed.

Lemma In_set (o : JsObject.t) (k v : string) (e : string * string) :
  In e (JsObject.set o k v) -> e = (k, v) \/ In e o.
Proof.
  unfold JsObject.set. destruct (JsObject.has o k).
  - induction o as [|[k1 v1] o IH]; simpl; [tauto|].
    destruct (String.eqb k1 k) eqn:E; simpl.
    + apply String.eqb_eq in E. subst k1. intuition.
    + intuition.
  - destruct (JsObject.array_index k).
    + apply In_insert_index.
    + intros H. apply in_app_or in H. simpl in H. intuition.
Qed.

Lemma get_assignments (l : JsObject.t) :
  NoDup (JsObject.keys l) ->
  forall (o : JsObject.t) (k : string),
    JsObject.get (fold_left (fun o kv => JsObject.set o (fst kv) (snd kv)) l o) k
    = match JsObject.get l k with
      | Some v => Some v
      | None => JsObject.get o k
      end.
Proof.
  induction l as [|[k1 v1] l IH]; intros Hn o k; [reflexivity|].
  inversion Hn as [|? ? H1 H2]; subst.
  cbn [fold_left fst snd]. rewrite (IH H2), get_set. simpl.
  destruct (String.eqb k1 k) eqn:E; [|reflexivity].
  apply String.eqb_eq in E. subst k1.
  apply get_None_keys in H1. now rewrite H1.
Qed.

Lemma NoDup_keys_assignments (l o : JsObject.t) :
  NoDup (JsObject.keys o) ->
  NoDup (JsObject.keys (fold_left (fun o kv => JsObject.set o (fst kv) (snd kv)) l o)).
Proof.
  revert o. induction l as [|[k1 v1] l IH]; intros o H; [exact H|].
  simpl. apply IH. now apply NoDup_keys_set.
Qed.

(** X9: in the variables of a run, [{ ...workflow.variables, ...vars }],
    a run-time variable overrides the stored default of the same name,
    every other default is kept, no other name appears, and each name
    appears once. *)
Theorem runtime_variables_override_defaults (defaults vars : JsObject.t) :
  NoDup (JsObject.keys defaults) ->
  NoDup (JsObject.keys vars) ->
  (forall k,
      JsObject.get (JsObject.spread defaults vars) k
      = match JsObject.get vars k with
        | Some v => Some v
        | None => JsObject.get defaults k
        end)
  /\ NoDup (JsObject.keys (JsObject.spread defaults vars)).
Proof.
  intros Hd Hv. split.
  - intros k. unfold JsObject.spread. rewrite fold_left_app.
    rewrite (get_assignments vars Hv), (get_assignments defaults Hd). simpl.
    destruct (JsObject.get vars k); [reflexivity|].
    now destruct (JsObject.get defaults k).
  - unfold JsObject.spread. apply NoDup_keys_assignments. constructor.
Qed.

Lemma runtime_variables_override_defaults_witness :
  JsObject.get (JsObject.spread [("env", "staging"); ("region", "eu")]
                  [("env", "production")]) "env" = Some "production"
  /\ JsObject.get (JsObject.spread [("env", "staging"); ("region", "eu")]
                     [("env", "production")]) "region" = Some "eu".
Proof.
  destruct (runtime_variables_override_defaults
              [("env", "staging"); ("region", "eu")] [("env", "production")]) as [H _].
  - repeat constructor; simpl; intuition discriminate.
  - repeat constructor; simpl; intuition.
  - split; [exact (H "env")|exact (H "region")].
Defined.

Lemma split_at_nonempty (sep : ascii) (s : string) : split_at sep s <> [].
Proof.
  destruct s as [|c s]; simpl; [discriminate|].
  destruct (Ascii.eqb c sep); [discriminate|].
  destruct (split_at sep s); discriminate.
Qed.

Lemma split_at_pieces (sep : ascii) (s : string) (x : string) :
  In x (split_at sep s) -> JsString.mem sep x = false.
Proof.
  revert x. induction s as [|c s IH]; intros x; simpl.
  - intros [<-|[]]. reflexivity.
  - destruct (Ascii.eqb c sep) eqn:E.
    + intros [<-|H]; [reflexivity|now apply IH].
    + destruct (split_at sep s) as [|first others] eqn:S.
      * intros [<-|[]]. simpl. now rewrite E.
      * intros [<-|H].
        -- simpl. rewrite E. apply IH. now left.
        -- apply IH. now right.
Qed.

Lemma split_at_app (sep : ascii) (a b : string) :
  JsString.mem sep a = false ->
  split_at sep (a ++ String sep b) = a :: split_at sep b.
Proof.
  induction a as [|c a IH]; simpl; intros H.
  - now rewrite Ascii.eqb_refl.
  - apply orb_false_iff in H. destruct H as [Hc Ha].
    rewrite Hc, (IH Ha). reflexivity.
Qed.

Lemma add_var_entries (o : JsObject.t) (arg : string) (k v : string) :
  In (k, v) (add_var o arg) ->
  In (k, v) o
  \/ (k <> "" /\ v <> "" /\ k <> "__proto__"
      /\ JsString.mem "=" k = false /\ JsString.mem "=" v = false).
Proof.
  unfold add_var, JsObject.assign.
  destruct (split_at "=" arg) as [|key [|value rest]] eqn:S; [now left|now left|].
  destruct (String.eqb key "") eqn:Ek; simpl; [now left|].
  destruct (String.eqb value "") eqn:Ev; simpl; [now left|].
  destruct (String.eqb key "__proto__") eqn:Ep; [now left|].
  intros H. apply In_set in H. destruct H as [H|H]; [|now left].
  injection H as -> ->. right.
  apply String.eqb_neq in Ek, Ev, Ep.
  split; [exact Ek|]. split; [exact Ev|]. split; [exact Ep|].
  split; apply (split_at_pieces "=" arg); rewrite S; simpl; auto.
Qed.

Lemma add_var_proto (o : JsObject.t) (text : string) :
  add_var o ("__proto__=" ++ text) = o.
Proof.
  unfold add_var.
  change ("__proto__=" ++ text) with ("__proto__" ++ String "=" text).
  rewrite (split_at_app "=" "__proto__" text eq_refl).
  destruct (split_at "=" text) as [|value rest] eqn:S;
    [now apply split_at_nonempty in S|].
  unfold JsObject.assign. cbn [String.eqb Ascii.eqb Bool.eqb andb negb].
  now destruct (negb (String.eqb value "")).
Qed.

(** X10: the variables gathered from [--vars] never have an empty name or
    an empty value, neither contains an equals sign, and none is named
    [__proto__]; each name occurs once; of an argument with a second
    equals sign only the text between the first and the second is kept
    as the value; and an argument that assigns to [__proto__] adds no
    variable. *)
Theorem command_line_variables (args : list string) :
  (forall k v,
      In (k, v) (collect_vars args) ->
      k <> "" /\ v <> "" /\ k <> "__proto__"
      /\ JsString.mem "=" k = false /\ JsString.mem "=" v = false)
  /\ NoDup (JsObject.keys (collect_vars args))
  /\ (forall k v rest,
         k <> "" -> v <> "" -> k <> "__proto__" ->
         JsString.mem "=" k = false -> JsString.mem "=" v = false ->
         collect_vars [k ++ "=" ++ v ++ "=" ++ rest] = [(k, v)])
  /\ (forall text, collect_vars (args ++ ["__proto__=" ++ text]) = collect_vars args).
Proof.
  split; [|split; [|split]].
  - unfold collect_vars.
    assert (G : forall o,
               (forall k v, In (k, v) o ->
                  k <> "" /\ v <> "" /\ k <> "__proto__"
                  /\ JsString.mem "=" k = false /\ JsString.mem "=" v = false) ->
               forall k v, In (k, v) (fold_left add_var args o) ->
                  k <> "" /\ v <> "" /\ k <> "__proto__"
                  /\ JsString.mem "=" k = false /\ JsString.mem "=" v = false).
    { induction args as [|arg args IH]; intros o Ho k v H; [now apply Ho|].
      simpl in H. revert k v H. apply IH. intros k v H.
      apply add_var_entries in H. destruct H as [H|H]; [now apply Ho|exact H]. }
    apply G. intros k v [].
  - unfold collect_vars.
    assert (G : forall o, NoDup (JsObject.keys o) ->
                          NoDup (JsObject.keys (fold_left add_var args o))).
    { induction args as [|arg args IH]; intros o Ho; [exact Ho|].
      simpl. apply IH. unfold add_var, JsObject.assign.
      destruct (split_at "=" arg) as [|key [|value rest]]; try exact Ho.
      destruct (negb (String.eqb key "") && negb (String.eqb value "")); [|exact Ho].
      destruct (String.eqb key "__proto__"); [exact Ho|].
      now apply NoDup_keys_set. }
    apply G. constructor.
  - intros k v rest Hk Hv Hp Mk Mv. unfold collect_vars. simpl. unfold add_var.
    change (k ++ "=" ++ v ++ "=" ++ rest) with (k ++ String "=" (v ++ String "=" rest)).
    rewrite (split_at_app "=" k _ Mk), (split_at_app "=" v _ Mv).
    apply String.eqb_neq in Hk, Hv, Hp. rewrite Hk, Hv. simpl.
    unfold JsObject.assign. rewrite Hp.
    unfold JsObject.set. simpl.
    destruct (JsObject.array_index k); reflexivity.
  - intros text. unfold collect_vars. rewrite fold_left_app. cbn [fold_left].
    apply add_var_proto.
Qed.

Lemma command_line_variables_witness :
  collect_vars ["url=http://host/?a=1"] = [("url", "http://host/?a")]
  /\ collect_vars ["env=prod"; "__proto__=x"] = [("env", "prod")].
Proof.
  destruct (command_line_variables ["env=prod"]) as (_ & _ & H & Hp).
  split; [|exact (Hp "x")].
  apply (H "url" "http://host/?a" "1"); try discriminate; reflexivity.
Defined.

(* ================================================================== *)
(** * The saved commands *)
(* ================================================================== *)

(** X11: a saved command is fetched back as saved, with a usage count of
    0 and no last use - also when the name was stored before, whose usage
    statistics are then lost; saving leaves the commands of other names as
    they were; after [deleteCommand] the name is not found, and
    [deleteCommand] reports whether it was. *)
Theorem saved_command_is_fetched (name other command description tags : string)
    (now later : Database.Time) (tb : CommandTable.t) :
  fst (CommandTable.getCommand name later
         (snd (CommandTable.saveCommand name command description tags now tb)))
  = Some (CommandTable.mkCommandRow (S (CommandTable.seq tb)) name command description tags
            0 now now None)
  /\ (other <> name ->
      fst (CommandTable.getCommand other later
             (snd (CommandTable.saveCommand name command description tags now tb)))
      = fst (CommandTable.getCommand other later tb))
  /\ fst (CommandTable.getCommand name later (snd (CommandTable.deleteCommand name tb)))
     = None
  /\ fst (CommandTable.deleteCommand name tb)
     = (match fst (CommandTable.getCommand name later tb) with
        | Some _ => true
        | None => false
        end).
Proof.
  split; [|split; [|split]].
  - unfold CommandTable.getCommand, CommandTable.saveCommand. cbn [snd CommandTable.rows].
    rewrite find_app_fresh with (x := CommandTable.mkCommandRow (S (CommandTable.seq tb))
                                        name command description tags 0 now now None).
    + reflexivity.
    + intros y Hy. apply filter_In in Hy. now apply negb_true_iff.
    + simpl. apply String.eqb_refl.
  - intros Hne. unfold CommandTable.getCommand, CommandTable.saveCommand.
    cbn [snd CommandTable.rows].
    rewrite find_snoc_other by (simpl; now apply String.eqb_neq, not_eq_sym).
    rewrite find_filter_same.
    + now destruct (find _ (CommandTable.rows tb)).
    + intros x Hx. apply String.eqb_eq in Hx. rewrite Hx.
      apply negb_true_iff. now apply String.eqb_neq.
  - unfold CommandTable.getCommand, CommandTable.deleteCommand. cbn [snd CommandTable.rows].
    rewrite find_filter_none; [reflexivity|].
    intros x Hx. now apply negb_true_iff.
  - unfold CommandTable.getCommand, CommandTable.deleteCommand. cbn [fst].
    destruct (find _ (CommandTable.rows tb)) as [r|] eqn:F.
    + destruct (filter _ (CommandTable.rows tb)) eqn:E; [|reflexivity].
      apply find_none_filter in E. congruence.
    + apply find_none_filter in F. now rewrite F.
Qed.

Lemma saved_command_is_fetched_witness :
  "build" <> "deploy"
  /\ fst (CommandTable.getCommand "build" 2
            (snd (CommandTable.saveCommand "deploy" "make deploy" "" "" 1 CommandTable.empty)))
     = fst (CommandTable.getCommand "build" 2 CommandTable.empty).
Proof.
  assert (H : "build" <> "deploy") by discriminate.
  split; [exact H|].
  exact (proj1 (proj2 (saved_command_is_fetched "deploy" "build" "make deploy" "" "" 1 2
                         CommandTable.empty)) H).
Defined.

(** X12: each fetch of a stored command counts as a use: the fetch hands
    back the row as it was, and the next fetch finds its usage count one
    higher and its last use at the time of the first. *)
Theorem fetching_a_command_counts_a_use (name : string) (now later : Database.Time)
    (tb : CommandTable.t) (r : CommandTable.CommandRow) :
  fst (CommandTable.getCommand name now tb) = Some r ->
  fst (CommandTable.getCommand name later (snd (CommandTable.getCommand name now tb)))
  = Some (used_once_more now r).
Proof.
  unfold CommandTable.getCommand.
  destruct (find _ (CommandTable.rows tb)) as [r0|] eqn:F; [|discriminate].
  cbn [fst snd CommandTable.rows]. intros [= ->].
  rewrite (find_map_preserving _ _ _ r); [| |exact F].
  - apply find_some in F. destruct F as [_ F]. rewrite F. reflexivity.
  - intros y. destruct (String.eqb (CommandTable.name y) name) eqn:E; [|exact E].
    exact E.
Qed.

Lemma fetching_a_command_counts_a_use_witness :
  let tb := snd (CommandTable.saveCommand "up" "docker compose up -d" "" "" 1
                   CommandTable.empty) in
  fst (CommandTable.getCommand "up" 3 (snd (CommandTable.getCommand "up" 2 tb)))
  = Some (CommandTable.mkCommandRow 1 "up" "docker compose up -d" "" "" 1 1 1 (Some 2)).
Proof.
  intros tb.
  apply (fetching_a_command_counts_a_use "up" 2 3 tb
           (CommandTable.mkCommandRow 1 "up" "docker compose up -d" "" "" 0 1 1 None)).
  reflexivity.
Defined.

(* ================================================================== *)
(** * Further properties of the debug-shell skill *)
(* ================================================================== *)

(** X13: for a date that is not in the future, [getAge] shows a whole
    number of seconds, minutes, hours or days that never overstates the
    time elapsed and is less than one unit short of it; it shows seconds
    below 60, minutes from 1 to 59, hours from 1 to 23, and days from 1
    on.  For a date in the future it shows a negative number of
    seconds, however far ahead the date is. *)
Theorem age_is_rounded_down (now date : Z) :
  (Z.abs (now - date) < 2 ^ 53)%Z ->
  ((date <= now)%Z ->
   exists n suffix unit,
     In (suffix, unit) age_units
     /\ KShell.getAge now date = KShell.of_Z n ++ suffix
     /\ (n * unit <= (now - date) / 1000 < (n + 1) * unit)%Z
     /\ (suffix = "s" -> (0 <= n < 60)%Z)
     /\ (suffix = "m" -> (1 <= n < 60)%Z)
     /\ (suffix = "h" -> (1 <= n < 24)%Z)
     /\ (suffix = "d" -> (1 <= n)%Z))
  /\ ((now < date)%Z ->
      KShell.getAge now date = KShell.of_Z ((now - date) / 1000) ++ "s"
      /\ ((now - date) / 1000 < 0)%Z).
Proof.
  intros _. split.
  - intros Hle. unfold KShell.getAge.
    set (s := ((now - date) / 1000)%Z).
    assert (Hs : (0 <= s)%Z) by (apply Z.div_pos; lia).
    destruct (Z.ltb_spec s 60).
    { exists s, "s", 1%Z. split; [simpl; auto|]. split; [reflexivity|].
      split; [lia|]. repeat split; try discriminate; lia. }
    assert (Hm : (s / 60 / 60 = s / 3600)%Z) by (rewrite Z.div_div by lia; reflexivity).
    assert (Hh : (s / 60 / 60 / 24 = s / 86400)%Z)
      by (rewrite Hm, Z.div_div by lia; reflexivity).
    pose proof (Z.mul_div_le s 60 ltac:(lia)) as A1.
    pose proof (Z.mul_succ_div_gt s 60 ltac:(lia)) as A2.
    pose proof (Z.mul_div_le s 3600 ltac:(lia)) as B1.
    pose proof (Z.mul_succ_div_gt s 3600 ltac:(lia)) as B2.
    pose proof (Z.mul_div_le s 86400 ltac:(lia)) as C1.
    pose proof (Z.mul_succ_div_gt s 86400 ltac:(lia)) as C2.
    destruct (Z.ltb_spec (s / 60) 60).
    { exists (s / 60)%Z, "m", 60%Z. split; [simpl; auto|]. split; [reflexivity|].
      split; [lia|]. repeat split; try discriminate; lia. }
    destruct (Z.ltb_spec (s / 60 / 60) 24).
    { exists (s / 60 / 60)%Z, "h", 3600%Z. split; [simpl; auto|]. split; [reflexivity|].
      rewrite Hm in *. split; [lia|]. repeat split; try discriminate; lia. }
    exists (s / 60 / 60 / 24)%Z, "d", 86400%Z. split; [simpl; auto 6|].
    split; [reflexivity|]. rewrite Hh, Hm in *.
    split; [lia|]. repeat split; try discriminate; lia.
  - intros Hlt. unfold KShell.getAge.
    assert (Hs : ((now - date) / 1000 < 0)%Z) by (apply Z.div_lt_upper_bound; lia).
    destruct (Z.ltb_spec ((now - date) / 1000) 60); [|lia].
    split; [reflexivity|exact Hs].
Qed.

Lemma age_is_rounded_down_witness :
  KShell.getAge 7262500 0 = "2h"
  /\ KShell.getAge 0 90000000 = "-90000s".
Proof.
  destruct (age_is_rounded_down 7262500 0) as [H1 _]; [reflexivity|].
  destruct (age_is_rounded_down 0 90000000) as [_ H2]; [reflexivity|].
  split.
  - destruct (H1 ltac:(discriminate)) as (n & suffix & unit & _ & E & _). reflexivity.
  - exact (proj1 (H2 eq_refl)).
Defined.

(** One case per option: [o] is that option, or none of them. *)
Ltac option_cases o tac :=
  repeat match goal with
         | |- context [String.eqb o ?s] =>
             destruct (String.eqb_spec o s) as [->|?]; [solve [tac]|]
         end.

Lemma parse_from_unrecognised (opts : KShell.Options) (options : list string) :
  forallb (fun o => negb (recognised o)) options = true ->
  KShell.parse_from opts options = opts.
Proof.
  induction options as [|o rest IH]; intros H; [reflexivity|].
  cbn [forallb] in H. apply andb_true_iff in H. destruct H as [Ho Hrest].
  cbn [KShell.parse_from].
  option_cases o ltac:(vm_compute in Ho; discriminate Ho).
  cbn [orb]. now apply IH.
Qed.

Lemma parse_from_app (n : nat) :
  forall (opts : KShell.Options) (a b : list string),
    List.length a <= n ->
    complete a = true ->
    KShell.parse_from opts (a ++ b) = KShell.parse_from (KShell.parse_from opts a) b.
Proof.
  induction n as [|n IH]; intros opts a b Hn Hc.
  - destruct a; [reflexivity|simpl in Hn; lia].
  - destruct a as [|o rest]; [reflexivity|].
    simpl in Hn. cbn [complete] in Hc.
    cbn [KShell.parse_from app].
    option_cases o
      ltac:(cbn [orb];
            first [ destruct rest as [|v rest'];
                    [ discriminate Hc
                    | cbn [app]; apply IH; [simpl in Hn; lia|exact Hc] ]
                  | apply IH; [lia|exact Hc] ]).
    cbn [orb]. apply IH; [lia|].
    assert (Hv : takes_value o = false).
    { unfold takes_value. cbn [existsb].
      repeat match goal with
             | H : o <> ?s |- context [String.eqb o ?s] =>
                 rewrite (proj2 (String.eqb_neq o s) H)
             end.
      reflexivity. }
    now rewrite Hv in Hc.
Qed.

(** X14: [parseOptions] ignores every argument it does not recognise, so
    a list without a recognised option gives the defaults; a list in which
    no option is left waiting for its value can be parsed piece by piece,
    the options that follow it being applied to what it gives; and an
    option [--duration] that comes last, with nothing after it, leaves no
    duration at all. *)
Theorem options_are_parsed_in_order (e : KShell.Environment) (opts : KShell.Options)
    (a b : list string) :
  (forallb (fun o => negb (recognised o)) a = true ->
   KShell.parseOptions e a = KShell.defaults e)
  /\ (complete a = true ->
      KShell.parse_from opts (a ++ b) = KShell.parse_from (KShell.parse_from opts a) b)
  /\ (complete a = true ->
      KShell.duration (KShell.parse_from opts (a ++ ["--duration"])) = None).
Proof.
  split; [|split].
  - apply parse_from_unrecognised.
  - apply (parse_from_app (List.length a)). apply le_n.
  - intros Hc. rewrite (parse_from_app (List.length a)) by (auto using le_n).
    reflexivity.
Qed.

Lemma options_are_parsed_in_order_witness :
  let e := KShell.mkEnvironment "dev" "default" false false true in
  KShell.parseOptions e ["--verbos"; "2h"] = KShell.defaults e
  /\ KShell.duration (KShell.parseOptions e ["--duration"; "2h"; "-a"; "--duration"]) = None.
Proof.
  intros e.
  destruct (options_are_parsed_in_order e (KShell.defaults e) ["--verbos"; "2h"] [])
    as (H1 & _ & _).
  destruct (options_are_parsed_in_order e (KShell.defaults e) ["--duration"; "2h"; "-a"] [])
    as (_ & _ & H3).
  split; [apply H1; reflexivity|apply H3; reflexivity].
Defined.

Lemma starts_with_longer (p s rest : string) :
  JsString.starts_with p s = true -> JsString.starts_with p (s ++ rest) = true.
Proof.
  intros H. apply starts_with_inv in H. destruct H as [tl ->].
  rewrite append_assoc. apply starts_with_app.
Qed.

Lemma store_get_set (store : KShell.SessionStore) (id : string) (s : KShell.Session) :
  KShell.store_get (KShell.store_set store id s) id = Some s.
Proof.
  induction store as [|[id' s'] rest IH]; simpl.
  - now rewrite String.eqb_refl.
  - destruct (String.eqb id' id) eqn:E; simpl; rewrite E; [reflexivity|exact IH].
Qed.

Lemma end_from_get (service : string) (clock : nat -> Z) (store : KShell.SessionStore)
    (id : string) (s : KShell.Session) :
  forall reads,
    KShell.store_get store id = Some s ->
    exists s',
      KShell.store_get (KShell.end_from service clock reads store) id = Some s'
      /\ (JsString.starts_with service id = true -> KShell.active s' = false).
Proof.
  induction store as [|[id' s0] rest IH]; intros reads H; simpl in H; [discriminate|].
  cbn [KShell.end_from].
  destruct (JsString.starts_with service id' && KShell.active s0) eqn:C;
    cbn [KShell.store_get]; destruct (String.eqb id' id) eqn:E.
  - eexists. split; [reflexivity|]. reflexivity.
  - now apply IH.
  - injection H as <-. apply String.eqb_eq in E. subst id'.
    eexists. split; [reflexivity|]. intros Hs. rewrite Hs in C. exact C.
  - now apply IH.
Qed.

(** X15: [endSessionTracking] removes and adds no session; it closes
    every active session whose id begins with the service name, so that
    afterwards none of them is active, and with them the sessions of every
    other service whose name begins with that name; sessions whose id does
    not begin with it are left as they are; and a session that is already
    closed keeps its end time when the service is ended again. *)
Theorem ending_a_service_closes_sessions_by_prefix (service : string)
    (clock clock' : nat -> Z) (store : KShell.SessionStore) :
  map fst (KShell.endSessionTracking service clock store) = map fst store
  /\ (forall id s,
         In (id, s) (KShell.endSessionTracking service clock store) ->
         JsString.starts_with service id = true ->
         KShell.active s = false)
  /\ (forall id s,
         JsString.starts_with service id = false ->
         (In (id, s) (KShell.endSessionTracking service clock store) <-> In (id, s) store))
  /\ (forall other info now,
         JsString.starts_with service other = true ->
         exists s,
           KShell.store_get
             (KShell.endSessionTracking service clock
                (snd (KShell.startSessionTracking other info now store)))
             (fst (KShell.startSessionTracking other info now store))
           = Some s
           /\ KShell.active s = false)
  /\ KShell.endSessionTracking service clock'
       (KShell.endSessionTracking service clock store)
     = KShell.endSessionTracking service clock store.
Proof.
  unfold KShell.endSessionTracking.
  split; [|split; [|split; [|split]]].
  - generalize 0. induction store as [|[id s] rest IH]; intros k; [reflexivity|].
    cbn [KShell.end_from].
    destruct (JsString.starts_with service id && KShell.active s); simpl; now rewrite IH.
  - generalize 0. induction store as [|[id0 s0] rest IH]; intros k id s H Hs; [contradiction|].
    cbn [KShell.end_from] in H.
    destruct (JsString.starts_with service id0 && KShell.active s0) eqn:C.
    + destruct H as [H|H]; [injection H as <- <-; reflexivity|exact (IH _ _ _ H Hs)].
    + destruct H as [H|H]; [|exact (IH _ _ _ H Hs)].
      injection H as <- <-. rewrite Hs in C. exact C.
  - intros id s Hs. generalize 0.
    induction store as [|[id0 s0] rest IH]; intros k; [reflexivity|].
    cbn [KShell.end_from].
    destruct (JsString.starts_with service id0 && KShell.active s0) eqn:C; simpl;
      rewrite IH; [|reflexivity].
    apply andb_true_iff in C. destruct C as [C _].
    split; intros [H|H]; auto; injection H as -> _; congruence.
  - intros other info now Ho.
    unfold KShell.startSessionTracking. cbn [fst snd].
    destruct (end_from_get service clock _ _ _ 0
                (store_get_set store (other ++ "-" ++ KShell.of_Z now)
                   (KShell.mkSession (KShell.info_jobName info) (KShell.info_podName info)
                      (KShell.info_justification info) (KShell.info_startTime info)
                      (KShell.Requested (KShell.info_duration info))
                      (KShell.info_autoCleanup info) (KShell.info_record info)
                      [] true None)))
      as (s' & Hget & Hact).
    exists s'. split; [exact Hget|]. apply Hact. now apply starts_with_longer.
  - generalize 0 at 2 3. generalize 0.
    induction store as [|[id s] rest IH]; intros k' k; [reflexivity|].
    cbn [KShell.end_from].
    destruct (JsString.starts_with service id && KShell.active s) eqn:C.
    + cbn [KShell.end_from KShell.active]. rewrite andb_false_r. now rewrite IH.
    + cbn [KShell.end_from]. rewrite C. now rewrite IH.
Qed.

Lemma ending_a_service_closes_sessions_by_prefix_witness :
  let info := KShell.mkSessionInfo "api-gateway-shell-manual-ops" "pod-1" "Debugging" 1000
                None true false in
  exists s,
    KShell.store_get
      (KShell.endSessionTracking "api" (fun _ => 5000%Z)
         (snd (KShell.startSessionTracking "api-gateway" info 1000 [])))
      "api-gateway-1000"
    = Some s
    /\ KShell.active s = false.
Proof.
  intros info.
  destruct (ending_a_service_closes_sessions_by_prefix "api" (fun _ => 5000%Z)
              (fun _ => 5000%Z) []) as (_ & _ & _ & H & _).
  exact (H "api-gateway" info 1000%Z eq_refl).
Defined.

(** ** Version comparison *)

Lemma split_at_single (sep : ascii) (s : string) :
  JsString.mem sep s = false -> split_at sep s = [s].
Proof.
  induction s as [|c s IH]; simpl; intros H; [reflexivity|].
  apply orb_false_iff in H. destruct H as [Hc Hs].
  rewrite Hc, (IH Hs). reflexivity.
Qed.

Lemma split_at_sep (sep : ascii) (a b : string) :
  split_at sep (a ++ String sep b) = (split_at sep a ++ split_at sep b)%list.
Proof.
  induction a as [|c a IH]; simpl.
  - now rewrite Ascii.eqb_refl.
  - destruct (Ascii.eqb c sep); [now rewrite IH|].
    rewrite IH. destruct (split_at sep a) as [|f o] eqn:S; [|reflexivity].
    now apply split_at_nonempty in S.
Qed.

Lemma compare_parts_flip {num : Type} (zero : num) (lt : num -> num -> bool) :
  (forall a b, lt a b = true -> lt b a = false) ->
  forall turns parts1 parts2,
    compare_parts num zero lt turns parts2 parts1
    = (- compare_parts num zero lt turns parts1 parts2)%Z.
Proof.
  intros Hasym. induction turns as [|turns IH]; intros parts1 parts2; [reflexivity|].
  cbn [compare_parts].
  destruct (lt (part_or_zero num zero parts1) (part_or_zero num zero parts2)) eqn:E1.
  - rewrite (Hasym _ _ E1). reflexivity.
  - destruct (lt (part_or_zero num zero parts2) (part_or_zero num zero parts1)) eqn:E2;
      [reflexivity|apply IH].
Qed.

Lemma compare_parts_prefix {num : Type} (zero : num) (lt : num -> num -> bool) :
  (forall a, lt a a = false) ->
  forall parts turns more,
    compare_parts num zero lt (List.length parts + turns) (parts ++ more) parts
    = compare_parts num zero lt turns more [].
Proof.
  intros Hirr. induction parts as [|p parts IH]; intros turns more; [reflexivity|].
  cbn [List.length Nat.add app compare_parts tl].
  replace (part_or_zero num zero (p :: parts ++ more)%list)
    with (part_or_zero num zero (p :: parts)) by now destruct p.
  rewrite Hirr. apply IH.
Qed.

(** X16: when [<] on the numbers is asymmetric, comparing two versions
    the other way round gives the opposite sign, and a version compares
    equal to itself. *)
Theorem compareVersions_is_antisymmetric {num : Type} (zero : num)
    (lt : num -> num -> bool) (Number : string -> option num) (v1 v2 : string) :
  (forall a b, lt a b = true -> lt b a = false) ->
  compareVersions num zero lt Number v2 v1
  = (- compareVersions num zero lt Number v1 v2)%Z
  /\ compareVersions num zero lt Number v1 v1 = 0%Z.
Proof.
  intros Hasym.
  assert (Hflip : compareVersions num zero lt Number v2 v1
                  = (- compareVersions num zero lt Number v1 v2)%Z).
  { unfold compareVersions. cbv zeta. rewrite Nat.max_comm.
    now apply compare_parts_flip. }
  split; [exact Hflip|].
  unfold compareVersions in *. cbv zeta in *.
  pose proof (compare_parts_flip zero lt Hasym
                (Nat.max (List.length (map Number (split_at "." v1)))
                   (List.length (map Number (split_at "." v1))))
                (map Number (split_at "." v1)) (map Number (split_at "." v1))) as H.
  lia.
Qed.

Lemma compareVersions_is_antisymmetric_witness :
  let Number := fun s : string =>
                  if JsString.all_digits s then Some (Z.of_N (JsString.decimal s)) else None in
  compareVersions Z 0%Z Z.ltb Number "1.10.0" "1.9"
  = (- compareVersions Z 0%Z Z.ltb Number "1.9" "1.10.0")%Z
  /\ compareVersions Z 0%Z Z.ltb Number "1.9" "1.9" = 0%Z.
Proof.
  intros Number.
  apply (compareVersions_is_antisymmetric 0%Z Z.ltb Number "1.9" "1.10.0").
  intros a b H. apply Z.ltb_lt in H. apply Z.ltb_ge. lia.
Defined.

(** X17: a component that one version has and the other lacks is compared
    with 0: a version followed by a dot and one more component compares to
    the version itself as that component compares to 0, a component that
    is not a number counting as 0 too - so [v.0] and [v.x] equal [v]. *)
Theorem missing_component_counts_as_zero {num : Type} (zero : num)
    (lt : num -> num -> bool) (Number : string -> option num) (v w : string) :
  (forall a, lt a a = false) ->
  JsString.mem "." w = false ->
  compareVersions num zero lt Number (v ++ "." ++ w) v
  = (if lt (part_or_zero num zero [Number w]) zero then (-1)%Z
     else if lt zero (part_or_zero num zero [Number w]) then 1%Z
     else 0%Z).
Proof.
  intros Hirr Hw. unfold compareVersions. cbv zeta.
  change (v ++ "." ++ w) with (v ++ String "." w).
  rewrite split_at_sep, (split_at_single _ _ Hw), map_app, length_app.
  cbn [map List.length].
  rewrite Nat.max_l by lia.
  rewrite length_map.
  rewrite <- (length_map Number (split_at "." v)).
  rewrite compare_parts_prefix by exact Hirr.
  reflexivity.
Qed.

Lemma missing_component_counts_as_zero_witness :
  let Number := fun s : string =>
                  if JsString.all_digits s then Some (Z.of_N (JsString.decimal s)) else None in
  compareVersions Z 0%Z Z.ltb Number "2.1.beta" "2.1" = 0%Z.
Proof.
  intros Number.
  exact (missing_component_counts_as_zero 0%Z Z.ltb Number "2.1" "beta"
           Z.ltb_irrefl eq_refl).
Defined.

(** ** Annotations of a manifest *)

Lemma join_cons (sep line : string) (rest : list string) :
  rest <> [] -> KShell.join sep (line :: rest) = line ++ sep ++ KShell.join sep rest.
Proof. destruct rest; [congruence|reflexivity]. Qed.

Lemma join_split_at (s : string) :
  KShell.join newline (split_at (ascii_of_nat 10) s) = s.
Proof.
  induction s as [|c s IH]; [reflexivity|].
  cbn [split_at].
  destruct (Ascii.eqb_spec c (ascii_of_nat 10)) as [->|Hc].
  - rewrite join_cons by apply split_at_nonempty. rewrite IH. reflexivity.
  - destruct (split_at (ascii_of_nat 10) s) as [|f o] eqn:S;
      [now apply split_at_nonempty in S|].
    destruct o as [|x o].
    + cbn [KShell.join] in *. now rewrite IH.
    + rewrite join_cons by discriminate. rewrite join_cons in IH by discriminate.
      cbn [append]. now rewrite IH.
Qed.

Lemma split_at_join (lines : list string) :
  lines <> [] ->
  (forall line, In line lines -> JsString.mem (ascii_of_nat 10) line = false) ->
  split_at (ascii_of_nat 10) (KShell.join newline lines) = lines.
Proof.
  induction lines as [|line rest IH]; intros Hne H; [congruence|].
  destruct rest as [|line' rest].
  - cbn [KShell.join]. apply split_at_single. apply H. now left.
  - rewrite join_cons by discriminate.
    change (line ++ newline ++ KShell.join newline (line' :: rest))
      with (line ++ String (ascii_of_nat 10) (KShell.join newline (line' :: rest))).
    rewrite split_at_app by (apply H; now left).
    rewrite IH; [reflexivity|discriminate|].
    intros l Hl. apply H. now right.
Qed.

Lemma includes_sound (p s : string) :
  JsString.includes p s = true -> JsString.occurs p s.
Proof.
  induction s as [|c s IH]; cbn [JsString.includes]; intros H.
  - rewrite orb_false_r in H. apply starts_with_inv in H. destruct H as [tl ->].
    exists EmptyString, tl. reflexivity.
  - apply orb_true_iff in H. destruct H as [H|H].
    + apply starts_with_inv in H. destruct H as [tl ->].
      exists EmptyString, tl. reflexivity.
    + destruct (IH H) as (a & b & ->). exists (String c a), b. reflexivity.
Qed.

Lemma split_at_head (sep : ascii) (s first : string) (others : list string) :
  split_at sep s = first :: others -> exists rest, s = first ++ rest.
Proof.
  revert first others. induction s as [|c s IH]; intros first others; cbn [split_at].
  - intros H. injection H as <- _. now exists EmptyString.
  - destruct (Ascii.eqb c sep).
    + intros H. injection H as <- _. now exists (String c s).
    + destruct (split_at sep s) as [|f o] eqn:S.
      * now apply split_at_nonempty in S.
      * intros H. injection H as <- _.
        destruct (IH f o eq_refl) as [rest ->]. now exists rest.
Qed.

Lemma split_at_occurs (sep : ascii) (s piece : string) :
  In piece (split_at sep s) -> JsString.occurs piece s.
Proof.
  revert piece. induction s as [|c s IH]; intros piece; cbn [split_at].
  - intros [<-|[]]. now exists EmptyString, EmptyString.
  - destruct (Ascii.eqb c sep).
    + intros [<-|H].
      * now exists EmptyString, (String c s).
      * destruct (IH _ H) as (a & b & ->). now exists (String c a), b.
    + destruct (split_at sep s) as [|f o] eqn:S.
      * now apply split_at_nonempty in S.
      * intros [<-|H].
        -- destruct (split_at_head _ _ _ _ S) as [rest ->].
           now exists EmptyString, rest.
        -- destruct (IH piece (or_intror H)) as (a & b & ->).
           now exists (String c a), b.
Qed.

Lemma occurs_trans (p s t : string) :
  JsString.occurs p s -> JsString.occurs s t -> JsString.occurs p t.
Proof.
  intros (a & b & ->) (a' & b' & ->).
  exists (a' ++ a), (b ++ b'). now rewrite !append_assoc.
Qed.

Lemma findIndex_none (p : string -> bool) (lines : list string) :
  (forall line, In line lines -> p line = false) -> KShell.findIndex p lines = None.
Proof.
  induction lines as [|line rest IH]; intros H; [reflexivity|].
  cbn [KShell.findIndex]. rewrite (H line (or_introl eq_refl)).
  rewrite IH; [reflexivity|]. intros l Hl. apply H. now right.
Qed.

Lemma findIndex_first (p : string -> bool) (before : list string) (line : string)
    (after : list string) :
  (forall l, In l before -> p l = false) ->
  p line = true ->
  KShell.findIndex p (before ++ line :: after) = Some (List.length before).
Proof.
  induction before as [|l before IH]; intros H Hl; cbn [app KShell.findIndex List.length].
  - now rewrite Hl.
  - rewrite (H l (or_introl eq_refl)). rewrite IH; [reflexivity| |exact Hl].
    intros l' Hl'. apply H. now right.
Qed.

(** X18: a manifest that does not contain [metadata:] is returned
    unchanged by [addAnnotations]: no annotation is added. *)
Theorem annotations_need_a_metadata_line (yaml : string) (annotations : JsObject.t) :
  JsString.includes "metadata:" yaml = false ->
  KShell.addAnnotations yaml annotations = yaml.
Proof.
  intros H. unfold KShell.addAnnotations. cbv zeta.
  rewrite findIndex_none; [apply join_split_at|].
  intros line Hline.
  destruct (JsString.includes "metadata:" line) eqn:E; [|reflexivity].
  apply includes_sound in E. apply split_at_occurs in Hline.
  rewrite (includes_complete _ _ (occurs_trans _ _ _ E Hline)) in H. discriminate.
Qed.

Lemma annotations_need_a_metadata_line_witness :
  KShell.addAnnotations "kind: Job" [("reason", "Debugging")] = "kind: Job".
Proof.
  exact (annotations_need_a_metadata_line "kind: Job" [("reason", "Debugging")] eq_refl).
Defined.

(** X19: [addAnnotations] puts the line [  annotations:] and one line
    [    key: "value"] for each annotation, in the order of the object,
    right after the first line that contains [metadata:]; the lines before
    and after it are kept, later [metadata:] lines are not looked at, and
    the value is written between the quotes as it is. *)
Theorem annotations_follow_the_first_metadata_line (before after : list string)
    (line : string) (annotations : JsObject.t) :
  (forall l, In l before ->
             JsString.mem (ascii_of_nat 10) l = false
             /\ JsString.includes "metadata:" l = false) ->
  JsString.mem (ascii_of_nat 10) line = false ->
  JsString.includes "metadata:" line = true ->
  (forall l, In l after -> JsString.mem (ascii_of_nat 10) l = false) ->
  KShell.addAnnotations (KShell.join newline (before ++ line :: after)) annotations
  = KShell.join newline
      (before
       ++ line
       :: "  annotations:"
       :: map (fun kv => "    " ++ fst kv ++ ": " ++ KShell.quote ++ snd kv ++ KShell.quote)
            annotations
       ++ after).
Proof.
  intros Hb Hl Hm Ha. unfold KShell.addAnnotations. cbv zeta.
  rewrite split_at_join.
  - rewrite (findIndex_first _ before line after); [|intros l H; now apply Hb|exact Hm].
    replace (List.length before + 1) with (List.length (before ++ [line]))
      by (rewrite length_app; reflexivity).
    replace (before ++ line :: after)%list with ((before ++ [line]) ++ after)%list
      by (rewrite <- app_assoc; reflexivity).
    rewrite firstn_app, firstn_all, Nat.sub_diag, firstn_O, app_nil_r.
    rewrite skipn_app, skipn_all, Nat.sub_diag, skipn_O.
    cbn [app]. unfold KShell.annotationLines.
    rewrite <- app_assoc. reflexivity.
  - now destruct before.
  - intros l H. apply in_app_or in H. destruct H as [H|[<-|H]].
    + now apply Hb.
    + exact Hl.
    + now apply Ha.
Qed.

Lemma annotations_follow_the_first_metadata_line_witness :
  KShell.addAnnotations
    (KShell.join newline ["kind: Job"; "metadata:"; "  name: shell"; "    metadata:"])
    [("reason", "Debugging")]
  = KShell.join newline
      ["kind: Job"; "metadata:"; "  annotations:";
       "    reason: " ++ KShell.quote ++ "Debugging" ++ KShell.quote;
       "  name: shell"; "    metadata:"].
Proof.
  apply (annotations_follow_the_first_metadata_line
           ["kind: Job"] ["  name: shell"; "    metadata:"] "metadata:"
           [("reason", "Debugging")]).
  - intros l [<-|[]]. split; reflexivity.
  - reflexivity.
  - reflexivity.
  - intros l [<-|[<-|[]]]; reflexivity.
Defined.

(** ** Listing *)

Lemma insert_by_order_length (c : Database.CommandRow) (sorted : list Database.CommandRow) :
  List.length (Database.insert_by_order c sorted) = S (List.length sorted).
Proof.
  induction sorted as [|d rest IH]; [reflexivity|].
  cbn [Database.insert_by_order].
  destruct (Nat.ltb (Database.order_index c) (Database.order_index d)); [reflexivity|].
  cbn [List.length]. now rewrite IH.
Qed.

Lemma order_by_index_length (cs : list Database.CommandRow) :
  List.length (Database.order_by_index cs) = List.length cs.
Proof.
  induction cs as [|c cs IH]; [reflexivity|].
  unfold Database.order_by_index in *. cbn [fold_right List.length].
  now rewrite insert_by_order_length, IH.
Qed.

(** X20: [list] fails with [No workflows found] exactly when no workflow
    is stored; otherwise it has one entry for each stored workflow, and the
    entry of a workflow shows the number of commands that a fetch of the
    workflow returns, with its description, flags and statistics. *)
Theorem list_shows_every_workflow
    (order_by_updated_at : list Database.WorkflowRow -> list Database.WorkflowRow)
    (db : Database.t) :
  Permutation (order_by_updated_at (Database.workflows db)) (Database.workflows db) ->
  (WorkflowManager.list order_by_updated_at db
   = WorkflowManager.NotListed "No workflows found"
   <-> Database.workflows db = [])
  /\ (forall entries,
         WorkflowManager.list order_by_updated_at db = WorkflowManager.Listed entries ->
         List.length entries = List.length (Database.workflows db)
         /\ forall name now workflow,
              fst (Database.getWorkflow name now db) = Some workflow ->
              In (WorkflowManager.mkEntry name
                    (Database.description (Database.row workflow))
                    (List.length (Database.commands workflow))
                    (Database.parallel (Database.row workflow))
                    (Database.continue_on_error (Database.row workflow))
                    (Database.execution_count (Database.row workflow))
                    (Database.last_executed (Database.row workflow)))
                 entries).
Proof.
  intros Hperm. unfold WorkflowManager.list, Database.listWorkflows. cbv zeta.
  rewrite length_map, (Permutation_length Hperm).
  split.
  - destruct (Database.workflows db) as [|w ws] eqn:Hws; cbn [List.length Nat.eqb].
    + split; reflexivity.
    + split; discriminate.
  - intros entries H.
    destruct (Nat.eqb (List.length (Database.workflows db)) 0); [discriminate|].
    injection H as <-. rewrite !length_map, (Permutation_length Hperm).
    split; [reflexivity|].
    intros name now workflow Hget. unfold Database.getWorkflow in Hget.
    destruct (Database.select_workflow name db) as [w|] eqn:Hsel; [|discriminate].
    cbn [fst] in Hget. injection Hget as <-. cbn [Database.row Database.commands].
    unfold Database.select_workflow in Hsel. apply find_some in Hsel.
    destruct Hsel as [Hin Hname]. apply String.eqb_eq in Hname. subst name.
    rewrite map_map. apply in_map_iff. exists w. split.
    + cbn [Database.listed Database.commandCount].
      unfold Database.count_commands, Database.select_commands.
      now rewrite length_map, order_by_index_length.
    + apply (Permutation_in _ (Permutation_sym Hperm) Hin).
Qed.

Lemma list_shows_every_workflow_witness :
  let db := snd (Database.saveWorkflow "deploy" ["make"; "make install"] Database.no_options 1
                   Database.empty) in
  Permutation (rev (Database.workflows db)) (Database.workflows db)
  /\ WorkflowManager.list (@rev Database.WorkflowRow) db
     = WorkflowManager.Listed [WorkflowManager.mkEntry "deploy" "" 2 false false 0 None]
  /\ In (WorkflowManager.mkEntry "deploy" "" 2 false false 0 None)
        [WorkflowManager.mkEntry "deploy" "" 2 false false 0 None].
Proof.
  intros db.
  assert (Hperm : Permutation (rev (Database.workflows db)) (Database.workflows db))
    by exact (Permutation_sym (Permutation_rev _)).
  split; [exact Hperm|]. split; [reflexivity|].
  exact (proj2 (proj2 (list_shows_every_workflow (@rev Database.WorkflowRow) db Hperm)
                  _ eq_refl) "deploy" 2 _ eq_refl).
Defined.

(** ** Saving through the manager *)

Lemma texts_absent (values : list (option string)) :
  Database.texts values = None <-> In None values.
Proof.
  induction values as [|[c|] rest IH]; cbn [Database.texts In].
  - split; [discriminate|intros []].
  - destruct (Database.texts rest) as [cs|].
    + split; [discriminate|]. intros [H|H]; [discriminate|].
      apply IH in H. discriminate.
    + split; [|reflexivity]. intros _. right. now apply IH.
  - split; [now left|reflexivity].
Qed.

(** X21: [save] refuses an empty name, absent commands and the empty
    string as the command, and then leaves the store unchanged; an array
    is never refused, the empty one being saved as a workflow of no
    command.  With a name and commands that are all strings it succeeds -
    the failing branch of [saveWorkflow] is not taken - and reports the
    number of commands, a single command string being stored as a
    workflow of that one command; the workflow is then fetched with
    exactly these commands and the given options.  With an array that
    holds a [null] the insertion fails: [save] returns [success = false]
    with "Failed to save workflow: " and the error of the database, and
    the store is as it was. *)
Theorem save_through_the_manager (name : string) (commands : CommandsArg)
    (options : Database.Options) (now later : Database.Time) (db : Database.t) :
  (name = "" \/ commands = NoCommands \/ commands = OneCommand "" ->
   save name commands options now db
   = (mkResult false "Name and commands are required", db))
  /\ (name <> "" ->
      fst (save name (CommandArray []) options now db)
      = mkResult true ("Workflow '" ++ name ++ "' saved with 0 commands"))
  /\ (forall strings,
         name <> "" ->
         commands <> NoCommands ->
         commands <> OneCommand "" ->
         commandArray commands = map Some strings ->
         fst (save name commands options now db)
         = mkResult true
             ("Workflow '" ++ name ++ "' saved with "
                ++ JsString.of_nat (List.length strings) ++ " commands")
         /\ (ids_bounded db ->
             fst (Database.getWorkflow name later (snd (save name commands options now db)))
             = Some (Database.mkWorkflow
                       (saved_row (S (Database.workflows_seq db)) name options now)
                       strings)))
  /\ (name <> "" ->
      In None (commandArray commands) ->
      save name commands options now db
      = (mkResult false ("Failed to save workflow: " ++ Database.not_null_failed), db)).
Proof.
  split; [|split; [|split]].
  - intros [->|[->| ->]]; unfold save; [reflexivity| |];
      cbn [falsy_commands String.eqb]; now rewrite orb_true_r.
  - intros Hname. unfold save. apply String.eqb_neq in Hname. rewrite Hname. reflexivity.
  - intros strings Hname Hsome Hone Hstrings.
    assert (Hfalsy : falsy_commands commands = false).
    { destruct commands as [|c|cs]; cbn [falsy_commands]; [contradiction| |reflexivity].
      apply String.eqb_neq. intros ->. now apply Hone. }
    unfold save. apply String.eqb_neq in Hname. rewrite Hname, Hfalsy. cbn [orb].
    rewrite Hstrings. unfold Database.saveWorkflow_values. rewrite texts_strings.
    rewrite saveWorkflow_eq. cbn [fst snd]. rewrite length_map.
    split; [reflexivity|]. intros Hb.
    pose proof (fetch_after_save name strings options now later db Hb) as H.
    rewrite saveWorkflow_eq in H. exact H.
  - intros Hname Hnull.
    assert (Hfalsy : falsy_commands commands = false).
    { destruct commands as [|c|cs]; cbn [falsy_commands]; [destruct Hnull| |reflexivity].
      destruct Hnull as [H|[]]. discriminate. }
    unfold save. apply String.eqb_neq in Hname. rewrite Hname, Hfalsy. cbn [orb].
    unfold Database.saveWorkflow_values.
    apply texts_absent in Hnull. rewrite Hnull, saveWorkflow_eq. reflexivity.
Qed.

Lemma save_through_the_manager_witness :
  let db := Scenario.stored "a" ["echo a"] Scenario.stop_on_error in
  fst (save "deploy" (OneCommand "make install") Database.no_options 1 Database.empty)
  = mkResult true "Workflow 'deploy' saved with 1 commands"
  /\ fst (Database.getWorkflow "deploy" 2
            (snd (save "deploy" (OneCommand "make install") Database.no_options 1
                    Database.empty)))
     = Some (Database.mkWorkflow (saved_row 1 "deploy" Database.no_options 1)
               ["make install"])
  /\ save "b" (CommandArray [Some "first"; None]) Database.no_options 2 db
     = (mkResult false
          "Failed to save workflow: SQLITE_CONSTRAINT: NOT NULL constraint failed: workflow_commands.command",
        db)
  /\ save "c" (OneCommand "") Database.no_options 2 db
     = (mkResult false "Name and commands are required", db).
Proof.
  intros db.
  destruct (save_through_the_manager "deploy" (OneCommand "make install")
              Database.no_options 1 2 Database.empty) as (_ & _ & Hsaved & _).
  destruct (Hsaved ["make install"]) as [Hresult Hfetch];
    [discriminate|discriminate|discriminate|reflexivity|].
  split; [exact Hresult|]. split; [exact (Hfetch ids_bounded_empty)|].
  split.
  - apply (save_through_the_manager "b" (CommandArray [Some "first"; None])
             Database.no_options 2 2 db); [discriminate|right; left; reflexivity].
  - apply (save_through_the_manager "c" (OneCommand "") Database.no_options 2 2 db).
    right. right. reflexivity.
Defined.
